(** * Spatial comfort pipeline of the LadybugTools toolkit

    A shallow embedding of
      - [external_comfort/spatial.py] ([SpatialComfort], [SpatialComfortResult])
      - [helpers.py] ([evaporative_cooling_effect])
    Floating point numbers are read as exact rationals ([Q]); a value that
    may be NaN is an [option Q] with [None] for NaN.  Equality of numbers is
    [Qeq] ([==]).  The casts to [np.float16] that the accessors apply are
    the one place where rounding is written out. *)

From stdpp Require Import gmap strings.
From Stdlib Require Import QArith Qminmax Qabs Lqa.
From Stdlib Require Import Ascii Qround.

Local Open Scope Q_scope.

(** ** Numbers *)

Definition Qltb (x y : Q) : bool := negb (Qle_bool y x).
Definition Qgtb (x y : Q) : bool := Qltb y x.

(** Python exceptions that the modelled code raises or lets through. *)
Inductive exn : Type :=
| ValueError
| IndexError
| AttributeError
| FileNotFoundError
| JSONDecodeError.

Inductive result (A : Type) : Type :=
| Ok (a : A)
| Raise (e : exn).
Arguments Ok {A} a.
Arguments Raise {A} e.

Definition bind {A B : Type} (r : result A) (k : A -> result B) : result B :=
  match r with
  | Ok a => k a
  | Raise e => Raise e
  end.

Notation "'let*' x ':=' r 'in' k" := (bind r (fun x => k))
  (at level 10, x name, r at level 100, k at level 200).

(** A list comprehension whose body may raise: the first exception wins. *)
Fixpoint traverse {A B : Type} (f : A -> result B) (l : list A) : result (list B) :=
  match l with
  | [] => Ok []
  | a :: l' => let* b := f a in let* bs := traverse f l' in Ok (b :: bs)
  end.

(** ** numpy *)
Module np.

(** [np.interp(x, [x0, x1], [f0, f1])], case by case as numpy's
    [arr_interp] takes them for two knots: right of the last knot the
    last value, left of the first knot the first value, on a knot its
    value, and the chord in between. *)
Definition interp (x x0 x1 f0 f1 : Q) : Q :=
  if Qgtb x x1 then f1
  else if Qltb x x0 then f0
  else if Qeq_bool x x1 then f1
  else if Qeq_bool x x0 then f0
  else (f1 - f0) / (x1 - x0) * (x - x0) + f0.

(** [np.where(mask, a, 0)] on one cell. *)
Definition where_ (mask : bool) (a b : Q) : Q := if mask then a else b.

(** [np.amax] of a one dimensional array; numpy raises [ValueError] on an
    empty one. *)
Fixpoint amax_from (a : Q) (l : list Q) : Q :=
  match l with
  | [] => a
  | b :: l' => amax_from (Qmax a b) l'
  end.

Definition amax (l : list Q) : result Q :=
  match l with
  | [] => Raise ValueError
  | a :: l' => Ok (amax_from a l')
  end.

(** Element-wise maximum of two arrays of one shape; arrays of different
    lengths do not stack. *)
Fixpoint maximum1 (a b : list Q) : result (list Q) :=
  match a, b with
  | [], [] => Ok []
  | x :: a', y :: b' => let* r := maximum1 a' b' in Ok (Qmax x y :: r)
  | _, _ => Raise ValueError
  end.

Fixpoint maximum2 (a b : list (list Q)) : result (list (list Q)) :=
  match a, b with
  | [], [] => Ok []
  | x :: a', y :: b' =>
      let* r := maximum1 x y in let* rs := maximum2 a' b' in Ok (r :: rs)
  | _, _ => Raise ValueError
  end.

Fixpoint amax_axis0_from (m : list (list Q)) (ms : list (list (list Q)))
    : result (list (list Q)) :=
  match ms with
  | [] => Ok m
  | m' :: ms' => let* r := maximum2 m m' in amax_axis0_from r ms'
  end.

(** [np.amax(matrices, axis=0)] of a list of two dimensional arrays. *)
Definition amax_axis0 (ms : list (list (list Q))) : result (list (list Q)) :=
  match ms with
  | [] => Raise ValueError
  | m :: ms' => amax_axis0_from m ms'
  end.

(** Lexicographic order of the rows [(ws, wd)], as [np.unique(axis=0)]
    sorts them. *)
Definition row_eqb (a b : Q * Q) : bool :=
  Qeq_bool (fst a) (fst b) && Qeq_bool (snd a) (snd b).

Definition row_ltb (a b : Q * Q) : bool :=
  Qltb (fst a) (fst b) || (Qeq_bool (fst a) (fst b) && Qltb (snd a) (snd b)).

Fixpoint insert_row (a : Q * Q) (l : list (Q * Q)) : list (Q * Q) :=
  match l with
  | [] => [a]
  | b :: l' =>
      if row_eqb a b then l
      else if row_ltb a b then a :: l
      else b :: insert_row a l'
  end.

(** [np.unique(rows, axis=0)]: the distinct rows in increasing order. *)
Definition unique_rows (rows : list (Q * Q)) : list (Q * Q) :=
  fold_right insert_row [] rows.

(** [np.all(unique == row, axis=1).argmax()]: the first index whose row
    equals [row], and 0 when none does. *)
Fixpoint first_match (row : Q * Q) (unique : list (Q * Q)) : option nat :=
  match unique with
  | [] => None
  | u :: unique' =>
      if row_eqb u row then Some O
      else option_map S (first_match row unique')
  end.

Definition all_argmax (row : Q * Q) (unique : list (Q * Q)) : nat :=
  match first_match row unique with
  | Some i => i
  | None => O
  end.

(** [a[indices]] on the first axis. *)
Definition take {A : Type} (a : list A) (indices : list nat) : result (list A) :=
  traverse (fun i => match nth_error a i with
                     | Some r => Ok r
                     | None => Raise IndexError
                     end) indices.

(** [np.repeat([series], [n], axis=0).T]: one column per repetition. *)
Definition repeat_T {A : Type} (series : list A) (n : nat) : list (list A) :=
  map (fun v => repeat v n) series.

(** [np.rint]: the nearest integer, and of two that are equally near the
    even one. *)
Definition rint (x : Q) : Z :=
  let f := Qfloor x in
  let r := x - inject_Z f in
  if Qltb r (1 # 2) then f
  else if Qltb (1 # 2) r then (f + 1)%Z
  else if Z.even f then f else (f + 1)%Z.

(** The distance between neighbouring binary16 numbers at [a >= 0]: [ulp]
    while [a] is below [2048 * ulp], and twice as much in each binade
    further up. *)
Fixpoint spacing16 (binades : nat) (ulp a : Q) : Q :=
  match binades with
  | O => ulp
  | S n => if Qltb a (2048 * ulp) then ulp else spacing16 n (2 * ulp) a
  end.

(** [np.float16(x)]: the nearest binary16 number, ties to the even
    significand.  The numbers are [2^-24] apart below [2^-13] and keep 11
    significant bits above, up to 65504.  What rounds beyond 65504 becomes
    an infinity in numpy, which is no number either: [None]. *)
Definition float16 (x : Q) : option Q :=
  let a := Qabs x in
  let ulp := spacing16 30 (1 # 16777216) a in
  let r := inject_Z (rint (a / ulp)) * ulp in
  if Qle_bool r 65504 then Some (if Qltb x 0 then - r else r) else None.

End np.

(** ** Moisture field ([SpatialComfortResult], moisture part) *)
Module Moisture.

Inductive curve_type : Type :=
| linear
| parabolic
| sigmoid (half_sine : Q -> Q)
    (* d |-> 0.5 * (sin (d * pi - pi / 2) + 1), which has no rational model *)
| other (name : string).

(** [SpatialComfortResult._distribute] *)
Definition _distribute (magnitude distance max_distance : Q)
    (curve : curve_type) : result Q :=
  let distance := np.interp distance 0 max_distance 0 1 in
  match curve with
  | linear => Ok ((1 - distance) * magnitude)
  | parabolic => Ok ((- (distance * distance) + 1) * magnitude)
  | sigmoid half_sine => Ok ((1 - half_sine distance) * magnitude)
  | other _ => Raise ValueError
  end.

Definition distance_around_sources_in_calm_wind : Q := 5.
Definition wind_speed_multiplier_for_distances : Q := 10.
Definition angle_width : Q := 12.

(** The two branches on [ws == 0] that build [magnitude_matrix_local], for
    one cell of the distance matrix. *)
Definition magnitude_local (magnitude ws distance : Q) : result Q :=
  if Qeq_bool ws 0 then
    _distribute magnitude distance distance_around_sources_in_calm_wind parabolic
  else
    _distribute magnitude distance (ws * wind_speed_multiplier_for_distances) parabolic.

(** The angle mask, for one cell of [moisture_source_angles]. *)
Definition angle_mask_local (ws wd angle : Q) : bool :=
  let plume_buffer := angle_width / 2 in
  if Qeq_bool ws 0 then true
  else if Qgtb wd (360 - plume_buffer) then
    Qgtb angle (wd - plume_buffer) || Qltb angle (wd - 360 - wd)
  else if Qltb wd (0 + plume_buffer) then
    Qltb angle (wd + plume_buffer) || Qgtb angle (360 + wd - plume_buffer)
  else
    Qltb angle (wd + plume_buffer) && Qgtb angle (wd - plume_buffer).

(** A moisture source with the geometry derived from it:
    [distances] is its entry of [moisture_source_distances] and [angles]
    its entry of [moisture_source_angles], both sensor point by source
    point (they come from [np.linalg.norm] and [np.arctan2] on the sensor
    points, whose own file [points.h5] is left out of the directory
    modelled below). *)
Record moisture_source : Type := {
  pathsafe_id : string;
  magnitude : Q;
  distances : list (list Q);
  angles : list (list Q);
}.

(** [np.where(angle_mask_local, magnitude_matrix_local, 0)] on the row of
    one sensor point. *)
Fixpoint masked_row (mag ws wd : Q) (ds agls : list Q) : result (list Q) :=
  match ds, agls with
  | d :: ds', a :: agls' =>
      let* m := magnitude_local mag ws d in
      let* rest := masked_row mag ws wd ds' agls' in
      Ok (np.where_ (angle_mask_local ws wd a) m 0 :: rest)
  | _, _ => Ok []
  end.

(** One entry of [np.amax(np.where(...), axis=1)]. *)
Definition point_effectiveness (mag ws wd : Q) (ds agls : list Q) : result Q :=
  let* row := masked_row mag ws wd ds agls in np.amax row.

Fixpoint wind_state_row (mag ws wd : Q) (dss aglss : list (list Q))
    : result (list Q) :=
  match dss, aglss with
  | ds :: dss', agls :: aglss' =>
      let* v := point_effectiveness mag ws wd ds agls in
      let* rest := wind_state_row mag ws wd dss' aglss' in
      Ok (v :: rest)
  | _, _ => Ok []
  end.

(** The loop over [wind_speed_direction_unique] for one source. *)
Definition generate_moisture_matrix (src : moisture_source)
    (unique : list (Q * Q)) : result (list (list Q)) :=
  traverse (fun w => wind_state_row (magnitude src) (fst w) (snd w)
                       (distances src) (angles src)) unique.

End Moisture.

(** ** pandas and scipy *)

(** A float that may be NaN: [None] is a float that is no number (NaN
    and, after a cast to binary16, an infinity). *)
Definition cell : Type := option Q.
(** The values of a [pd.DataFrame], row by row (hour by hour). *)
Definition frame : Type := list (list cell).

Module pd.

(** Distance to, and value of, the first valid entry of [l]. *)
Fixpoint next_valid (l : list cell) : option (nat * Q) :=
  match l with
  | [] => None
  | Some x :: _ => Some (O, x)
  | None :: l' => option_map (fun nx => (S (fst nx), snd nx)) (next_valid l')
  end.

(** [Series.interpolate()] with its defaults (linear on positions,
    forward): a NaN between two valid entries takes the value on their
    chord, NaN after the last valid entry repeats it, NaN before the first
    valid entry stays.  [prev] is the last valid value and the number of
    steps since. *)
Fixpoint interpolate_from (prev : option (nat * Q)) (l : list cell) : list cell :=
  match l with
  | [] => []
  | Some x :: l' => Some x :: interpolate_from (Some (1%nat, x)) l'
  | None :: l' =>
      match prev with
      | None => None :: interpolate_from None l'
      | Some (i, a) =>
          match next_valid l' with
          | None => Some a
          | Some (j, b) =>
              Some (a + (b - a) * (inject_Z (Z.of_nat i)
                                   / inject_Z (Z.of_nat (i + j + 1))))
          end :: interpolate_from (Some (S i, a)) l'
      end
  end.

Definition interpolate (l : list cell) : list cell := interpolate_from None l.

(** [Series.ewm(span=span).mean()] with its defaults ([adjust=True],
    [ignore_na=False], [min_periods=0]), as the running pair of the
    weighted mean so far and the weight it carries. *)
Definition ewm_step (alpha : Q) (st : cell * Q) (cur : cell) : cell * Q :=
  match fst st, cur with
  | Some w, Some x =>
      let old_wt := snd st * (1 - alpha) in
      (Some ((old_wt * w + x) / (old_wt + 1)), old_wt + 1)
  | Some w, None => (Some w, snd st * (1 - alpha))
  | None, Some x => (Some x, snd st)
  | None, None => (None, snd st)
  end.

Fixpoint ewm_from (alpha : Q) (st : cell * Q) (l : list cell) : list cell :=
  match l with
  | [] => []
  | cur :: l' =>
      let st' := ewm_step alpha st cur in
      fst st' :: ewm_from alpha st' l'
  end.

Definition ewm_mean (span : Q) (l : list cell) : list cell :=
  ewm_from (2 / (span + 1)) (None, 1) l.

(** Column [p] of a frame, and a frame from its columns. *)
Definition column (df : frame) (p : nat) : list cell :=
  map (fun row => nth p row None) df.

Definition columns (df : frame) (ncols : nat) : list (list cell) :=
  map (column df) (seq 0 ncols).

Definition of_columns (nrows : nat) (cols : list (list cell)) : frame :=
  map (fun h => map (fun c => nth h c None) cols) (seq 0 nrows).

(** A column-wise operation ([axis=0]) on a frame of [ncols] columns. *)
Definition by_columns (f : list cell -> list cell) (ncols : nat) (df : frame) : frame :=
  of_columns (length df) (map f (columns df ncols)).

(** [df.astype(np.float16)]: every cell rounded to binary16, NaN staying
    NaN. *)
Definition cast16 (c : cell) : cell :=
  match c with
  | Some x => np.float16 x
  | None => None
  end.

Definition astype_float16 (df : frame) : frame := map (map cast16) df.

End pd.

Module scipy.

(** [interp1d([x0, x1], [y0, y1])(x)], linear, with the default
    [bounds_error]: a point outside [[x0, x1]] raises [ValueError]. *)
Definition out_of_bounds (x0 x1 x : Q) : bool := Qltb x x0 || Qgtb x x1.

Definition interp1d (x0 x1 y0 y1 x : Q) : Q :=
  (y1 - y0) / (x1 - x0) * (x - x0) + y0.

End scipy.

(** ** Mean radiant temperature ([SpatialComfortResult], radiant part) *)
Module Mrt.

Fixpoint list_min (a : Q) (l : list Q) : Q :=
  match l with [] => a | b :: l' => list_min (Qmin a b) l' end.
Fixpoint list_max (a : Q) (l : list Q) : Q :=
  match l with [] => a | b :: l' => list_max (Qmax a b) l' end.

(** A float division in which [0 / 0] is NaN; the numerators met here
    vanish whenever the denominator does. *)
Definition fdiv (a b : Q) : cell :=
  if Qeq_bool b 0 then None else Some (a / b).

(** One sunlit cell: the irradiance of the point, placed in the range of
    the irradiance of its grid at that hour, mapped onto the range between
    the shaded and the unshaded value. *)
Definition daytime_cell (sh un : Q) (irradiance : list Q) (old_value : Q) : cell :=
  let new_min := Qmin sh un in
  let new_max := Qmax sh un in
  let old_min := list_min old_value irradiance in
  let old_max := list_max old_value irradiance in
  match fdiv (old_value - old_min) (old_max - old_min) with
  | Some r => Some (r * (new_max - new_min) + new_min)
  | None => None
  end.

(** One cell of a night hour: [interp1d([0, 100], [shaded, unshaded])] at
    the sky view of the point. *)
Definition nighttime_cell (sh un sky_view : Q) : cell :=
  Some (scipy.interp1d 0 100 sh un sky_view).

(** Row [h] of [pd.concat([nighttime, daytime]).sort_index()], for series
    that have the hour [h] (the function below refuses series of unequal
    lengths before it builds a row). *)
Definition raw_row (unshaded shaded : list Q) (total_irradiance : list (list Q))
    (sky_view : list Q) (sun_up_bool : list bool) (h : nat) : list cell :=
  let sh := nth h shaded 0 in
  let un := nth h unshaded 0 in
  if nth h sun_up_bool false then
    let irradiance := nth h total_irradiance [] in
    map (daytime_cell sh un irradiance) irradiance
  else
    map (nighttime_cell sh un) sky_view.

Definition raw_matrix (unshaded shaded : list Q) (total_irradiance : list (list Q))
    (sky_view : list Q) (sun_up_bool : list bool) : frame :=
  map (raw_row unshaded shaded total_irradiance sky_view sun_up_bool)
      (seq 0 (length sun_up_bool)).

(** [.interpolate().ewm(span=1.5).mean()] *)
Definition smooth (column : list cell) : list cell :=
  pd.ewm_mean (3 # 2) (pd.interpolate column).

(** [SpatialComfortResult._interpolate_between_unshaded_shaded], for the
    points of one grid.  The shapes are tested where the code meets them:
    [np.stack] wants the two series equally long ([ValueError]), the
    boolean index [y_original[sun_up_bool]] wants one flag per hour of
    the series ([IndexError]), [total_irradiance[sun_up_bool]] one flag
    per row of the irradiance ([ValueError]), [interp1d] every sky view
    inside [[0, 100]] ([ValueError]), and
    [nighttime.columns = total_irradiance.columns] as many irradiance
    columns as sky-view points ([ValueError]). *)
Definition _interpolate_between_unshaded_shaded (unshaded shaded : list Q)
    (total_irradiance : list (list Q)) (sky_view : list Q)
    (sun_up_bool : list bool) : result frame :=
  if negb (length shaded =? length unshaded)%nat then Raise ValueError
  else if negb (length sun_up_bool =? length unshaded)%nat then Raise IndexError
  else if negb (length sun_up_bool =? length total_irradiance)%nat
  then Raise ValueError
  else if existsb (scipy.out_of_bounds 0 100) sky_view then Raise ValueError
  else if negb (forallb (fun row => (length row =? length sky_view)%nat)
                  total_irradiance)
  then Raise ValueError
  else
    Ok (pd.by_columns smooth (length sky_view)
          (raw_matrix unshaded shaded total_irradiance sky_view sun_up_bool)).

End Mrt.

(** ** Evaporative cooling ([helpers.py]) *)
Module helpers.
Section Psychrometrics.

(** [ladybug.psychrometrics.wet_bulb_from_db_rh], a library function. *)
Variable wet_bulb_from_db_rh : Q -> Q -> Q -> Q.

(** [helpers.evaporative_cooling_effect] *)
Definition evaporative_cooling_effect (dry_bulb_temperature relative_humidity
    evaporative_cooling_effectiveness : Q) (atmospheric_pressure : option Q)
    : Q * Q :=
  let atmospheric_pressure :=
    match atmospheric_pressure with
    | None => 101325
    | Some p => p
    end in
  let wet_bulb_temperature :=
    wet_bulb_from_db_rh dry_bulb_temperature relative_humidity atmospheric_pressure in
  let new_dbt :=
    dry_bulb_temperature
    - (dry_bulb_temperature - wet_bulb_temperature) * evaporative_cooling_effectiveness in
  let new_rh :=
    relative_humidity * (1 - evaporative_cooling_effectiveness)
    + evaporative_cooling_effectiveness * 100 in
  if Qgtb new_rh 100 then (wet_bulb_temperature, 100)
  else (new_dbt, new_rh).

End Psychrometrics.

(** [range(0, stop, step)]: a zero step raises [ValueError], a negative
    step gives nothing. *)
Definition range0 (stop : nat) (step : Z) : result (list nat) :=
  if (step =? 0)%Z then Raise ValueError
  else if (step <? 0)%Z then Ok []
  else
    let k := Z.to_nat step in
    Ok (map (fun j => (j * k)%nat) (seq 0 ((stop + k - 1) / k))).

(** [lst[i : j]] for [0 <= i <= j]. *)
Definition slice {A : Type} (lst : list A) (i j : nat) : list A :=
  firstn (j - i) (skipn i lst).

(** [helpers.chunks], with the chunks it yields as a list. *)
Definition chunks {A : Type} (lst : list A) (chunksize : Z) : result (list (list A)) :=
  let* starts := range0 (length lst) chunksize in
  Ok (map (fun i => slice lst i (i + Z.to_nat chunksize)) starts).

(** [helpers.proximity_decay] *)
Definition proximity_decay (value distance_to_value max_distance : Q)
    (decay_method : Moisture.curve_type) : result Q :=
  let distance_to_value := np.interp distance_to_value 0 max_distance 0 1 in
  match decay_method with
  | Moisture.linear => Ok ((1 - distance_to_value) * value)
  | Moisture.parabolic => Ok ((- (distance_to_value * distance_to_value) + 1) * value)
  | Moisture.sigmoid half_sine => Ok ((1 - half_sine distance_to_value) * value)
  | Moisture.other _ => Raise ValueError
  end.

(** [series.diff() < difference_threshold]: the first hour and every hour
    next to a NaN compare false. *)
Fixpoint diff_lt (prev : cell) (series : list cell) (threshold : Q) : list bool :=
  match series with
  | [] => []
  | x :: series' =>
      match prev, x with
      | Some a, Some b => Qltb (b - a) threshold
      | _, _ => false
      end :: diff_lt x series' threshold
  end.

(** The loop that builds [ewm_mask], from the counter [n]. *)
Fixpoint ewm_mask_from (n : nat) (transition_index : list bool)
    (transition_window : Z) : list bool :=
  match transition_index with
  | [] => []
  | i :: rest =>
      let n := if i then O else n in
      (Z.of_nat n <? transition_window)%Z
        :: ewm_mask_from (S n) rest transition_window
  end.

(** [smoothed.where(mask, series)] *)
Fixpoint where_series (smoothed : list cell) (mask : list bool) (series : list cell)
    : list cell :=
  match smoothed, mask, series with
  | s :: smoothed', m :: mask', x :: series' =>
      (if m then s else x) :: where_series smoothed' mask' series'
  | _, _, _ => []
  end.

(** [helpers.decay_rate_smoother]; pandas refuses a span below 1. *)
Definition decay_rate_smoother (series : list cell) (difference_threshold : Q)
    (transition_window : Z) (ewm_span : Q) : result (list cell) :=
  let transition_index := diff_lt None series difference_threshold in
  let ewm_mask := ewm_mask_from O transition_index transition_window in
  if Qltb ewm_span 1 then Raise ValueError
  else
    let ewm_smoothed := pd.ewm_mean ewm_span series in
    Ok (where_series ewm_smoothed ewm_mask series).

(** [int(x)]: truncation towards zero. *)
Definition int_of (x : Q) : Z := Z.quot (Qnum x) (Zpos (Qden x)).

Definition cardinal_directions_4 : list string := ["N"; "E"; "S"; "W"].
Definition cardinal_directions_8 : list string :=
  ["N"; "NE"; "E"; "SE"; "S"; "SW"; "W"; "NW"].
Definition cardinal_directions_16 : list string :=
  ["N"; "NNE"; "NE"; "ENE"; "E"; "ESE"; "SE"; "SSE";
   "S"; "SSW"; "SW"; "WSW"; "W"; "WNW"; "NW"; "NNW"].
Definition cardinal_directions_32 : list string :=
  ["N"; "NbE"; "NNE"; "NEbN"; "NE"; "NEbE"; "ENE"; "EbN";
   "E"; "EbS"; "ESE"; "SEbE"; "SE"; "SEbS"; "SSE"; "SbE";
   "S"; "SbW"; "SSW"; "SWbS"; "SW"; "SWbW"; "WSW"; "WbS";
   "W"; "WbN"; "WNW"; "NWbW"; "NW"; "NWbN"; "NNW"; "NbW"].

(** The dictionary [cardinal_directions] of [cardinality]. *)
Definition cardinal_directions (directions : Z) : option (list string) :=
  if (directions =? 4)%Z then Some cardinal_directions_4
  else if (directions =? 8)%Z then Some cardinal_directions_8
  else if (directions =? 16)%Z then Some cardinal_directions_16
  else if (directions =? 32)%Z then Some cardinal_directions_32
  else None.

(** [helpers.cardinality] *)
Definition cardinality (direction_angle : Q) (directions : Z) : result string :=
  if Qgtb direction_angle 360 || Qltb direction_angle 0 then Raise ValueError
  else
    match cardinal_directions directions with
    | None => Raise ValueError
    | Some arr =>
        let val := int_of (direction_angle / (360 / inject_Z directions) + (1 # 2)) in
        match nth_error arr (Z.to_nat (val mod directions)) with
        | Some name => Ok name
        | None => Raise IndexError
        end
    end.

(** The position of a name in a list of names. *)
Fixpoint index_of (name : string) (names : list string) : option nat :=
  match names with
  | [] => None
  | n :: names' =>
      if String.eqb n name then Some O else option_map S (index_of name names')
  end.

(** [helpers.angle_from_cardinal]: the names are paired with
    [np.arange(0, 360, 11.25)]. *)
Definition angle_from_cardinal (cardinal_direction : string) : result Q :=
  match index_of cardinal_direction cardinal_directions_32 with
  | None => Raise ValueError
  | Some i => Ok (inject_Z (Z.of_nat i) * (45 # 4))
  end.

(** The characters that the pattern [[^.A-Za-z0-9_-]] of [sanitise_string]
    leaves alone. *)
Definition keep_character (c : ascii) : bool :=
  let n := nat_of_ascii c in
  (n =? 46)%nat || (n =? 95)%nat || (n =? 45)%nat
  || ((65 <=? n)%nat && (n <=? 90)%nat)
  || ((97 <=? n)%nat && (n <=? 122)%nat)
  || ((48 <=? n)%nat && (n <=? 57)%nat).

(** [re.sub(keep_characters, "_", string)] *)
Fixpoint re_sub_underscore (s : string) : string :=
  match s with
  | EmptyString => EmptyString
  | String c s' =>
      String (if keep_character c then c else "_"%char) (re_sub_underscore s')
  end.

(** [s.replace("__", "_")]: the occurrences from the left that do not
    overlap. *)
Fixpoint replace_double_underscore (s : string) : string :=
  match s with
  | EmptyString => EmptyString
  | String c s' =>
      match s' with
      | String c' s'' =>
          if Ascii.eqb c "_"%char && Ascii.eqb c' "_"%char
          then String "_"%char (replace_double_underscore s'')
          else String c (replace_double_underscore s')
      | EmptyString => String c EmptyString
      end
  end.

(** The characters that [str.rstrip()] strips, among the first 256. *)
Definition is_space (c : ascii) : bool :=
  let n := nat_of_ascii c in
  ((9 <=? n)%nat && (n <=? 13)%nat) || ((28 <=? n)%nat && (n <=? 32)%nat)
  || (n =? 133)%nat || (n =? 160)%nat.

Fixpoint rstrip (s : string) : string :=
  match s with
  | EmptyString => EmptyString
  | String c s' =>
      match rstrip s' with
      | EmptyString => if is_space c then EmptyString else String c EmptyString
      | r => String c r
      end
  end.

(** [helpers.sanitise_string] *)
Definition sanitise_string (s : string) : string :=
  rstrip (replace_double_underscore (re_sub_underscore s)).

(** One entry of a [pd.DatetimeIndex]. *)
Record timestamp : Type := {
  day_of_year : nat;
  hour : nat;
  instant : Z;
}.

Definition nunique (l : list nat) : nat := length (nodup Nat.eq_dec l).

Fixpoint is_monotonic_increasing (l : list Z) : bool :=
  match l with
  | [] => true
  | a :: l' =>
      match l' with
      | [] => true
      | b :: _ => (a <=? b)%Z && is_monotonic_increasing l'
      end
  end.

(** [helpers.validate_timeseries] on a [pd.Series] that has a datetime
    index (the two [isinstance] checks hold). *)
Definition validate_timeseries (index : list timestamp)
    (is_annual is_hourly is_contiguous : bool) : result unit :=
  if is_annual
     && (negb (nunique (map day_of_year index) =? 365)%nat
         || negb (nunique (map day_of_year index) =? 366)%nat)
  then Raise ValueError
  else if is_hourly && negb (nunique (map hour index) =? 24)%nat
  then Raise ValueError
  else if is_contiguous && negb (is_monotonic_increasing (map instant index))
  then Raise ValueError
  else Ok tt.

Section Collections.

(** [ladybug.psychrometrics.wet_bulb_from_db_rh], a library function. *)
Variable wet_bulb_from_db_rh : Q -> Q -> Q -> Q.

(** [helpers.evaporative_cooling_effect_collection] on the hourly values
    of the dry-bulb temperature, the relative humidity and the station
    pressure of the weather file. *)
Definition evaporative_cooling_effect_collection
    (dry_bulb_temperature relative_humidity atmospheric_station_pressure : list Q)
    (evaporative_cooling_effectiveness : Q) : result (list Q * list Q) :=
  if Qgtb evaporative_cooling_effectiveness 1
     || Qltb evaporative_cooling_effectiveness 0
  then Raise ValueError
  else
    let hours :=
      combine dry_bulb_temperature
        (combine relative_humidity atmospheric_station_pressure) in
    let wbt :=
      map (fun x => wet_bulb_from_db_rh (fst x) (fst (snd x)) (snd (snd x))) hours in
    let dbt :=
      map (fun x => fst x - (fst x - snd x) * evaporative_cooling_effectiveness)
          (combine dry_bulb_temperature wbt) in
    let rh :=
      map (fun r => r * (1 - evaporative_cooling_effectiveness)
                    + evaporative_cooling_effectiveness * 100)
          relative_humidity in
    Ok (dbt, rh).

End Collections.

End helpers.

(** ** Typologies ([external_comfort/typology.py]) *)
Module Typology.

(** What [_sky_visibility] reads of a [Shelter]: the share of the sky it
    occludes ([Shelter.sky_occluded]) and its porosity. *)
Record shelter : Type := {
  sky_occluded : Q;
  porosity : Q;
}.

(** One turn of the loop of [_sky_visibility] on the pair
    [(unsheltered_proportion, sheltered_proportion)]. *)
Definition sky_visibility_step (acc : Q * Q) (s : shelter) : Q * Q :=
  let occ := sky_occluded s in
  (fst acc - occ, snd acc + occ * porosity s).

(** [TypologyResult._sky_visibility] *)
Definition _sky_visibility (shelters : list shelter) : Q :=
  let acc := fold_left sky_visibility_step shelters (1, 0) in
  snd acc + fst acc.

End Typology.

(** ** The simulation directory and the accessors that cache in it *)

Inductive file : Type :=
| Hdf (df : frame)
| Npy (a : list (list Q))
| Json (text : string).

(** The files of the simulation directory that the accessors below read
    and write, by name, and the warnings issued so far. *)
Record world : Type := {
  files : gmap string file;
  warnings_log : list string;
}.

(** A computation that reads and writes the world and may raise. *)
Definition comp (A : Type) : Type := world -> result A * world.

Definition ret {A : Type} (a : A) : comp A := fun w => (Ok a, w).
Definition raise {A : Type} (e : exn) : comp A := fun w => (Raise e, w).
Definition lift {A : Type} (r : result A) : comp A := fun w => (r, w).

Definition bindc {A B : Type} (c : comp A) (k : A -> comp B) : comp B :=
  fun w =>
    match c w with
    | (Ok a, w') => k a w'
    | (Raise e, w') => (Raise e, w')
    end.

Notation "'let!' x ':=' c 'in' k" := (bindc c (fun x => k))
  (at level 10, x name, c at level 100, k at level 200).

Fixpoint traversec {A B : Type} (f : A -> comp B) (l : list A) : comp (list B) :=
  match l with
  | [] => ret []
  | a :: l' => let! b := f a in let! bs := traversec f l' in ret (b :: bs)
  end.

Definition path_exists (path : string) : comp bool :=
  fun w => (Ok (bool_decide (is_Some (files w !! path))), w).

Definition write_file (path : string) (f : file) : comp unit :=
  fun w => (Ok tt, {| files := <[path := f]> (files w); warnings_log := warnings_log w |}).

Definition read_hdf (path : string) : comp frame :=
  fun w =>
    match files w !! path with
    | Some (Hdf df) => (Ok df, w)
    | Some _ => (Raise ValueError, w)
    | None => (Raise FileNotFoundError, w)
    end.

Definition to_hdf (path : string) (df : frame) : comp unit := write_file path (Hdf df).

Definition np_load (path : string) : comp (list (list Q)) :=
  fun w =>
    match files w !! path with
    | Some (Npy a) => (Ok a, w)
    | Some _ => (Raise ValueError, w)
    | None => (Raise FileNotFoundError, w)
    end.

Definition np_save (path : string) (a : list (list Q)) : comp unit :=
  write_file path (Npy a).

Definition warnings_warn (message : string) : comp unit :=
  fun w => (Ok tt, {| files := files w; warnings_log := warnings_log w ++ [message] |}).

(** The number of columns of a frame, [len(df.values.T)]. *)
Definition ncols (df : frame) : nat := length (hd [] df).

(** [pd.DataFrame(data, index=like.index, columns=like.columns)]: the data
    must have the shape of the labels. *)
Definition DataFrame (data : list (list Q)) (like : frame) : result frame :=
  if (length data =? length like)%nat
     && forallb (fun row => (length row =? ncols like)%nat) data
  then Ok (map (map Some) data)
  else Raise ValueError.

(** The same constructor on an array that may hold NaN. *)
Definition DataFrame_cells (data : frame) (like : frame) : result frame :=
  if (length data =? length like)%nat
     && forallb (fun row => (length row =? ncols like)%nat) data
  then Ok data
  else Raise ValueError.

Module Spatial.
Import Moisture.

(** What [SpatialComfortResult] holds in memory: the moisture sources of its
    [SpatialComfort], the hourly series of the weather file, the mean
    radiant temperature of the unshaded and of the shaded typology, and the
    grid data (irradiance hour by point, sky view by point) as the cached
    properties [total_irradiance_matrix] and [sky_view] return them.  The
    two properties read the grid data from [total_irradiance_matrix.h5]
    and [sky_view.h5], or from the raw result files of the simulation and
    then write these two files; the directory modelled below leaves both
    files out. *)
Record SpatialComfortResult : Type := {
  moisture_sources : list moisture_source;
  dry_bulb_temperature : list Q;
  relative_humidity : list Q;
  wind_speed : list Q;
  wind_direction : list Q;
  atmospheric_station_pressure : list Q;
  global_horizontal_radiation : list Q;
  unshaded_mean_radiant_temperature : list Q;
  shaded_mean_radiant_temperature : list Q;
  total_irradiance_matrix : list (list Q);
  sky_view : list Q;
}.

Section Accessors.

(** The JSON decoding inside [MoistureSource.from_json]. *)
Variable parse_moisture_sources : string -> result (list moisture_source).
(** [external_comfort.moisture.evaporative_cooling_effect] on the rows of
    one hour. *)
Variable moisture_evaporative_cooling_effect :
  Q -> Q -> list cell -> Q -> list cell * list cell.
(** [ladybug_comfort.utci.universal_thermal_climate_index] *)
Variable universal_thermal_climate_index : Q -> Q -> Q -> Q -> Q.

(** Modelled from the spec: [MoistureSource.from_json], whose module
    [external_comfort.moisture] is missing.  It reads the JSON sidecar
    file of the simulation directory; opening a file that is absent
    raises [FileNotFoundError]. *)
Definition from_json (path : string) : comp (list moisture_source) :=
  fun w =>
    match files w !! path with
    | None => (Raise FileNotFoundError, w)
    | Some (Json text) => (parse_moisture_sources text, w)
    | Some _ => (Raise JSONDecodeError, w)
    end.

(** [SpatialComfort._load_moisture_sources]: only [FileNotFoundError] is
    caught. *)
Definition _load_moisture_sources : comp (list moisture_source) :=
  fun w =>
    let moisture_sources_path := "moisture_sources.json"%string in
    match from_json moisture_sources_path w with
    | (Ok moisture_sources, w') =>
        if (length moisture_sources =? 0)%nat then (Raise ValueError, w')
        else (Ok moisture_sources, w')
    | (Raise FileNotFoundError, w') =>
        (let! _ := warnings_warn
           "No moisture_sources.json found in simulation directory - advanced moisture-impacted UTCI not possible."
         in ret []) w'
    | (Raise e, w') => (Raise e, w')
    end.

Variable self : SpatialComfortResult.

Definition mean_radiant_temperature_matrix : comp frame :=
  let mrt_path := "mean_radiant_temperature_matrix.h5"%string in
  let! present := path_exists mrt_path in
  if present then read_hdf mrt_path
  else
    let! mrt := lift (Mrt._interpolate_between_unshaded_shaded
                  (unshaded_mean_radiant_temperature self)
                  (shaded_mean_radiant_temperature self)
                  (total_irradiance_matrix self)
                  (sky_view self)
                  (map (fun g => Qgtb g 0) (global_horizontal_radiation self))) in
    let mrt := pd.astype_float16 mrt in
    let! _ := to_hdf mrt_path mrt in
    ret mrt.

Definition wind_speed_direction : list (Q * Q) :=
  combine (wind_speed self) (wind_direction self).

Definition wind_speed_direction_unique : list (Q * Q) :=
  np.unique_rows wind_speed_direction.

Definition wind_speed_direction_indices : list nat :=
  map (fun ws_wd => np.all_argmax ws_wd wind_speed_direction_unique)
      wind_speed_direction.

(** The body of the loop over the moisture sources. *)
Definition moisture_matrix_of (src : moisture_source) : comp (list (list Q)) :=
  let save_path := (pathsafe_id src ++ ".npy")%string in
  let! present := path_exists save_path in
  if present then np_load save_path
  else
    let! moisture_matrix :=
      lift (generate_moisture_matrix src wind_speed_direction_unique) in
    let! _ := np_save save_path moisture_matrix in
    ret moisture_matrix.

Definition moisture_source_matrix_unique : comp (list (list Q)) :=
  let! moisture_source_matrices :=
    traversec moisture_matrix_of (moisture_sources self) in
  lift (np.amax_axis0 moisture_source_matrices).

Definition moisture_matrix : comp frame :=
  let! unique := moisture_source_matrix_unique in
  let! rows := lift (np.take unique wind_speed_direction_indices) in
  let! mrt := mean_radiant_temperature_matrix in
  let! df := lift (DataFrame rows mrt) in
  ret (pd.astype_float16 df).

(** The frame that repeats an hourly series for every column of the mean
    radiant temperature matrix. *)
Definition broadcast (series : list Q) : comp frame :=
  let! mrt := mean_radiant_temperature_matrix in
  lift (DataFrame (np.repeat_T series (ncols mrt)) mrt).

Fixpoint zip4 {A B C D : Type} (a : list A) (b : list B) (c : list C) (d : list D)
    : list (A * B * C * D) :=
  match a, b, c, d with
  | x :: a', y :: b', z :: c', t :: d' => (x, y, z, t) :: zip4 a' b' c' d'
  | _, _, _, _ => []
  end.

Definition spatial_moisture_properties : comp (frame * frame) :=
  let dbt_save_path := "dry_bulb_temperature_matrix.h5"%string in
  let rh_save_path := "relative_humidity_matrix.h5"%string in
  let! dbt_present := path_exists dbt_save_path in
  let! rh_present := path_exists rh_save_path in
  if dbt_present && rh_present then
    let! dbt := read_hdf dbt_save_path in
    let! rh := read_hdf rh_save_path in
    ret (dbt, rh)
  else
    let! dbt_rh :=
      if (length (moisture_sources self) =? 0)%nat then
        let! dbt := broadcast (dry_bulb_temperature self) in
        let! rh := broadcast (relative_humidity self) in
        ret (dbt, rh)
      else
        let! moisture := moisture_matrix in
        let temp :=
          map (fun x : Q * Q * list cell * Q =>
                 let '(dbt, rh, ms, atm) := x in
                 moisture_evaporative_cooling_effect dbt rh ms atm)
              (zip4 (dry_bulb_temperature self) (relative_humidity self)
                    moisture (atmospheric_station_pressure self)) in
        ret (map fst temp, map snd temp) in
    let! _ := to_hdf dbt_save_path (fst dbt_rh) in
    let! _ := to_hdf rh_save_path (snd dbt_rh) in
    ret dbt_rh.

(** The accessor returns what its body returns: [None] where the body
    ends without a [return]. *)
Definition dry_bulb_temperature_matrix : comp (option frame) :=
  let save_path := "dry_bulb_temperature_matrix.h5"%string in
  let! present := path_exists save_path in
  if present then
    let! df := read_hdf save_path in ret (Some df)
  else if (length (moisture_sources self) =? 0)%nat then
    let! dbt := broadcast (dry_bulb_temperature self) in
    let! _ := to_hdf save_path dbt in
    ret None
  else
    let! dbt_rh := spatial_moisture_properties in ret (Some (fst dbt_rh)).

Definition relative_humidity_matrix : comp (option frame) :=
  let save_path := "relative_humidity_matrix.h5"%string in
  let! present := path_exists save_path in
  if present then
    let! df := read_hdf save_path in ret (Some df)
  else if (length (moisture_sources self) =? 0)%nat then
    let! rh := broadcast (relative_humidity self) in
    let! _ := to_hdf save_path rh in
    ret None
  else
    let! dbt_rh := spatial_moisture_properties in ret (Some (snd dbt_rh)).

Definition wind_speed_matrix : comp frame :=
  let save_path := "wind_speed_matrix.h5"%string in
  let! ws := broadcast (wind_speed self) in
  let! _ := to_hdf save_path ws in
  ret ws.

(** [df.values] of what an accessor returned; [None] has no attribute
    [values]. *)
Definition values (df : option frame) : comp frame :=
  match df with
  | Some df => ret df
  | None => raise AttributeError
  end.

(** [v_utci] on the rows of one hour; the four rows must have one
    length, and a NaN input gives NaN. *)
Fixpoint v_utci (dbt mrt ws rh : list cell) : result (list cell) :=
  match dbt, mrt, ws, rh with
  | [], [], [], [] => Ok []
  | a :: dbt', b :: mrt', c :: ws', d :: rh' =>
      let* rest := v_utci dbt' mrt' ws' rh' in
      Ok (match a, b, c, d with
          | Some a, Some b, Some c, Some d =>
              Some (universal_thermal_climate_index a b c d)
          | _, _, _, _ => None
          end :: rest)
  | _, _, _, _ => Raise ValueError
  end.

Definition universal_thermal_climate_index_matrix : comp frame :=
  let save_path := "universal_thermal_climate_index_matrix.h5"%string in
  let! present := path_exists save_path in
  if present then read_hdf save_path
  else
    let! dbt := dry_bulb_temperature_matrix in
    let! dbt := values dbt in
    let! mrt := mean_radiant_temperature_matrix in
    let! ws := wind_speed_matrix in
    let! rh := relative_humidity_matrix in
    let! rh := values rh in
    let! utcis :=
      lift (traverse (fun x : list cell * list cell * list cell * list cell =>
                        let '(dbt, mrt, ws, rh) := x in v_utci dbt mrt ws rh)
                     (zip4 dbt mrt ws rh)) in
    let! utci := lift (DataFrame_cells utcis mrt) in
    let utci := pd.astype_float16 utci in
    let! _ := to_hdf save_path utci in
    ret utci.

End Accessors.
End Spatial.

(** ** The words of the specification *)

(** The angle between two compass bearings of [[0, 360]], the short way
    round. *)
Definition angular_separation (a b : Q) : Q :=
  Qmin (Qabs (a - b)) (360 - Qabs (a - b)).

(** The angular gate read literally: with wind, a point passes exactly when
    its bearing is within 6 degrees of the wind direction, bounds
    included. *)
Definition mask_inclusive (ws wd angle : Q) : Prop :=
  ws == 0 \/ angular_separation angle wd <= 6.

(** The pressure the wet-bulb temperature is computed at. *)
Definition pressure_or_default (atmospheric_pressure : option Q) : Q :=
  match atmospheric_pressure with
  | None => 101325
  | Some p => p
  end.

(** Entry [(h, p)] of a frame. *)
Definition cell_at (df : frame) (h p : nat) : option cell :=
  match nth_error df h with
  | Some row => nth_error row p
  | None => None
  end.

Fixpoint Qpow (q : Q) (n : nat) : Q :=
  match n with
  | O => 1
  | S n' => q * Qpow q n'
  end.

(** The sum of the values, most recent first, the [i]-th weighted by
    [decay ^ (k + i)]. *)
Fixpoint weighted_sum (decay : Q) (k : nat) (recent_first : list Q) : Q :=
  match recent_first with
  | [] => 0
  | x :: older => Qpow decay k * x + weighted_sum decay (S k) older
  end.

(** As many ones as the list has values: the weights alone. *)
Definition ones (l : list Q) : list Q := map (fun _ => 1) l.

(** The hours up to and including [h] of a series, most recent first. *)
Definition hours_until (h : nat) (xs : list Q) : list Q := rev (firstn (S h) xs).

(** Hour [h] of a series is a transition when the value drops by more than
    10 from the hour before. *)
Definition drop_at (xs : list Q) (h : nat) : Prop :=
  exists h' a b,
    h = S h' /\ nth_error xs h' = Some a /\ nth_error xs h = Some b /\ 10 < a - b.

(** The warning of [_load_moisture_sources]. *)
Definition no_moisture_warning : string :=
  "No moisture_sources.json found in simulation directory - advanced moisture-impacted UTCI not possible.".

(** Entry [(i, j)] of a two dimensional array. *)
Definition entry (m : list (list Q)) (i j : nat) : option Q :=
  match nth_error m i with
  | Some row => nth_error row j
  | None => None
  end.

(** The value that the parabolic decay gives a source of magnitude [mag] at
    distance [d] under wind speed [ws]. *)
Definition decayed (mag ws d : Q) : Q :=
  let n := np.interp d 0 (if Qeq_bool ws 0 then 5 else ws * 10) 0 1 in
  (- (n * n) + 1) * mag.

(** One masked cell, from the distance and the bearing of a point of the
    source: the decayed magnitude where the mask passes, zero where it does
    not. *)
Definition masked (mag ws wd : Q) (da : Q * Q) : Q :=
  np.where_ (Moisture.angle_mask_local ws wd (snd da)) (decayed mag ws (fst da)) 0.

(** What one source contributes to sensor point [j] under the wind state
    [(ws, wd)]. *)
Definition contribution (src : Moisture.moisture_source) (ws wd : Q) (j : nat)
    : option Q :=
  match nth_error (Moisture.distances src) j, nth_error (Moisture.angles src) j with
  | Some ds, Some agls =>
      match Moisture.point_effectiveness (Moisture.magnitude src) ws wd ds agls with
      | Ok v => Some v
      | Raise _ => None
      end
  | _, _ => None
  end.

(** The name of the file that caches the field of a source. *)
Definition npy_path (src : Moisture.moisture_source) : string :=
  (Moisture.pathsafe_id src ++ ".npy")%string.

(** A site of two hours and two sensor points without moisture sources,
    and two states of its simulation directory: one without cached
    matrices, one that holds a mean radiant temperature matrix and a wind
    speed matrix from an earlier run. *)
Definition site : Spatial.SpatialComfortResult := {|
  Spatial.moisture_sources := [];
  Spatial.dry_bulb_temperature := [18; 19];
  Spatial.relative_humidity := [60; 55];
  Spatial.wind_speed := [3; 4];
  Spatial.wind_direction := [90; 180];
  Spatial.atmospheric_station_pressure := [101325; 101325];
  Spatial.global_horizontal_radiation := [0; 0];
  Spatial.unshaded_mean_radiant_temperature := [40; 40];
  Spatial.shaded_mean_radiant_temperature := [20; 20];
  Spatial.total_irradiance_matrix := [[0; 0]; [0; 0]];
  Spatial.sky_view := [0; 100];
|}.

(** The same weather with calm air in the first hour, three sensor points
    in a row, and two point sources: a pond at the first sensor point and
    a fountain at the second. *)
Definition pond : Moisture.moisture_source := {|
  Moisture.pathsafe_id := "pond";
  Moisture.magnitude := 1 # 2;
  Moisture.distances := [[0]; [5]; [10]];
  Moisture.angles := [[0]; [270]; [270]];
|}.

Definition fountain : Moisture.moisture_source := {|
  Moisture.pathsafe_id := "fountain";
  Moisture.magnitude := 1 # 4;
  Moisture.distances := [[5]; [0]; [5]];
  Moisture.angles := [[90]; [0]; [270]];
|}.

Definition pond_site : Spatial.SpatialComfortResult := {|
  Spatial.moisture_sources := [pond; fountain];
  Spatial.dry_bulb_temperature := [18; 19];
  Spatial.relative_humidity := [60; 55];
  Spatial.wind_speed := [0; 4];
  Spatial.wind_direction := [0; 270];
  Spatial.atmospheric_station_pressure := [101325; 101325];
  Spatial.global_horizontal_radiation := [0; 0];
  Spatial.unshaded_mean_radiant_temperature := [40; 40];
  Spatial.shaded_mean_radiant_temperature := [20; 20];
  Spatial.total_irradiance_matrix := [[0; 0; 0]; [0; 0; 0]];
  Spatial.sky_view := [0; 50; 100];
|}.

(** One sensor point with a misting nozzle of magnitude 0.3 on it, calm air
    in the first hour. *)
Definition nozzle : Moisture.moisture_source := {|
  Moisture.pathsafe_id := "nozzle";
  Moisture.magnitude := 3 # 10;
  Moisture.distances := [[0]];
  Moisture.angles := [[0]];
|}.

Definition nozzle_site : Spatial.SpatialComfortResult := {|
  Spatial.moisture_sources := [nozzle];
  Spatial.dry_bulb_temperature := [18; 19];
  Spatial.relative_humidity := [60; 55];
  Spatial.wind_speed := [0; 4];
  Spatial.wind_direction := [0; 270];
  Spatial.atmospheric_station_pressure := [101325; 101325];
  Spatial.global_horizontal_radiation := [0; 0];
  Spatial.unshaded_mean_radiant_temperature := [40; 40];
  Spatial.shaded_mean_radiant_temperature := [20; 20];
  Spatial.total_irradiance_matrix := [[0]; [0]];
  Spatial.sky_view := [50];
|}.

Definition fresh_directory : world := {| files := ∅; warnings_log := [] |}.

Definition earlier_wind_speed_matrix : frame :=
  [[Some 9; Some 9]; [Some 9; Some 9]].

Definition earlier_directory : world := {|
  files :=
    <["wind_speed_matrix.h5"%string := Hdf earlier_wind_speed_matrix]>
      (<["mean_radiant_temperature_matrix.h5"%string :=
           Hdf [[Some 20; Some 40]; [Some 20; Some 40]]]> ∅);
  warnings_log := [];
|}.

(** The sum of [f] over a list. *)
Fixpoint Qsum {A : Type} (f : A -> Q) (l : list A) : Q :=
  match l with
  | [] => 0
  | a :: l' => f a + Qsum f l'
  end.

(** Hour [j] of a series is a transition for the threshold [thr] when the
    value has changed by less than [thr] (a negative number: dropped by more
    than its size) since the hour before. *)
Definition transition_at (series : list cell) (thr : Q) (j : nat) : Prop :=
  exists j' a b,
    j = S j' /\ nth_error series j' = Some (Some a) /\
    nth_error series j = Some (Some b) /\ b - a < thr.

(** The same site with the pond alone. *)
Definition pond_only_site : Spatial.SpatialComfortResult := {|
  Spatial.moisture_sources := [pond];
  Spatial.dry_bulb_temperature := [18; 19];
  Spatial.relative_humidity := [60; 55];
  Spatial.wind_speed := [0; 4];
  Spatial.wind_direction := [0; 270];
  Spatial.atmospheric_station_pressure := [101325; 101325];
  Spatial.global_horizontal_radiation := [0; 0];
  Spatial.unshaded_mean_radiant_temperature := [40; 40];
  Spatial.shaded_mean_radiant_temperature := [20; 20];
  Spatial.total_irradiance_matrix := [[0; 0; 0]; [0; 0; 0]];
  Spatial.sky_view := [0; 50; 100];
|}.

(** * Properties *)

(** ** Comparisons *)

Lemma Qltb_lt x y : Qltb x y = true <-> x < y.
Proof.
  unfold Qltb. rewrite negb_true_iff.
  split; intros H.
  - apply Qnot_le_lt. intros Hle. apply Qle_bool_iff in Hle. congruence.
  - destruct (Qle_bool y x) eqn:E; [|reflexivity].
    apply Qle_bool_iff in E. exfalso. apply (Qlt_not_le _ _ H E).
Qed.

Lemma Qltb_ge x y : Qltb x y = false <-> y <= x.
Proof.
  unfold Qltb. rewrite negb_false_iff. apply Qle_bool_iff.
Qed.

Lemma Qeq_bool_false x y : Qeq_bool x y = false <-> ~ x == y.
Proof.
  split; [apply Qeq_bool_neq|].
  intros H. destruct (Qeq_bool x y) eqn:E; [|reflexivity].
  apply Qeq_bool_iff in E. contradiction.
Qed.

Lemma Qgtb_gt x y : Qgtb x y = true <-> y < x.
Proof. apply Qltb_lt. Qed.

Lemma Qgtb_le x y : Qgtb x y = false <-> x <= y.
Proof. apply Qltb_ge. Qed.

Ltac qbool :=
  repeat match goal with
  | H : Qgtb _ _ = true |- _ => apply Qgtb_gt in H
  | H : Qgtb _ _ = false |- _ => apply Qgtb_le in H
  | H : Qltb _ _ = true |- _ => apply Qltb_lt in H
  | H : Qltb _ _ = false |- _ => apply Qltb_ge in H
  | H : Qle_bool _ _ = true |- _ => apply Qle_bool_iff in H
  | H : Qeq_bool _ _ = true |- _ => apply Qeq_bool_iff in H
  | H : Qeq_bool _ _ = false |- _ => apply Qeq_bool_false in H
  end.

Lemma Qmax_cases a b : (b <= a /\ Qmax a b == a) \/ (a <= b /\ Qmax a b == b).
Proof.
  destruct (Qlt_le_dec a b) as [H|H].
  - right. split; [lra|]. apply Q.max_r. lra.
  - left. split; [lra|]. apply Q.max_l. lra.
Qed.

Lemma Qmin_cases a b : (a <= b /\ Qmin a b == a) \/ (b <= a /\ Qmin a b == b).
Proof.
  destruct (Qlt_le_dec b a) as [H|H].
  - right. split; [lra|]. apply Q.min_r. lra.
  - left. split; [lra|]. apply Q.min_l. lra.
Qed.

(** ** Half precision *)
Section HalfPrecision.

Lemma rint_floor (t : Q) :
  np.rint t = Qfloor t \/
  (np.rint t = (Qfloor t + 1)%Z /\ 1 # 2 <= t - inject_Z (Qfloor t)).
Proof.
  unfold np.rint.
  destruct (Qltb (t - inject_Z (Qfloor t)) (1 # 2)) eqn:E1; [left; reflexivity|].
  qbool.
  destruct (Qltb (1 # 2) (t - inject_Z (Qfloor t))) eqn:E2;
    [right; split; [reflexivity|exact E1]|].
  destruct (Z.even (Qfloor t)); [left; reflexivity|right; split; [reflexivity|exact E1]].
Qed.

Lemma rint_near (t : Q) :
  - (1 # 2) <= inject_Z (np.rint t) - t <= 1 # 2.
Proof.
  pose proof (Qfloor_le t) as Hlo. pose proof (Qlt_floor t) as Hhi.
  rewrite inject_Z_plus in Hhi. change (inject_Z 1) with 1 in Hhi.
  unfold np.rint.
  destruct (Qltb (t - inject_Z (Qfloor t)) (1 # 2)) eqn:E1; qbool.
  - split; lra.
  - destruct (Qltb (1 # 2) (t - inject_Z (Qfloor t))) eqn:E2; qbool.
    + rewrite inject_Z_plus. change (inject_Z 1) with 1. split; lra.
    + destruct (Z.even (Qfloor t)).
      * split; lra.
      * rewrite inject_Z_plus. change (inject_Z 1) with 1. split; lra.
Qed.

Lemma rint_ge (t : Q) (k : Z) : inject_Z k <= t -> (k <= np.rint t)%Z.
Proof.
  intros H.
  assert (Hk : (k <= Qfloor t)%Z).
  { rewrite <- (Qfloor_Z k). apply Qfloor_resp_le. exact H. }
  destruct (rint_floor t) as [->|[-> _]]; lia.
Qed.

Lemma rint_le (t : Q) (k : Z) : t <= inject_Z k -> (np.rint t <= k)%Z.
Proof.
  intros H.
  assert (Hk : (Qfloor t <= k)%Z).
  { rewrite <- (Qfloor_Z k). apply Qfloor_resp_le. exact H. }
  destruct (rint_floor t) as [->|[-> Hr]]; [exact Hk|].
  destruct (Z.eq_dec (Qfloor t) k) as [E|E]; [|lia].
  exfalso. rewrite E in Hr. lra.
Qed.

(** The spacing of the binary16 numbers at a number of [[0, 1]]. *)
Lemma spacing16_unit (a : Q) :
  0 <= a <= 1 ->
  let u := np.spacing16 30 (1 # 16777216) a in
  (0 < u /\ a < 2048 * u /\ 2048 * u <= 1) \/ (a == 1 /\ u == 1 # 1024).
Proof.
  intros [H0 H1]. cbn [np.spacing16].
  repeat match goal with
  | |- context [Qltb a ?thr] =>
      destruct (Qltb a thr) eqn:?E; qbool;
      [left; split; [reflexivity|split; [assumption|vm_compute; discriminate]]|]
  end.
  destruct (Qltb a (2048 * _)) eqn:E14; qbool.
  - right. split; [lra|reflexivity].
  - exfalso. lra.
Qed.


Lemma float16_unit (x : Q) :
  0 <= x <= 1 ->
  exists v,
    np.float16 x = Some v /\ 0 <= v <= 1 /\ x - (1 # 4096) <= v <= x + (1 # 4096).
Proof.
  intros [H0 H1]. unfold np.float16.
  assert (Hneg : Qltb x 0 = false) by (apply Qltb_ge; exact H0).
  rewrite Hneg.
  assert (Ha : Qabs x == x) by (apply Qabs_pos; exact H0).
  set (a := Qabs x) in *.
  assert (Ha01 : 0 <= a <= 1) by lra.
  pose proof (spacing16_unit a Ha01) as Hu. cbv zeta in Hu.
  set (u := np.spacing16 30 (1 # 16777216) a) in *.
  pose proof (rint_near (a / u)) as Hnear.
  destruct Hu as [[Hpos [Hlt Hle]]|[Ea Eu]].
  - assert (Ht : a / u * u == a) by (field; lra).
    set (t := a / u) in *.
    assert (Hm0 : (0 <= np.rint t)%Z).
    { apply rint_ge. change (inject_Z 0) with 0. nra. }
    assert (Hm1 : (np.rint t <= 2048)%Z).
    { apply rint_le. change (inject_Z 2048) with 2048. nra. }
    rewrite Zle_Qle in Hm0. rewrite Zle_Qle in Hm1.
    change (inject_Z 0) with 0 in Hm0. change (inject_Z 2048) with 2048 in Hm1.
    set (m := inject_Z (np.rint t)) in *.
    assert (Hv : 0 <= m * u <= 1) by (split; nra).
    assert (Hb : Qle_bool (m * u) 65504 = true) by (apply Qle_bool_iff; lra).
    rewrite Hb. exists (m * u). split; [reflexivity|]. split; [exact Hv|].
    split; nra.
  - assert (Ht : a / u == 1024).
    { rewrite Ea, Eu. reflexivity. }
    assert (Hm : np.rint (a / u) = 1024%Z).
    { apply Z.le_antisymm.
      - apply rint_le. change (inject_Z 1024) with 1024. lra.
      - apply rint_ge. change (inject_Z 1024) with 1024. lra. }
    rewrite Hm.
    assert (Hv : inject_Z 1024 * u == 1) by (rewrite Eu; reflexivity).
    assert (Hb : Qle_bool (inject_Z 1024 * u) 65504 = true)
      by (apply Qle_bool_iff; lra).
    rewrite Hb. exists (inject_Z 1024 * u). split; [reflexivity|].
    split; split; lra.
Qed.

End HalfPrecision.

(** ** Radial decay *)
Section RadialDecay.
Import Moisture.

(** For a positive radius, [np.interp] clamps the distance to the unit
    interval. *)
Lemma interp_unit_cases (d r : Q) :
  0 < r ->
  let n := np.interp d 0 r 0 1 in
  (d <= 0 /\ n == 0) \/ (r <= d /\ n == 1) \/ (0 < d < r /\ n * r == d).
Proof.
  intros Hr n. subst n. unfold np.interp.
  destruct (Qgtb d r) eqn:E1; qbool.
  { right; left. split; lra. }
  destruct (Qltb d 0) eqn:E2; qbool.
  { left. split; lra. }
  destruct (Qeq_bool d r) eqn:E3; qbool.
  { right; left. split; lra. }
  destruct (Qeq_bool d 0) eqn:E4; qbool.
  { left. split; lra. }
  right; right. split.
  - split.
    + destruct (Qlt_le_dec 0 d); [assumption|]. exfalso. apply E4. lra.
    + destruct (Qlt_le_dec d r); [assumption|]. exfalso. apply E3. lra.
  - field. lra.
Qed.

Lemma interp_unit_range (d r : Q) :
  0 < r -> 0 <= np.interp d 0 r 0 1 <= 1.
Proof.
  intros Hr. destruct (interp_unit_cases d r Hr) as [[? ?]|[[? ?]|[[? ?] ?]]];
    try lra.
  split; nra.
Qed.

Lemma interp_unit_mono (d1 d2 r : Q) :
  0 < r -> d1 <= d2 -> np.interp d1 0 r 0 1 <= np.interp d2 0 r 0 1.
Proof.
  intros Hr Hd.
  pose proof (interp_unit_range d1 r Hr).
  pose proof (interp_unit_range d2 r Hr).
  destruct (interp_unit_cases d1 r Hr) as [[? ?]|[[? ?]|[[? ?] ?]]];
  destruct (interp_unit_cases d2 r Hr) as [[? ?]|[[? ?]|[[? ?] ?]]];
    try lra; nra.
Qed.

(** The radius that [magnitude_local] hands to [_distribute]. *)
Lemma magnitude_local_distribute (magnitude ws d : Q) :
  magnitude_local magnitude ws d
  = _distribute magnitude d (if Qeq_bool ws 0 then 5 else ws * 10) parabolic.
Proof.
  unfold magnitude_local. destruct (Qeq_bool ws 0); reflexivity.
Qed.

Lemma magnitude_local_value (magnitude ws d : Q) :
  magnitude_local magnitude ws d
  = Ok (let n := np.interp d 0 (if Qeq_bool ws 0 then 5 else ws * 10) 0 1 in
        (- (n * n) + 1) * magnitude).
Proof. rewrite magnitude_local_distribute. reflexivity. Qed.

Lemma radius_positive (ws : Q) :
  0 <= ws -> 0 < (if Qeq_bool ws 0 then 5 else ws * 10).
Proof.
  intros H. destruct (Qeq_bool ws 0) eqn:E; qbool; [lra|].
  destruct (Qlt_le_dec 0 ws); [lra|]. exfalso. apply E. lra.
Qed.

(** C5. For a fixed wind state (speed [ws >= 0]) and a non-negative
    magnitude, the parabolic radial decay always yields a value, the value
    does not increase with the distance over distances [>= 0], it is the
    full magnitude at distance 0, and it is 0 at every distance at or
    beyond the radius of influence, which is 5 when the wind speed is 0
    and [ws * 10] otherwise. *)
Theorem radial_decay_monotone (magnitude ws : Q) :
  0 <= ws -> 0 <= magnitude ->
  (forall d, exists v, magnitude_local magnitude ws d = Ok v) /\
  (forall d1 d2 v1 v2,
      0 <= d1 -> d1 <= d2 ->
      magnitude_local magnitude ws d1 = Ok v1 ->
      magnitude_local magnitude ws d2 = Ok v2 ->
      v2 <= v1) /\
  (forall v, magnitude_local magnitude ws 0 = Ok v -> v == magnitude) /\
  (ws == 0 ->
   forall d v, 5 <= d -> magnitude_local magnitude ws d = Ok v -> v == 0) /\
  (~ ws == 0 ->
   forall d v, ws * 10 <= d -> magnitude_local magnitude ws d = Ok v -> v == 0).
Proof.
  intros Hws Hm.
  pose proof (radius_positive ws Hws) as Hr.
  repeat split.
  - intros d. rewrite magnitude_local_value. eauto.
  - intros d1 d2 v1 v2 H0 H12 E1 E2.
    rewrite magnitude_local_value in E1, E2.
    injection E1 as <-. injection E2 as <-. cbv zeta.
    set (r := if Qeq_bool ws 0 then 5 else ws * 10) in *.
    pose proof (interp_unit_range d1 r Hr).
    pose proof (interp_unit_range d2 r Hr).
    pose proof (interp_unit_mono d1 d2 r Hr H12).
    set (n1 := np.interp d1 0 r 0 1) in *.
    set (n2 := np.interp d2 0 r 0 1) in *.
    assert (Hsq : 0 <= n2 * n2 - n1 * n1) by nra.
    pose proof (Qmult_le_0_compat _ _ Hsq Hm).
    lra.
  - intros v E. rewrite magnitude_local_value in E. injection E as <-. cbv zeta.
    set (r := if Qeq_bool ws 0 then 5 else ws * 10) in *.
    destruct (interp_unit_cases 0 r Hr) as [[? Hn]|[[? ?]|[[? ?] ?]]]; try lra.
    rewrite Hn. ring.
  - intros Hz d v Hd E. rewrite magnitude_local_value in E. injection E as <-.
    cbv zeta. apply Qeq_bool_iff in Hz. rewrite Hz in *.
    destruct (interp_unit_cases d 5 Hr) as [[? ?]|[[? Hn]|[[? ?] ?]]]; try lra.
    rewrite Hn. ring.
  - intros Hz d v Hd E. rewrite magnitude_local_value in E. injection E as <-.
    cbv zeta. apply Qeq_bool_false in Hz. rewrite Hz in *.
    destruct (interp_unit_cases d (ws * 10) Hr) as [[? ?]|[[? Hn]|[[? ?] ?]]];
      try lra.
    rewrite Hn. ring.
Qed.

Lemma radial_decay_monotone_witness :
  0 <= 0 /\ 0 <= (1 # 2) /\
  (forall d1 d2 v1 v2,
      0 <= d1 -> d1 <= d2 ->
      magnitude_local (1 # 2) 0 d1 = Ok v1 ->
      magnitude_local (1 # 2) 0 d2 = Ok v2 ->
      v2 <= v1).
Proof.
  assert (H0 : 0 <= 0) by lra.
  assert (H1 : 0 <= 1 # 2) by lra.
  split; [exact H0|]. split; [exact H1|].
  exact (proj1 (proj2 (radial_decay_monotone (1 # 2) 0 H0 H1))).
Defined.

End RadialDecay.

(** ** Angular gating *)
Section AngularGating.
Import Moisture.

Lemma angular_separation_cases (a b : Q) :
  0 <= a <= 360 -> 0 <= b <= 360 ->
  let s := angular_separation a b in
  (b <= a /\ a - b <= 180 /\ s == a - b) \/
  (b <= a /\ 180 <= a - b /\ s == 360 - (a - b)) \/
  (a <= b /\ b - a <= 180 /\ s == b - a) \/
  (a <= b /\ 180 <= b - a /\ s == 360 - (b - a)).
Proof.
  intros Ha Hb s. subst s. unfold angular_separation.
  apply (Qabs_case (a - b)); intros Hs.
  - destruct (Qmin_cases (a - b) (360 - (a - b))) as [[? E]|[? E]].
    + left. repeat split; lra.
    + right; left. repeat split; lra.
  - destruct (Qmin_cases (- (a - b)) (360 - - (a - b))) as [[? E]|[? E]].
    + right; right; left. repeat split; lra.
    + right; right; right. repeat split; lra.
Qed.

(** At wind direction 90 a bearing of 96, exactly 6 degrees off, is within
    the inclusive plume, and the mask rejects it. *)
Lemma angle_mask_boundary_rejected :
  mask_inclusive 1 90 96 /\ angle_mask_local 1 90 96 = false.
Proof.
  split; [|reflexivity].
  right. unfold angular_separation. vm_compute. discriminate.
Qed.

(** With wind from 358 degrees a bearing of 2 degrees is 4 degrees away
    across north, and the mask rejects it: the second comparison of the
    branch for directions above 354 is against [wd - 360 - wd], that is
    -360, which no bearing is below. *)
Lemma north_wrap_missed :
  angular_separation 2 358 < 6 /\ angle_mask_local 1 358 2 = false.
Proof.
  split; [|reflexivity].
  unfold angular_separation. vm_compute. reflexivity.
Qed.

(** C4, amended.  Without wind every point passes.  With wind from a
    direction of at most 354 degrees, a point passes exactly when its
    bearing is strictly less than 6 degrees from the wind direction, the
    short way round across north (a bearing at exactly 6 degrees does not
    pass).  With wind from any direction, a point whose bearing is the
    wind direction passes and a point whose bearing is 180 degrees from it
    does not. *)
Theorem angle_mask_plume (ws wd angle : Q) :
  0 <= wd <= 360 -> 0 <= angle < 360 ->
  (ws == 0 -> angle_mask_local ws wd angle = true) /\
  (~ ws == 0 -> wd <= 354 ->
   (angle_mask_local ws wd angle = true <-> angular_separation angle wd < 6)) /\
  (~ ws == 0 -> angle == wd -> angle_mask_local ws wd angle = true) /\
  (~ ws == 0 -> angular_separation angle wd == 180 ->
   angle_mask_local ws wd angle = false).
Proof.
  intros Hwd Ha.
  assert (Ha' : 0 <= angle <= 360) by lra.
  pose proof (angular_separation_cases angle wd Ha' Hwd) as Hsep.
  cbv zeta in Hsep.
  set (s := angular_separation angle wd) in *.
  unfold angle_mask_local, angle_width. cbv zeta.
  assert (Epb : 12 / 2 == 6) by reflexivity.
  set (pb := 12 / 2) in *. clearbody pb.
  split; [|split; [|split]].
  - intros Hz. apply Qeq_bool_iff in Hz. rewrite Hz. reflexivity.
  - intros H H354. split.
    { intros Hmask. apply Qeq_bool_false in H. rewrite H in Hmask.
    destruct (Qgtb wd (360 - pb)) eqn:E1; qbool; [lra|].
    destruct (Qltb wd (0 + pb)) eqn:E2; qbool.
    + apply orb_true_iff in Hmask. destruct Hmask as [Hm|Hm]; qbool;
        destruct Hsep as [[? [? ->]]|[[? [? ->]]|[[? [? ->]]|[? [? ->]]]]]; lra.
    + apply andb_true_iff in Hmask. destruct Hmask as [Hm1 Hm2]; qbool.
      destruct Hsep as [[? [? ->]]|[[? [? ->]]|[[? [? ->]]|[? [? ->]]]]]; lra. }
    intros Hs. apply Qeq_bool_false in H. rewrite H.
    destruct (Qgtb wd (360 - pb)) eqn:E1; qbool; [lra|].
    destruct (Qltb wd (0 + pb)) eqn:E2; qbool.
    + apply orb_true_iff.
      destruct (Qlt_le_dec angle (wd + pb)) as [Hlt|Hge].
      * left. apply Qltb_lt. exact Hlt.
      * right. apply Qgtb_gt.
        destruct Hsep as [[? [? E]]|[[? [? E]]|[[? [? E]]|[? [? E]]]]]; lra.
    + apply andb_true_iff. split; [apply Qltb_lt|apply Qgtb_gt];
        destruct Hsep as [[? [? E]]|[[? [? E]]|[[? [? E]]|[? [? E]]]]]; lra.
  - intros Hnz Heq. apply Qeq_bool_false in Hnz. rewrite Hnz.
    destruct (Qgtb wd (360 - pb)) eqn:E1; qbool.
    + apply orb_true_iff. left. apply Qgtb_gt. lra.
    + destruct (Qltb wd (0 + pb)) eqn:E2; qbool.
      * apply orb_true_iff. left. apply Qltb_lt. lra.
      * apply andb_true_iff. split; [apply Qltb_lt|apply Qgtb_gt]; lra.
  - intros Hnz Hs. apply Qeq_bool_false in Hnz. rewrite Hnz.
    destruct (Qgtb wd (360 - pb)) eqn:E1; qbool.
    + apply orb_false_iff. split; [apply Qgtb_le|apply Qltb_ge];
        destruct Hsep as [[? [? E]]|[[? [? E]]|[[? [? E]]|[? [? E]]]]]; lra.
    + destruct (Qltb wd (0 + pb)) eqn:E2; qbool.
      * apply orb_false_iff. split; [apply Qltb_ge|apply Qgtb_le];
          destruct Hsep as [[? [? E]]|[[? [? E]]|[[? [? E]]|[? [? E]]]]]; lra.
      * apply andb_false_iff.
        destruct Hsep as [[? [? E]]|[[? [? E]]|[[? [? E]]|[? [? E]]]]].
        -- left. apply Qltb_ge. lra.
        -- left. apply Qltb_ge. lra.
        -- right. apply Qgtb_le. lra.
        -- right. apply Qgtb_le. lra.
Qed.

Lemma angle_mask_plume_witness :
  (0 <= 2 <= 360) /\ (0 <= 357 < 360) /\
  (angle_mask_local 3 2 357 = true <-> angular_separation 357 2 < 6).
Proof.
  assert (Hwd : 0 <= 2 <= 360) by lra.
  assert (Ha : 0 <= 357 < 360) by lra.
  split; [exact Hwd|]. split; [exact Ha|].
  apply (angle_mask_plume 3 2 357 Hwd Ha).
  - vm_compute. discriminate.
  - lra.
Defined.

End AngularGating.

(** ** Evaporative cooling *)
Section EvaporativeCooling.
Import helpers.

Variable wet_bulb_from_db_rh : Q -> Q -> Q -> Q.

(** C3, amended.  With WBT the wet-bulb temperature of the inputs (at
    101325 Pa when no pressure is given), the function returns
    [DBT - e * (DBT - WBT)] and [RH * (1 - e) + 100 * e] unless that
    humidity exceeds 100, and then it returns WBT and 100.  At [e = 1] it
    returns WBT and 100.  At [e = 0] it returns the inputs when
    [RH <= 100], and WBT and 100 when [RH > 100]. *)
Theorem evaporative_cooling_effect_cases (dbt rh e : Q) (p : option Q) :
  let wbt := wet_bulb_from_db_rh dbt rh (pressure_or_default p) in
  let out := evaporative_cooling_effect wet_bulb_from_db_rh dbt rh e p in
  (rh * (1 - e) + 100 * e <= 100 ->
   fst out == dbt - e * (dbt - wbt) /\ snd out == rh * (1 - e) + 100 * e) /\
  (100 < rh * (1 - e) + 100 * e -> fst out == wbt /\ snd out == 100) /\
  (e == 1 -> fst out == wbt /\ snd out == 100) /\
  (e == 0 -> rh <= 100 -> fst out == dbt /\ snd out == rh) /\
  (e == 0 -> 100 < rh -> fst out == wbt /\ snd out == 100).
Proof.
  intros wbt out. subst out. unfold evaporative_cooling_effect.
  fold (pressure_or_default p). fold wbt.
  destruct (Qgtb (rh * (1 - e) + e * 100) 100) eqn:E; qbool; cbn [fst snd];
    repeat split; intros; try lra; try nra.
Qed.

End EvaporativeCooling.

(** At effectiveness 0 a relative humidity of 105 is not returned
    unchanged, whatever the wet-bulb temperature: the humidity comes back
    as 100. *)
Lemma evaporative_cooling_zero_changes_humidity :
  ~ (forall (wet_bulb : Q -> Q -> Q -> Q) (dbt rh : Q) (p : option Q),
        fst (helpers.evaporative_cooling_effect wet_bulb dbt rh 0 p) == dbt /\
        snd (helpers.evaporative_cooling_effect wet_bulb dbt rh 0 p) == rh).
Proof.
  intros H.
  destruct (H (fun _ _ _ => 15) 20 105 None) as [_ Hrh].
  vm_compute in Hrh. discriminate.
Qed.

(** ** Frames *)
Section Frames.

Lemma nth_error_map_seq {A : Type} (f : nat -> A) (n i : nat) :
  (i < n)%nat -> nth_error (map f (seq 0 n)) i = Some (f i).
Proof.
  intros Hi. rewrite nth_error_map, nth_error_seq.
  destruct (Nat.ltb_spec i n); [reflexivity|lia].
Qed.

Lemma cell_at_by_columns (f : list cell -> list cell) (n : nat) (df : frame)
    (h p : nat) :
  (h < length df)%nat -> (p < n)%nat ->
  cell_at (pd.by_columns f n df) h p = Some (nth h (f (pd.column df p)) None).
Proof.
  intros Hh Hp. unfold cell_at, pd.by_columns, pd.of_columns.
  rewrite nth_error_map_seq by exact Hh.
  unfold pd.columns. rewrite !map_map.
  rewrite nth_error_map_seq by exact Hp. reflexivity.
Qed.

Lemma cell_at_astype (df : frame) (h p : nat) (c : cell) :
  cell_at (pd.astype_float16 df) h p = Some c ->
  exists c0, cell_at df h p = Some c0 /\ c = pd.cast16 c0.
Proof.
  unfold cell_at, pd.astype_float16. rewrite nth_error_map.
  destruct (nth_error df h) as [row|]; [|discriminate].
  cbn [option_map]. rewrite nth_error_map.
  destruct (nth_error row p) as [c0|]; [|discriminate].
  cbn [option_map]. intros H. injection H as <-. exists c0. split; reflexivity.
Qed.

Lemma cell_at_column (df : frame) (h p : nat) (c : cell) :
  cell_at df h p = Some c -> nth_error (pd.column df p) h = Some c.
Proof.
  unfold cell_at, pd.column, frame, cell in *. rewrite nth_error_map.
  destruct (nth_error df h) as [row|]; [|discriminate].
  intros H. cbn. f_equal. apply nth_error_nth. exact H.
Qed.

End Frames.

(** ** Night-time interpolation *)
Section NightTime.
Import Mrt.

Variables (unshaded shaded : list Q) (total_irradiance : list (list Q)).
Variables (sky_view : list Q) (sun_up_bool : list bool).

Local Abbreviation raw :=
  (raw_matrix unshaded shaded total_irradiance sky_view sun_up_bool).

Lemma raw_matrix_length : length raw = length sun_up_bool.
Proof. unfold raw_matrix. rewrite length_map, length_seq. reflexivity. Qed.

Lemma raw_matrix_night_cell (h p : nat) (sv : Q) :
  (h < length sun_up_bool)%nat ->
  nth h sun_up_bool false = false ->
  nth_error sky_view p = Some sv ->
  cell_at raw h p
  = Some (nighttime_cell (nth h shaded 0) (nth h unshaded 0) sv).
Proof.
  intros Hh Hdown Hsv. unfold cell_at, raw_matrix.
  rewrite nth_error_map_seq by exact Hh.
  unfold raw_row. rewrite Hdown.
  rewrite nth_error_map, Hsv. reflexivity.
Qed.

(** What a returned matrix tells: the shapes of the inputs agree, every
    sky view is inside [[0, 100]], and the matrix is the smoothed raw
    matrix. *)
Lemma interpolate_result (out : frame) :
  _interpolate_between_unshaded_shaded unshaded shaded total_irradiance
    sky_view sun_up_bool = Ok out ->
  length shaded = length unshaded /\
  length sun_up_bool = length unshaded /\
  length sun_up_bool = length total_irradiance /\
  existsb (scipy.out_of_bounds 0 100) sky_view = false /\
  forallb (fun row => (length row =? length sky_view)%nat) total_irradiance = true /\
  out = pd.by_columns smooth (length sky_view) raw.
Proof.
  unfold _interpolate_between_unshaded_shaded.
  destruct (length shaded =? length unshaded)%nat eqn:E1; [|discriminate].
  destruct (length sun_up_bool =? length unshaded)%nat eqn:E2; [|discriminate].
  destruct (length sun_up_bool =? length total_irradiance)%nat eqn:E3;
    [|discriminate].
  destruct (existsb (scipy.out_of_bounds 0 100) sky_view) eqn:E4; [discriminate|].
  destruct (forallb _ total_irradiance) eqn:E5; [|discriminate].
  cbn [negb]. intros H. injection H as <-.
  apply Nat.eqb_eq in E1, E2, E3. repeat split; assumption.
Qed.

Lemma sky_view_in_bounds (p : nat) (sv : Q) :
  existsb (scipy.out_of_bounds 0 100) sky_view = false ->
  nth_error sky_view p = Some sv -> 0 <= sv <= 100.
Proof.
  intros Hb Hsv.
  assert (Hin : In sv sky_view) by (eapply nth_error_In; exact Hsv).
  destruct (scipy.out_of_bounds 0 100 sv) eqn:E.
  - assert (existsb (scipy.out_of_bounds 0 100) sky_view = true)
      by (apply existsb_exists; eauto).
    congruence.
  - unfold scipy.out_of_bounds in E. apply orb_false_iff in E.
    destruct E as [E1 E2]. qbool. lra.
Qed.

(** C1, amended.  When the function returns, it returns the smoothed
    columns of the raw matrix; and for every sun-down hour [h] and grid
    point [p], the raw value at [(h, p)] is the linear blend of the
    shaded and the unshaded value of the hour at the sky view of the
    point (the shaded value at 0, the unshaded value at 100), between the
    smaller and the larger of the two. *)
Theorem night_value_is_blend (h p : nat) (sv : Q) (out : frame) :
  _interpolate_between_unshaded_shaded unshaded shaded total_irradiance
    sky_view sun_up_bool = Ok out ->
  (h < length sun_up_bool)%nat ->
  nth h sun_up_bool false = false ->
  nth_error sky_view p = Some sv ->
  let sh := nth h shaded 0 in
  let un := nth h unshaded 0 in
  out = pd.by_columns smooth (length sky_view) raw /\
  exists v,
    cell_at raw h p = Some (Some v) /\
    v == sh + (un - sh) * (sv / 100) /\
    (sv == 0 -> v == sh) /\
    (sv == 100 -> v == un) /\
    Qmin sh un <= v <= Qmax sh un.
Proof.
  intros Hout Hh Hdown Hsv sh un.
  destruct (interpolate_result out Hout) as [_ [_ [_ [Hb [_ ->]]]]].
  split; [reflexivity|].
  exists (scipy.interp1d 0 100 sh un sv).
  split; [apply raw_matrix_night_cell; assumption|].
  pose proof (sky_view_in_bounds p sv Hb Hsv) as Hrange.
  assert (Hv : scipy.interp1d 0 100 sh un sv == sh + (un - sh) * (sv / 100)).
  { unfold scipy.interp1d. field. }
  split; [exact Hv|].
  assert (Hq : sv / 100 * 100 == sv) by (field).
  set (t := sv / 100) in *.
  split; [|split].
  - intros Hz. rewrite Hv. assert (t == 0) by lra. nra.
  - intros Hz. rewrite Hv. assert (t == 1) by lra. nra.
  - rewrite Hv.
    assert (0 <= t <= 1) by lra.
    destruct (Qmin_cases sh un) as [[? ->]|[? ->]];
    destruct (Qmax_cases sh un) as [[? ->]|[? ->]]; split; nra.
Qed.

End NightTime.

Lemma night_value_is_blend_witness :
  exists v,
    cell_at (Mrt.raw_matrix [40; 40] [20; 20] [[0; 0]; [0; 0]] [0; 50]
               [false; false]) 1 1 = Some (Some v) /\
    Qmin 20 40 <= v <= Qmax 20 40.
Proof.
  assert (Hout : Mrt._interpolate_between_unshaded_shaded [40; 40] [20; 20]
                   [[0; 0]; [0; 0]] [0; 50] [false; false]
                 = Ok (pd.by_columns Mrt.smooth 2
                         (Mrt.raw_matrix [40; 40] [20; 20] [[0; 0]; [0; 0]]
                            [0; 50] [false; false]))) by reflexivity.
  assert (Hh : (1 < length [false; false])%nat) by (simpl; lia).
  assert (Hdown : nth 1 [false; false] false = false) by reflexivity.
  assert (Hsv : nth_error [0; 50] 1 = Some 50) by reflexivity.
  destruct (night_value_is_blend [40; 40] [20; 20] [[0; 0]; [0; 0]] [0; 50]
              [false; false] 1 1 50 _ Hout Hh Hdown Hsv)
    as [_ [v [Hcell [_ [_ [_ Hrange]]]]]].
  exists v. split; [exact Hcell|exact Hrange].
Defined.

(** Two night hours at one point: the shaded and the unshaded value are
    both 40 in the first hour and both 20 in the second.  The value
    returned for the second hour is above 20. *)
Lemma night_value_outside_bounds :
  match Mrt._interpolate_between_unshaded_shaded [40; 20] [40; 20] [[0]; [0]]
          [50] [false; false] with
  | Ok out =>
      match cell_at out 1 0 with
      | Some (Some v) => Qmax 20 20 < v
      | _ => False
      end
  | Raise _ => False
  end.
Proof. vm_compute. reflexivity. Qed.

(** ** Smoothing *)
Section Smoothing.

Lemma interpolate_from_valid (prev : option (nat * Q)) (xs : list Q) :
  pd.interpolate_from prev (map Some xs) = map Some xs.
Proof.
  revert prev. induction xs as [|x xs IH]; intros prev; [reflexivity|].
  cbn. rewrite IH. reflexivity.
Qed.

Lemma weighted_sum_shift (decay : Q) (k : nat) (l : list Q) :
  weighted_sum decay (S k) l == decay * weighted_sum decay k l.
Proof.
  revert k. induction l as [|x l IH]; intros k; cbn [weighted_sum].
  - ring.
  - rewrite (IH (S k)). cbn [Qpow]. ring.
Qed.

Lemma weighted_sum_cons (decay x : Q) (l : list Q) :
  weighted_sum decay 0 (x :: l) == x + decay * weighted_sum decay 0 l.
Proof.
  cbn [weighted_sum Qpow]. rewrite weighted_sum_shift. ring.
Qed.

Variable alpha : Q.
Hypothesis alpha_le_1 : alpha <= 1.

(** From a state that carries the weighted mean [w] of the hours in
    [past] and their total weight [wt], the running mean at a later hour
    is the weighted mean of all hours so far. *)
Lemma ewm_from_weighted (xs past : list Q) (w wt : Q) (h : nat) :
  wt == weighted_sum (1 - alpha) 0 (ones past) ->
  w * wt == weighted_sum (1 - alpha) 0 past ->
  0 < wt ->
  (h < length xs)%nat ->
  exists y,
    nth_error (pd.ewm_from alpha (Some w, wt) (map Some xs)) h = Some (Some y) /\
    0 < weighted_sum (1 - alpha) 0 (ones (hours_until h xs ++ past)) /\
    y * weighted_sum (1 - alpha) 0 (ones (hours_until h xs ++ past))
    == weighted_sum (1 - alpha) 0 (hours_until h xs ++ past).
Proof.
  revert past w wt h. induction xs as [|x xs IH]; intros past w wt h Hwt Hw Hpos Hh.
  { cbn in Hh. lia. }
  cbn [map pd.ewm_from pd.ewm_step fst snd].
  set (old_wt := wt * (1 - alpha)).
  assert (Hold : 0 <= old_wt) by (unfold old_wt; nra).
  assert (Hne : ~ old_wt + 1 == 0) by lra.
  set (y := (old_wt * w + x) / (old_wt + 1)).
  assert (Hy : y * (old_wt + 1) == old_wt * w + x) by (unfold y; field; exact Hne).
  assert (H1 : old_wt + 1 == weighted_sum (1 - alpha) 0 (ones (x :: past))).
  { unfold ones. cbn [map]. rewrite weighted_sum_cons.
    fold (ones past). rewrite <- Hwt. unfold old_wt. ring. }
  assert (H2 : y * (old_wt + 1) == weighted_sum (1 - alpha) 0 (x :: past)).
  { rewrite weighted_sum_cons, <- Hw, Hy. unfold old_wt. ring. }
  destruct h as [|h].
  - exists y. split; [reflexivity|].
    unfold hours_until. cbn [firstn rev app].
    rewrite <- H1. split; [lra|exact H2].
  - cbn [nth_error].
    assert (Hh' : (h < length xs)%nat) by (cbn in Hh; lia).
    assert (Hpos' : 0 < old_wt + 1) by lra.
    destruct (IH (x :: past) y (old_wt + 1) h H1 H2 Hpos' Hh')
      as [y' [Hn [Hp He]]].
    exists y'. split; [exact Hn|].
    assert (Hrec : hours_until (S h) (x :: xs) ++ past
                   = hours_until h xs ++ x :: past).
    { unfold hours_until. cbn [firstn rev].
      rewrite <- app_assoc. reflexivity. }
    rewrite Hrec. split; [exact Hp|exact He].
Qed.

(** On a series without NaN the exponentially weighted mean at hour [h]
    is the mean of the hours up to [h], an hour [i] hours back weighted
    by [(1 - alpha) ^ i]. *)
Lemma ewm_from_start (xs : list Q) (h : nat) :
  (h < length xs)%nat ->
  exists y,
    nth_error (pd.ewm_from alpha (None, 1) (map Some xs)) h = Some (Some y) /\
    0 < weighted_sum (1 - alpha) 0 (ones (hours_until h xs)) /\
    y * weighted_sum (1 - alpha) 0 (ones (hours_until h xs))
    == weighted_sum (1 - alpha) 0 (hours_until h xs).
Proof.
  destruct xs as [|x xs]; intros Hh; [cbn in Hh; lia|].
  cbn [map pd.ewm_from pd.ewm_step fst snd].
  destruct h as [|h].
  - exists x. split; [reflexivity|].
    unfold hours_until. change (firstn 1 (x :: xs)) with [x].
    unfold ones. cbn [rev app map weighted_sum Qpow].
    split; [lra|ring].
  - cbn [nth_error].
    assert (Hh' : (h < length xs)%nat) by (cbn in Hh; lia).
    destruct (ewm_from_weighted xs [x] x 1 h) as [y [Hn [Hp He]]];
      [unfold ones; cbn [map weighted_sum Qpow]; ring
      |cbn [weighted_sum Qpow]; ring|lra|exact Hh'|].
    exists y. split; [exact Hn|].
    assert (Hrec : hours_until (S h) (x :: xs) = hours_until h xs ++ [x]).
    { unfold hours_until. reflexivity. }
    rewrite Hrec. split; [exact Hp|exact He].
Qed.

End Smoothing.

Lemma Qpow_decay (d d' : Q) (k : nat) : d == d' -> Qpow d k == Qpow d' k.
Proof.
  intros E. induction k as [|k IH]; cbn [Qpow]; [reflexivity|].
  rewrite IH, E. reflexivity.
Qed.

Lemma weighted_sum_decay (d d' : Q) (k : nat) (l : list Q) :
  d == d' -> weighted_sum d k l == weighted_sum d' k l.
Proof.
  intros E. revert k. induction l as [|x l IH]; intros k; cbn [weighted_sum];
    [reflexivity|].
  rewrite (IH (S k)), (Qpow_decay d d' k E). reflexivity.
Qed.

Section SmoothedMatrix.
Import Mrt.

Variables (unshaded shaded : list Q) (total_irradiance : list (list Q)).
Variables (sky_view : list Q) (sun_up_bool : list bool).

Local Abbreviation raw :=
  (raw_matrix unshaded shaded total_irradiance sky_view sun_up_bool).

(** C2, amended.  The function smooths every column of the raw matrix
    with an exponentially weighted mean of span 1.5 and, for a point [p]
    whose raw series [xs] has no NaN, returns at every hour [h] the mean
    of the raw values of the hours up to [h], the value [i] hours back
    weighted by [(1/5) ^ i]: no threshold selects the hours, and no
    window bounds the hours averaged. *)
Theorem smoothing_is_weighted_mean (out : frame) (p h : nat) (xs : list Q) :
  _interpolate_between_unshaded_shaded unshaded shaded total_irradiance
    sky_view sun_up_bool = Ok out ->
  (p < length sky_view)%nat ->
  pd.column raw p = map Some xs ->
  (h < length xs)%nat ->
  exists y,
    cell_at out h p = Some (Some y) /\
    0 < weighted_sum (1 # 5) 0 (ones (hours_until h xs)) /\
    y * weighted_sum (1 # 5) 0 (ones (hours_until h xs))
    == weighted_sum (1 # 5) 0 (hours_until h xs).
Proof.
  intros Hout Hp Hcol Hh.
  destruct (interpolate_result _ _ _ _ _ out Hout) as [_ [_ [_ [_ [_ ->]]]]].
  assert (Hlen : length raw = length xs).
  { rewrite <- (length_map Some xs), <- Hcol. unfold pd.column.
    rewrite length_map. reflexivity. }
  rewrite cell_at_by_columns by (rewrite ?Hlen; assumption).
  rewrite Hcol. unfold smooth, pd.interpolate, pd.ewm_mean.
  rewrite interpolate_from_valid.
  set (alpha := 2 / ((3 # 2) + 1)).
  assert (Ha : alpha <= 1) by (vm_compute; discriminate).
  assert (Hd : 1 - alpha == 1 # 5) by reflexivity.
  destruct (ewm_from_start alpha Ha xs h Hh) as [y [Hn [Hpos He]]].
  exists y. split.
  - f_equal. apply nth_error_nth. exact Hn.
  - rewrite <- !(weighted_sum_decay _ _ _ _ Hd). split; assumption.
Qed.

End SmoothedMatrix.

Lemma smoothing_is_weighted_mean_witness :
  exists y,
    cell_at (pd.by_columns Mrt.smooth 1
               (Mrt.raw_matrix [40; 20] [40; 20] [[0]; [0]] [50] [false; false]))
            1 0 = Some (Some y) /\
    y * ((1 # 5) * 1 + 1) == (1 # 5) * 40 + 20.
Proof.
  pose (xs := [scipy.interp1d 0 100 40 40 50; scipy.interp1d 0 100 20 20 50]).
  assert (Hout : Mrt._interpolate_between_unshaded_shaded [40; 20] [40; 20]
                   [[0]; [0]] [50] [false; false]
                 = Ok (pd.by_columns Mrt.smooth 1
                         (Mrt.raw_matrix [40; 20] [40; 20] [[0]; [0]] [50]
                            [false; false]))) by reflexivity.
  assert (Hp : (0 < length [50])%nat) by (simpl; lia).
  assert (Hcol : pd.column (Mrt.raw_matrix [40; 20] [40; 20] [[0]; [0]] [50]
                              [false; false]) 0 = map Some xs) by reflexivity.
  assert (Hh : (1 < length xs)%nat) by (simpl; lia).
  destruct (smoothing_is_weighted_mean [40; 20] [40; 20] [[0]; [0]] [50]
              [false; false] _ 0 1 xs Hout Hp Hcol Hh) as [y [Hcell [_ He]]].
  exists y. split; [exact Hcell|].
  unfold hours_until, ones, xs in He.
  cbn [firstn rev app map weighted_sum Qpow] in He.
  unfold scipy.interp1d in He.
  assert (E : (1 # 5) * 1 + 1 == 1 * 1 + ((1 # 5) * 1 * 1 + 0)) by ring.
  rewrite E, He. vm_compute. reflexivity.
Defined.

(** One point through six night hours: the shaded and the unshaded value
    are both 0 for five hours and both 10 in the sixth.  The raw series
    never drops, and the value returned for the sixth hour is not the raw
    value. *)
Lemma rise_is_smoothed :
  exists (xs : list Q) (out : frame) (x y : Q),
    pd.column (Mrt.raw_matrix [0; 0; 0; 0; 0; 10] [0; 0; 0; 0; 0; 10]
                 [[0]; [0]; [0]; [0]; [0]; [0]] [50]
                 [false; false; false; false; false; false]) 0 = map Some xs /\
    (forall h, ~ drop_at xs h) /\
    Mrt._interpolate_between_unshaded_shaded [0; 0; 0; 0; 0; 10]
      [0; 0; 0; 0; 0; 10] [[0]; [0]; [0]; [0]; [0]; [0]] [50]
      [false; false; false; false; false; false] = Ok out /\
    nth_error xs 5 = Some x /\
    cell_at out 5 0 = Some (Some y) /\
    ~ y == x.
Proof.
  exists (map (fun v => scipy.interp1d 0 100 v v 50) [0; 0; 0; 0; 0; 10]).
  eexists. eexists. eexists.
  split; [reflexivity|].
  split.
  { intros h [h' [a [b [-> [Ha [Hb Hlt]]]]]].
    do 5 (destruct h' as [|h']; [cbn in Ha, Hb; injection Ha as <-;
                                 injection Hb as <-; vm_compute in Hlt;
                                 discriminate|]).
    destruct h' as [|h']; cbn in Hb; discriminate. }
  split; [reflexivity|].
  split; [reflexivity|].
  split; [reflexivity|].
  vm_compute. discriminate.
Qed.

(** ** The simulation directory *)
Section Loading.
Import Moisture Spatial.

Variable parse_moisture_sources : string -> result (list moisture_source).

(** C9.  When the simulation directory has no [moisture_sources.json],
    loading the moisture sources raises nothing: it returns the empty list
    of sources and leaves the files as they are, and one warning has been
    issued. *)
Theorem load_moisture_sources_absent (w : world) :
  files w !! "moisture_sources.json"%string = None ->
  _load_moisture_sources parse_moisture_sources w
  = (Ok [], {| files := files w;
               warnings_log := warnings_log w ++ [no_moisture_warning] |}).
Proof.
  intros Habsent. unfold _load_moisture_sources, from_json.
  cbv zeta. rewrite Habsent. reflexivity.
Qed.

End Loading.

Lemma load_moisture_sources_absent_witness :
  Spatial._load_moisture_sources (fun _ => Raise JSONDecodeError)
    {| files := ∅; warnings_log := [] |}
  = (Ok [], {| files := ∅; warnings_log := [no_moisture_warning] |}).
Proof.
  apply (load_moisture_sources_absent (fun _ => Raise JSONDecodeError)
           {| files := ∅; warnings_log := [] |}).
  apply lookup_empty.
Defined.

(** ** Cached matrices *)
Section Caching.
Import Moisture Spatial.

Variable moisture_evaporative_cooling_effect :
  Q -> Q -> list cell -> Q -> list cell * list cell.
Variable universal_thermal_climate_index : Q -> Q -> Q -> Q -> Q.
Variable self : SpatialComfortResult.

Lemma path_exists_present (path : string) (f : file) (w : world) :
  files w !! path = Some f -> path_exists path w = (Ok true, w).
Proof.
  intros H. unfold path_exists. rewrite bool_decide_eq_true_2; [reflexivity|].
  rewrite H. eauto.
Qed.

Lemma path_exists_absent (path : string) (w : world) :
  files w !! path = None -> path_exists path w = (Ok false, w).
Proof.
  intros H. unfold path_exists. rewrite bool_decide_eq_false_2; [reflexivity|].
  rewrite H. intros [? ?]. discriminate.
Qed.

Lemma read_hdf_present (path : string) (df : frame) (w : world) :
  files w !! path = Some (Hdf df) -> read_hdf path w = (Ok df, w).
Proof. intros H. unfold read_hdf. rewrite H. reflexivity. Qed.

(** The accessors that look for their file first: a matrix found in the
    simulation directory is returned as it is, and nothing is written. *)
Lemma mean_radiant_temperature_matrix_cached (df : frame) (w : world) :
  files w !! "mean_radiant_temperature_matrix.h5"%string = Some (Hdf df) ->
  mean_radiant_temperature_matrix self w = (Ok df, w).
Proof.
  intros H. unfold mean_radiant_temperature_matrix, bindc. cbv zeta.
  rewrite (path_exists_present _ _ _ H). apply read_hdf_present, H.
Qed.

Lemma dry_bulb_temperature_matrix_cached (df : frame) (w : world) :
  files w !! "dry_bulb_temperature_matrix.h5"%string = Some (Hdf df) ->
  dry_bulb_temperature_matrix moisture_evaporative_cooling_effect self w
  = (Ok (Some df), w).
Proof.
  intros H. unfold dry_bulb_temperature_matrix, bindc. cbv zeta.
  rewrite (path_exists_present _ _ _ H), (read_hdf_present _ _ _ H).
  reflexivity.
Qed.

Lemma relative_humidity_matrix_cached (df : frame) (w : world) :
  files w !! "relative_humidity_matrix.h5"%string = Some (Hdf df) ->
  relative_humidity_matrix moisture_evaporative_cooling_effect self w
  = (Ok (Some df), w).
Proof.
  intros H. unfold relative_humidity_matrix, bindc. cbv zeta.
  rewrite (path_exists_present _ _ _ H), (read_hdf_present _ _ _ H).
  reflexivity.
Qed.

Lemma universal_thermal_climate_index_matrix_cached (df : frame) (w : world) :
  files w !! "universal_thermal_climate_index_matrix.h5"%string = Some (Hdf df) ->
  universal_thermal_climate_index_matrix moisture_evaporative_cooling_effect
    universal_thermal_climate_index self w
  = (Ok df, w).
Proof.
  intros H. unfold universal_thermal_climate_index_matrix, bindc. cbv zeta.
  rewrite (path_exists_present _ _ _ H). apply read_hdf_present, H.
Qed.

(** The wind speed accessor never reads its file: whatever the directory
    holds under that name, the matrix returned is the wind speed series
    repeated for the columns of the mean radiant temperature matrix, and
    the file is written anew. *)
Lemma wind_speed_matrix_recomputed (ws : frame) (w w' : world) :
  wind_speed_matrix self w = (Ok ws, w') ->
  exists mrt w1,
    mean_radiant_temperature_matrix self w = (Ok mrt, w1) /\
    ws = map (map Some) (np.repeat_T (wind_speed self) (ncols mrt)) /\
    files w' !! "wind_speed_matrix.h5"%string = Some (Hdf ws).
Proof.
  unfold wind_speed_matrix, broadcast, bindc, lift, to_hdf, write_file, ret.
  cbv zeta.
  destruct (mean_radiant_temperature_matrix self w) as [[mrt|e] w1];
    [|discriminate].
  unfold DataFrame.
  destruct (_ && _); [|discriminate].
  intros H. injection H as <- <-.
  exists mrt, w1. split; [reflexivity|]. split; [reflexivity|].
  cbn [files]. apply lookup_insert_eq.
Qed.

(** Without moisture sources and without a cached file, the accessors of
    the dry-bulb temperature and of the relative humidity return [None]
    whenever they return. *)
Lemma dry_bulb_temperature_matrix_no_sources (r : option frame) (w w' : world) :
  moisture_sources self = [] ->
  files w !! "dry_bulb_temperature_matrix.h5"%string = None ->
  dry_bulb_temperature_matrix moisture_evaporative_cooling_effect self w
  = (Ok r, w') ->
  r = None.
Proof.
  intros Hsrc Habsent. unfold dry_bulb_temperature_matrix, bindc. cbv zeta.
  rewrite (path_exists_absent _ _ Habsent), Hsrc. cbn [length Nat.eqb].
  destruct (broadcast self (dry_bulb_temperature self) w) as [[dbt|e] w1];
    [|discriminate].
  unfold to_hdf, write_file, ret. intros H. injection H as <- _. reflexivity.
Qed.

Lemma relative_humidity_matrix_no_sources (r : option frame) (w w' : world) :
  moisture_sources self = [] ->
  files w !! "relative_humidity_matrix.h5"%string = None ->
  relative_humidity_matrix moisture_evaporative_cooling_effect self w
  = (Ok r, w') ->
  r = None.
Proof.
  intros Hsrc Habsent. unfold relative_humidity_matrix, bindc. cbv zeta.
  rewrite (path_exists_absent _ _ Habsent), Hsrc. cbn [length Nat.eqb].
  destruct (broadcast self (relative_humidity self) w) as [[rh|e] w1];
    [|discriminate].
  unfold to_hdf, write_file, ret. intros H. injection H as <- _. reflexivity.
Qed.

End Caching.

(** C7, at a directory that holds a wind speed matrix from an earlier run:
    the accessor does not return the matrix of the file.  It returns the
    wind speed series of the weather file repeated per point and
    overwrites the file with it. *)
Theorem wind_speed_matrix_ignores_cache :
  files earlier_directory !! "wind_speed_matrix.h5"%string
  = Some (Hdf earlier_wind_speed_matrix) /\
  fst (Spatial.wind_speed_matrix site earlier_directory)
  = Ok [[Some 3; Some 3]; [Some 4; Some 4]] /\
  fst (Spatial.wind_speed_matrix site earlier_directory)
  <> Ok earlier_wind_speed_matrix /\
  files (snd (Spatial.wind_speed_matrix site earlier_directory))
    !! "wind_speed_matrix.h5"%string
  = Some (Hdf [[Some 3; Some 3]; [Some 4; Some 4]]).
Proof.
  split; [vm_compute; reflexivity|].
  split; [vm_compute; reflexivity|].
  split; [vm_compute; discriminate|].
  vm_compute. reflexivity.
Qed.

(** C8, at a site without moisture sources and a directory without cached
    matrices: the accessors of the dry-bulb temperature and of the relative
    humidity write the weather series repeated per point to their files
    and return [None], not the matrix; the matrix of the universal thermal
    climate index, which reads [values] of what they return, raises. *)
Theorem no_moisture_accessors_return_none
    (moisture_evaporative_cooling_effect :
       Q -> Q -> list cell -> Q -> list cell * list cell)
    (universal_thermal_climate_index : Q -> Q -> Q -> Q -> Q) :
  let dbt := Spatial.dry_bulb_temperature_matrix
               moisture_evaporative_cooling_effect site fresh_directory in
  let rh := Spatial.relative_humidity_matrix
              moisture_evaporative_cooling_effect site fresh_directory in
  fst dbt = Ok None /\
  files (snd dbt) !! "dry_bulb_temperature_matrix.h5"%string
  = Some (Hdf [[Some 18; Some 18]; [Some 19; Some 19]]) /\
  fst rh = Ok None /\
  files (snd rh) !! "relative_humidity_matrix.h5"%string
  = Some (Hdf [[Some 60; Some 60]; [Some 55; Some 55]]) /\
  fst (Spatial.universal_thermal_climate_index_matrix
         moisture_evaporative_cooling_effect universal_thermal_climate_index
         site fresh_directory)
  = Raise AttributeError.
Proof.
  repeat split; vm_compute; reflexivity.
Qed.

(** ** Moisture field *)
Section MoistureField.
Import Moisture.

Lemma Qmax_either (a b : Q) : Qmax a b = a \/ Qmax a b = b.
Proof.
  unfold Qmax, GenericMinMax.gmax. destruct (a ?= b); auto.
Qed.

Lemma amax_from_spec (l : list Q) (a : Q) :
  In (np.amax_from a l) (a :: l) /\
  (forall u, In u (a :: l) -> u <= np.amax_from a l).
Proof.
  revert a. induction l as [|b l IH]; intros a; cbn [np.amax_from].
  - split; [left; reflexivity|]. intros u [<-|[]]. lra.
  - destruct (IH (Qmax a b)) as [Hin Hub]. split.
    + destruct Hin as [Hin|Hin]; [|right; right; exact Hin].
      destruct (Qmax_either a b) as [E|E].
      * left. congruence.
      * right; left. congruence.
    + intros u [Hu|[Hu|Hu]].
      * subst u. apply Qle_trans with (Qmax a b); [apply Q.le_max_l|].
        apply Hub. left. reflexivity.
      * subst u. apply Qle_trans with (Qmax a b); [apply Q.le_max_r|].
        apply Hub. left. reflexivity.
      * apply Hub. right. exact Hu.
Qed.

Lemma amax_spec (l : list Q) (v : Q) :
  np.amax l = Ok v -> In v l /\ (forall u, In u l -> u <= v).
Proof.
  destruct l as [|a l]; [discriminate|]. cbn [np.amax].
  intros H. injection H as <-. apply amax_from_spec.
Qed.

Lemma magnitude_local_decayed (mag ws d : Q) :
  magnitude_local mag ws d = Ok (decayed mag ws d).
Proof. apply magnitude_local_value. Qed.

Lemma masked_row_map (mag ws wd : Q) (ds agls : list Q) :
  masked_row mag ws wd ds agls = Ok (map (masked mag ws wd) (combine ds agls)).
Proof.
  revert agls. induction ds as [|d ds IH]; intros [|a agls]; try reflexivity.
  cbn [masked_row combine map]. rewrite magnitude_local_decayed.
  cbn [bind]. rewrite IH. reflexivity.
Qed.

Lemma point_effectiveness_spec (mag ws wd : Q) (ds agls : list Q) (v : Q) :
  point_effectiveness mag ws wd ds agls = Ok v ->
  In v (map (masked mag ws wd) (combine ds agls)) /\
  (forall u, In u (map (masked mag ws wd) (combine ds agls)) -> u <= v).
Proof.
  unfold point_effectiveness. rewrite masked_row_map. cbn [bind].
  apply amax_spec.
Qed.

(** The normalised distance lies in the unit interval, whatever the
    radius. *)
Lemma interp_unit_range_any (d r : Q) : 0 <= np.interp d 0 r 0 1 <= 1.
Proof.
  unfold np.interp.
  destruct (Qgtb d r) eqn:E1; qbool; [lra|].
  destruct (Qltb d 0) eqn:E2; qbool; [lra|].
  destruct (Qeq_bool d r) eqn:E3; qbool; [lra|].
  destruct (Qeq_bool d 0) eqn:E4; qbool; [lra|].
  assert (H0 : 0 < d) by (destruct (Qlt_le_dec 0 d); [assumption|exfalso; apply E4; lra]).
  assert (Hr : d < r) by (destruct (Qlt_le_dec d r); [assumption|exfalso; apply E3; lra]).
  assert (Hq : (1 - 0) / (r - 0) * (d - 0) + 0 == d / r) by (field; lra).
  rewrite Hq. split.
  - apply Qle_shift_div_l; lra.
  - apply Qle_shift_div_r; lra.
Qed.

Lemma decayed_range (mag ws d : Q) :
  0 <= mag -> 0 <= decayed mag ws d <= mag.
Proof.
  intros Hm. unfold decayed. cbv zeta.
  pose proof (interp_unit_range_any d (if Qeq_bool ws 0 then 5 else ws * 10)) as Hn.
  set (n := np.interp _ _ _ _ _) in *.
  assert (0 <= n * n <= 1) by nra.
  split; nra.
Qed.

Lemma masked_range (mag ws wd : Q) (da : Q * Q) :
  0 <= mag -> 0 <= masked mag ws wd da <= mag.
Proof.
  intros Hm. unfold masked, np.where_.
  destruct (angle_mask_local ws wd (snd da)); [apply decayed_range; exact Hm|lra].
Qed.

Lemma point_effectiveness_range (mag ws wd : Q) (ds agls : list Q) (v : Q) :
  0 <= mag ->
  point_effectiveness mag ws wd ds agls = Ok v -> 0 <= v <= mag.
Proof.
  intros Hm H. destruct (point_effectiveness_spec _ _ _ _ _ _ H) as [Hin _].
  apply in_map_iff in Hin. destruct Hin as [da [<- _]].
  apply masked_range. exact Hm.
Qed.

End MoistureField.

Section FieldOfSources.
Import Moisture.

Lemma maximum1_entry (a b r : list Q) (j : nat) (v : Q) :
  np.maximum1 a b = Ok r ->
  nth_error r j = Some v ->
  exists x y, nth_error a j = Some x /\ nth_error b j = Some y /\ v = Qmax x y.
Proof.
  revert b r j. induction a as [|x a IH]; intros [|y b] r j H Hj;
    cbn [np.maximum1] in H; try discriminate.
  - injection H as <-. destruct j; discriminate.
  - destruct (np.maximum1 a b) as [r'|e] eqn:E; [|discriminate].
    cbn [bind] in H. injection H as <-.
    destruct j as [|j]; cbn [nth_error] in *.
    + injection Hj as <-. eauto.
    + eapply IH; eauto.
Qed.

Lemma maximum2_entry (a b r : list (list Q)) (i j : nat) (v : Q) :
  np.maximum2 a b = Ok r ->
  entry r i j = Some v ->
  exists x y, entry a i j = Some x /\ entry b i j = Some y /\ v = Qmax x y.
Proof.
  revert b r i. induction a as [|x a IH]; intros [|y b] r i H Hv;
    cbn [np.maximum2] in H; try discriminate.
  - injection H as <-. unfold entry in Hv. destruct i; discriminate.
  - destruct (np.maximum1 x y) as [r1|e] eqn:E1; [|discriminate].
    cbn [bind] in H.
    destruct (np.maximum2 a b) as [r2|e] eqn:E2; [|discriminate].
    cbn [bind] in H. injection H as <-.
    destruct i as [|i]; unfold entry in *; cbn [nth_error] in *.
    + eapply maximum1_entry; eauto.
    + eapply IH; eauto.
Qed.

Lemma amax_axis0_from_entry (ms : list (list (list Q))) (m r : list (list Q))
    (i j : nat) (v : Q) :
  np.amax_axis0_from m ms = Ok r ->
  entry r i j = Some v ->
  (forall m', In m' (m :: ms) -> exists u, entry m' i j = Some u /\ u <= v) /\
  (exists m', In m' (m :: ms) /\ entry m' i j = Some v).
Proof.
  revert m. induction ms as [|m1 ms IH]; intros m H Hv; cbn [np.amax_axis0_from] in H.
  - injection H as <-. split.
    + intros m' [<-|[]]. exists v. split; [exact Hv|lra].
    + exists m. split; [left; reflexivity|exact Hv].
  - destruct (np.maximum2 m m1) as [r1|e] eqn:E; [|discriminate].
    cbn [bind] in H. destruct (IH r1 H Hv) as [Hub Hat].
    assert (Hr1 : forall u, entry r1 i j = Some u ->
              exists x y, entry m i j = Some x /\ entry m1 i j = Some y /\
                          u = Qmax x y)
      by (intros u Hu; eapply maximum2_entry; eauto).
    split.
    + intros m' [<-|[<-|Hin]].
      * destruct (Hub r1 (or_introl eq_refl)) as [u [Hu Hle]].
        destruct (Hr1 u Hu) as [x [y [Hx [Hy ->]]]].
        exists x. split; [exact Hx|].
        apply Qle_trans with (Qmax x y); [apply Q.le_max_l|exact Hle].
      * destruct (Hub r1 (or_introl eq_refl)) as [u [Hu Hle]].
        destruct (Hr1 u Hu) as [x [y [Hx [Hy ->]]]].
        exists y. split; [exact Hy|].
        apply Qle_trans with (Qmax x y); [apply Q.le_max_r|exact Hle].
      * apply Hub. right. exact Hin.
    + destruct Hat as [m' [[<-|Hin] Hm']].
      * destruct (Hr1 v Hm') as [x [y [Hx [Hy Hmax]]]].
        destruct (Qmax_either x y) as [E'|E'].
        -- exists m. split; [left; reflexivity|]. congruence.
        -- exists m1. split; [right; left; reflexivity|]. congruence.
      * exists m'. split; [right; right; exact Hin|exact Hm'].
Qed.

(** [np.amax(matrices, axis=0)] is the cell-wise maximum: every matrix has
    the cell, none exceeds the result, and one attains it. *)
Lemma amax_axis0_entry (ms : list (list (list Q))) (r : list (list Q))
    (i j : nat) (v : Q) :
  np.amax_axis0 ms = Ok r ->
  entry r i j = Some v ->
  (forall m, In m ms -> exists u, entry m i j = Some u /\ u <= v) /\
  (exists m, In m ms /\ entry m i j = Some v).
Proof.
  destruct ms as [|m ms]; [discriminate|]. apply amax_axis0_from_entry.
Qed.

Lemma traverse_nth_error {A B : Type} (f : A -> result B) (l : list A)
    (r : list B) (i : nat) (y : B) :
  traverse f l = Ok r ->
  nth_error r i = Some y ->
  exists x, nth_error l i = Some x /\ f x = Ok y.
Proof.
  revert r i. induction l as [|a l IH]; intros r i H Hi; cbn [traverse] in H.
  - injection H as <-. destruct i; discriminate.
  - destruct (f a) as [b|e] eqn:E; [|discriminate]. cbn [bind] in H.
    destruct (traverse f l) as [bs|e] eqn:E'; [|discriminate].
    cbn [bind] in H. injection H as <-.
    destruct i as [|i]; cbn [nth_error] in *.
    + injection Hi as <-. eauto.
    + eapply IH; eauto.
Qed.

Lemma wind_state_row_nth_error (mag ws wd : Q) (dss aglss : list (list Q))
    (row : list Q) (j : nat) (v : Q) :
  wind_state_row mag ws wd dss aglss = Ok row ->
  nth_error row j = Some v ->
  exists ds agls,
    nth_error dss j = Some ds /\ nth_error aglss j = Some agls /\
    point_effectiveness mag ws wd ds agls = Ok v.
Proof.
  revert aglss row j. induction dss as [|ds dss IH]; intros [|agls aglss] row j H Hj;
    cbn [wind_state_row] in H;
    try (injection H as <-; destruct j; discriminate).
  destruct (point_effectiveness mag ws wd ds agls) as [u|e] eqn:E; [|discriminate].
  cbn [bind] in H.
  destruct (wind_state_row mag ws wd dss aglss) as [rest|e] eqn:E'; [|discriminate].
  cbn [bind] in H. injection H as <-.
  destruct j as [|j]; cbn [nth_error] in *.
  - injection Hj as <-. eauto.
  - eapply IH; eauto.
Qed.

(** A cell of the field generated for one source is the contribution of
    the source to that point under that wind state. *)
Lemma generate_moisture_matrix_entry (src : moisture_source)
    (unique : list (Q * Q)) (m : list (list Q)) (i j : nat) (v : Q) :
  generate_moisture_matrix src unique = Ok m ->
  entry m i j = Some v ->
  exists ws wd,
    nth_error unique i = Some (ws, wd) /\ contribution src ws wd j = Some v.
Proof.
  intros H Hv. unfold entry in Hv.
  destruct (nth_error m i) as [row|] eqn:Hrow; [|discriminate].
  destruct (traverse_nth_error _ _ _ _ _ H Hrow) as [[ws wd] [Hw Hf]].
  cbn [fst snd] in Hf.
  destruct (wind_state_row_nth_error _ _ _ _ _ _ _ _ Hf Hv)
    as [ds [agls [Hds [Ha Hp]]]].
  exists ws, wd. split; [exact Hw|].
  unfold contribution. rewrite Hds, Ha, Hp. reflexivity.
Qed.

End FieldOfSources.

Section FieldAccessors.
Import Moisture Spatial.

Variable self : SpatialComfortResult.

Lemma moisture_matrix_of_fresh (src : moisture_source) (w w' : world)
    (m : list (list Q)) :
  files w !! npy_path src = None ->
  moisture_matrix_of self src w = (Ok m, w') ->
  generate_moisture_matrix src (wind_speed_direction_unique self) = Ok m /\
  files w' = <[npy_path src := Npy m]> (files w).
Proof.
  intros Habsent. unfold moisture_matrix_of, bindc. cbv zeta.
  fold (npy_path src).
  rewrite (path_exists_absent _ _ Habsent). unfold lift.
  destruct (generate_moisture_matrix src (wind_speed_direction_unique self))
    as [m0|e]; [|discriminate].
  unfold np_save, write_file, ret. intros H. injection H as <- <-.
  split; reflexivity.
Qed.

(** With one file name per source and none of the files in the
    directory, the loop over the sources generates the field of each. *)
Lemma traversec_fresh (srcs : list moisture_source) (w w' : world)
    (ms : list (list (list Q))) :
  NoDup (map npy_path srcs) ->
  (forall src, In src srcs -> files w !! npy_path src = None) ->
  traversec (moisture_matrix_of self) srcs w = (Ok ms, w') ->
  Forall2 (fun src m =>
             generate_moisture_matrix src (wind_speed_direction_unique self) = Ok m)
          srcs ms.
Proof.
  revert w w' ms. induction srcs as [|src srcs IH]; intros w w' ms Hnd Habsent H.
  - cbn [traversec] in H. unfold ret in H. injection H as <- _. constructor.
  - cbn [traversec] in H. unfold bindc at 1 in H.
    destruct (moisture_matrix_of self src w) as [[m|e] w1] eqn:E; [|discriminate].
    destruct (moisture_matrix_of_fresh src w w1 m
                (Habsent src (or_introl eq_refl)) E) as [Hgen Hfiles].
    unfold bindc at 1 in H.
    destruct (traversec (moisture_matrix_of self) srcs w1) as [[ms'|e] w2] eqn:E';
      [|discriminate].
    unfold ret in H. injection H as <- _.
    cbn [map] in Hnd. apply NoDup_cons in Hnd. destruct Hnd as [Hnotin Hnd].
    constructor; [exact Hgen|].
    apply (IH w1 w2 ms' Hnd); [|exact E'].
    intros src' Hin. rewrite Hfiles.
    rewrite lookup_insert_ne.
    + apply Habsent. right. exact Hin.
    + intros Heq. apply Hnotin. rewrite Heq.
      apply list_elem_of_In. apply in_map. exact Hin.
Qed.


Lemma Forall2_In_r {A B : Type} (P : A -> B -> Prop) (l : list A) (l' : list B)
    (b : B) :
  Forall2 P l l' -> In b l' -> exists a, In a l /\ P a b.
Proof.
  induction 1 as [|x y l l' Hxy _ IH]; intros Hin; [destruct Hin|].
  destruct Hin as [<-|Hin].
  - exists x. split; [left; reflexivity|exact Hxy].
  - destruct (IH Hin) as [a [Ha Hab]]. exists a. split; [right; exact Ha|exact Hab].
Qed.


(** Every cell of the field is the contribution of one of the sources. *)
Lemma field_cell_from_source (w w' : world)
    (field : list (list Q)) :
  NoDup (map npy_path (moisture_sources self)) ->
  (forall src, In src (moisture_sources self) -> files w !! npy_path src = None) ->
  moisture_source_matrix_unique self w = (Ok field, w') ->
  forall i j v,
    entry field i j = Some v ->
    exists ws wd src,
      In src (moisture_sources self) /\ contribution src ws wd j = Some v.
Proof.
  intros Hnd Habsent H i j v Hv.
  unfold moisture_source_matrix_unique, bindc in H.
  destruct (traversec (moisture_matrix_of self) (moisture_sources self) w)
    as [[ms|e] w1] eqn:E; [|discriminate].
  unfold lift in H. injection H as H _.
  pose proof (traversec_fresh _ _ _ _ Hnd Habsent E) as Hall.
  destruct (amax_axis0_entry _ _ _ _ _ H Hv) as [_ [m [Hm Hmv]]].
  destruct (Forall2_In_r _ _ _ _ Hall Hm) as [src0 [Hsrc0 Hgen0]].
  destruct (generate_moisture_matrix_entry _ _ _ _ _ _ Hgen0 Hmv)
    as [ws [wd [_ Hc0]]].
  exists ws, wd, src0. split; assumption.
Qed.

End FieldAccessors.

Lemma pond_site_fresh :
  NoDup (map npy_path (Spatial.moisture_sources pond_site)) /\
  (forall src, In src (Spatial.moisture_sources pond_site) ->
     files fresh_directory !! npy_path src = None).
Proof.
  split.
  - cbn [map Spatial.moisture_sources pond_site].
    apply NoDup_cons. split; [|apply NoDup_singleton].
    intros H. apply list_elem_of_In in H. destruct H as [H|[]].
    vm_compute in H. discriminate.
  - intros src _. apply lookup_empty.
Qed.


(** Under wind of speed 4 from 270 degrees the third sensor point of the
    example lies in the plume of the pond and of the fountain; the cell of
    the field is the contribution of the pond alone, less than the sum. *)
Lemma sources_do_not_add :
  exists field w' v p f,
    Spatial.moisture_source_matrix_unique pond_site fresh_directory = (Ok field, w') /\
    entry field 1 2 = Some v /\
    contribution pond 4 270 2 = Some p /\
    contribution fountain 4 270 2 = Some f /\
    0 < f /\ v == p /\ v < p + f.
Proof.
  do 5 eexists.
  split; [vm_compute; reflexivity|].
  split; [reflexivity|].
  split; [vm_compute; reflexivity|].
  split; [vm_compute; reflexivity|].
  split; [reflexivity|].
  split; reflexivity.
Qed.

Section FieldBounds.
Import Moisture Spatial.

Variable self : SpatialComfortResult.

Lemma contribution_range (src : moisture_source) (ws wd : Q) (j : nat) (v : Q) :
  0 <= magnitude src ->
  contribution src ws wd j = Some v -> 0 <= v <= magnitude src.
Proof.
  intros Hm. unfold contribution.
  destruct (nth_error (distances src) j) as [ds|]; [|discriminate].
  destruct (nth_error (angles src) j) as [agls|]; [|discriminate].
  destruct (point_effectiveness (magnitude src) ws wd ds agls) as [u|e] eqn:E;
    [|discriminate].
  intros H. injection H as <-.
  eapply point_effectiveness_range; eauto.
Qed.

Lemma field_entry_bounded (w w' : world) (field : list (list Q)) :
  (forall src, In src (moisture_sources self) -> 0 <= magnitude src) ->
  NoDup (map npy_path (moisture_sources self)) ->
  (forall src, In src (moisture_sources self) -> files w !! npy_path src = None) ->
  moisture_source_matrix_unique self w = (Ok field, w') ->
  forall i j v,
    entry field i j = Some v ->
    0 <= v /\
    forall M, (forall src, In src (moisture_sources self) -> magnitude src <= M) ->
              v <= M.
Proof.
  intros Hmag Hnd Habsent H i j v Hv.
  destruct (field_cell_from_source self w w' field Hnd Habsent H
              i j v Hv) as [ws [wd [src [Hsrc Hc]]]].
  destruct (contribution_range src ws wd j v (Hmag src Hsrc) Hc) as [H0 H1].
  split; [exact H0|].
  intros M HM. apply Qle_trans with (magnitude src); [exact H1|apply HM, Hsrc].
Qed.

Lemma take_nth_error {A : Type} (a : list A) (indices : list nat) (r : list A)
    (h : nat) (row : A) :
  np.take a indices = Ok r ->
  nth_error r h = Some row ->
  exists i, nth_error a i = Some row.
Proof.
  intros H Hh. unfold np.take in H.
  destruct (traverse_nth_error _ _ _ _ _ H Hh) as [i [_ Hi]].
  exists i. destruct (nth_error a i) as [x|]; [|discriminate].
  injection Hi as <-. reflexivity.
Qed.

(** C10, amended.  With non-negative magnitudes and no cached field (one
    file name per source), every cell of the field per wind state is a
    number between 0 and every bound [M] of the magnitudes of the sources.
    Every cell of the matrix expanded to the hours is the binary16
    rounding of a cell of the field; with magnitudes of at most 1 it is a
    number between 0 and 1, at most [2^-12] away from the cell of the
    field. *)
Theorem moisture_effectiveness_bounded (w : world) :
  (forall src, In src (moisture_sources self) -> 0 <= magnitude src) ->
  NoDup (map npy_path (moisture_sources self)) ->
  (forall src, In src (moisture_sources self) -> files w !! npy_path src = None) ->
  (forall field w',
     moisture_source_matrix_unique self w = (Ok field, w') ->
     forall i j v,
       entry field i j = Some v ->
       0 <= v /\
       forall M, (forall src, In src (moisture_sources self) -> magnitude src <= M) ->
                 v <= M) /\
  (forall df w',
     moisture_matrix self w = (Ok df, w') ->
     forall h p c,
       cell_at df h p = Some c ->
       exists field w1 i x,
         moisture_source_matrix_unique self w = (Ok field, w1) /\
         entry field i p = Some x /\
         c = np.float16 x /\
         ((forall src, In src (moisture_sources self) -> magnitude src <= 1) ->
          exists v,
            c = Some v /\ 0 <= v <= 1 /\
            x - (1 # 4096) <= v <= x + (1 # 4096))).
Proof.
  intros Hmag Hnd Habsent. split.
  - intros field w'. apply field_entry_bounded; assumption.
  - intros df w' H h p c Hc.
    unfold moisture_matrix, bindc in H.
    destruct (moisture_source_matrix_unique self w) as [[field|e] w1] eqn:E;
      [|discriminate].
    unfold lift at 1 in H.
    destruct (np.take field (wind_speed_direction_indices self)) as [rows|e] eqn:Et;
      [|discriminate].
    destruct (mean_radiant_temperature_matrix self w1) as [[mrt|e] w2];
      [|discriminate].
    unfold lift, DataFrame in H.
    destruct (_ && _); [|discriminate].
    unfold ret in H. injection H as <- _.
    destruct (cell_at_astype _ _ _ _ Hc) as [c0 [Hc0 ->]].
    unfold cell_at in Hc0. rewrite nth_error_map in Hc0.
    destruct (nth_error rows h) as [row|] eqn:Hrow; [|discriminate].
    cbn [option_map] in Hc0. rewrite nth_error_map in Hc0.
    destruct (nth_error row p) as [x|] eqn:Hx; [|discriminate].
    cbn [option_map] in Hc0. injection Hc0 as <-.
    destruct (take_nth_error _ _ _ _ _ Et Hrow) as [i Hi].
    assert (Hentry : entry field i p = Some x)
      by (unfold entry; rewrite Hi; exact Hx).
    exists field, w1, i, x. split; [reflexivity|]. split; [exact Hentry|].
    split; [reflexivity|].
    intros Hone. cbn [pd.cast16].
    destruct (field_entry_bounded w w1 field Hmag Hnd Habsent E i p x Hentry)
      as [H0 HM].
    apply float16_unit. split; [exact H0|apply HM, Hone].
Qed.

End FieldBounds.

Lemma moisture_effectiveness_bounded_witness :
  exists df w',
    Spatial.moisture_matrix pond_site fresh_directory = (Ok df, w') /\
    forall h p c, cell_at df h p = Some c -> exists v, c = Some v /\ 0 <= v <= 1.
Proof.
  destruct (Spatial.moisture_matrix pond_site fresh_directory)
    as [[df|e] w'] eqn:E; [|vm_compute in E; discriminate].
  exists df, w'. split; [reflexivity|].
  assert (Hmag : forall src, In src (Spatial.moisture_sources pond_site) ->
                             0 <= Moisture.magnitude src).
  { intros src [<-|[<-|[]]]; vm_compute; discriminate. }
  destruct (moisture_effectiveness_bounded pond_site fresh_directory Hmag
              (proj1 pond_site_fresh) (proj2 pond_site_fresh)) as [_ Hdf].
  intros h p c Hc.
  destruct (Hdf df w' E h p c Hc) as [field [w1 [i [x [_ [_ [_ Hone]]]]]]].
  destruct Hone as [v [-> [Hv _]]].
  - intros src [<-|[<-|[]]]; vm_compute; discriminate.
  - exists v. split; [reflexivity|exact Hv].
Defined.

(** A nozzle of magnitude 0.3 on the sensor point, in calm air: the cell
    of the field is 0.3, the cell of the hourly matrix is the binary16
    number next to it, 0.300048828125, above the largest magnitude. *)
Lemma moisture_matrix_exceeds_magnitude :
  exists df w' v,
    Spatial.moisture_matrix nozzle_site fresh_directory = (Ok df, w') /\
    cell_at df 0 0 = Some (Some v) /\
    (forall src, In src (Spatial.moisture_sources nozzle_site) ->
       Moisture.magnitude src <= 3 # 10) /\
    v == 1229 # 4096 /\
    3 # 10 < v.
Proof.
  destruct (Spatial.moisture_matrix nozzle_site fresh_directory)
    as [[df|e] w'] eqn:E; [|vm_compute in E; discriminate].
  vm_compute in E. injection E as <- _.
  eexists. eexists. eexists.
  split; [reflexivity|]. split; [reflexivity|].
  split; [intros src [<-|[]]; vm_compute; discriminate|].
  split; reflexivity.
Qed.

(** * Further properties *)

(** ** Sunlit hours *)
Section DayTime.
Import Mrt.

Lemma Qmin_either (a b : Q) : Qmin a b = a \/ Qmin a b = b.
Proof.
  unfold Qmin, GenericMinMax.gmin. destruct (a ?= b); auto.
Qed.

Lemma list_min_spec (l : list Q) (a : Q) :
  In (list_min a l) (a :: l) /\ (forall u, In u (a :: l) -> list_min a l <= u).
Proof.
  revert a. induction l as [|b l IH]; intros a; cbn [list_min].
  - split; [left; reflexivity|]. intros u [Hu|[]]. subst u. lra.
  - destruct (IH (Qmin a b)) as [Hin Hlb]. split.
    + destruct Hin as [Hin|Hin]; [|right; right; exact Hin].
      destruct (Qmin_either a b) as [E|E].
      * left. congruence.
      * right; left. congruence.
    + intros u [Hu|[Hu|Hu]].
      * subst u. apply Qle_trans with (Qmin a b); [|apply Q.le_min_l].
        apply Hlb. left. reflexivity.
      * subst u. apply Qle_trans with (Qmin a b); [|apply Q.le_min_r].
        apply Hlb. left. reflexivity.
      * apply Hlb. right. exact Hu.
Qed.

Lemma list_max_spec (l : list Q) (a : Q) :
  In (list_max a l) (a :: l) /\ (forall u, In u (a :: l) -> u <= list_max a l).
Proof.
  revert a. induction l as [|b l IH]; intros a; cbn [list_max].
  - split; [left; reflexivity|]. intros u [Hu|[]]. subst u. lra.
  - destruct (IH (Qmax a b)) as [Hin Hub]. split.
    + destruct Hin as [Hin|Hin]; [|right; right; exact Hin].
      destruct (Qmax_either a b) as [E|E].
      * left. congruence.
      * right; left. congruence.
    + intros u [Hu|[Hu|Hu]].
      * subst u. apply Qle_trans with (Qmax a b); [apply Q.le_max_l|].
        apply Hub. left. reflexivity.
      * subst u. apply Qle_trans with (Qmax a b); [apply Q.le_max_r|].
        apply Hub. left. reflexivity.
      * apply Hub. right. exact Hu.
Qed.

Variables (unshaded shaded : list Q) (total_irradiance : list (list Q)).
Variables (sky_view : list Q) (sun_up_bool : list bool).

Local Abbreviation raw :=
  (raw_matrix unshaded shaded total_irradiance sky_view sun_up_bool).

Lemma raw_matrix_day_cell (h p : nat) (irradiance : list Q) (v : Q) :
  (h < length sun_up_bool)%nat ->
  nth h sun_up_bool false = true ->
  nth_error total_irradiance h = Some irradiance ->
  nth_error irradiance p = Some v ->
  cell_at raw h p
  = Some (daytime_cell (nth h shaded 0) (nth h unshaded 0) irradiance v).
Proof.
  intros Hh Hup Hirr Hv. unfold cell_at, raw_matrix.
  rewrite nth_error_map_seq by exact Hh.
  unfold raw_row. rewrite Hup.
  rewrite (nth_error_nth _ _ [] Hirr).
  rewrite nth_error_map, Hv. reflexivity.
Qed.

(** At a sunlit hour the raw value of a point places the irradiance of the
    point in the range of the irradiance of all points at that hour: it is
    NaN when all points receive the same irradiance, and otherwise lies
    between the smaller and the larger of the shaded and the unshaded
    value, at the smaller one for a point of least irradiance and at the
    larger one for a point of greatest irradiance. *)
Theorem daytime_value_in_range (h p : nat) (irradiance : list Q) (v : Q) :
  (h < length sun_up_bool)%nat ->
  nth h sun_up_bool false = true ->
  nth_error total_irradiance h = Some irradiance ->
  nth_error irradiance p = Some v ->
  let sh := nth h shaded 0 in
  let un := nth h unshaded 0 in
  ((forall x, In x irradiance -> x == v) -> cell_at raw h p = Some None) /\
  ((exists x, In x irradiance /\ ~ x == v) ->
   exists y,
     cell_at raw h p = Some (Some y) /\
     Qmin sh un <= y <= Qmax sh un /\
     ((forall x, In x irradiance -> v <= x) -> y == Qmin sh un) /\
     ((forall x, In x irradiance -> x <= v) -> y == Qmax sh un)).
Proof.
  intros Hh Hup Hirr Hv sh un.
  rewrite (raw_matrix_day_cell h p irradiance v Hh Hup Hirr Hv).
  fold sh un. unfold daytime_cell, fdiv.
  assert (Hin : In v irradiance) by (eapply nth_error_In; exact Hv).
  destruct (list_min_spec irradiance v) as [Hmin_in Hmin].
  destruct (list_max_spec irradiance v) as [Hmax_in Hmax].
  set (lo := list_min v irradiance) in *.
  set (hi := list_max v irradiance) in *.
  assert (Hlo : lo <= v) by (apply Hmin; left; reflexivity).
  assert (Hhi : v <= hi) by (apply Hmax; left; reflexivity).
  split.
  - intros Hall.
    assert (Elo : lo == v).
    { destruct Hmin_in as [E|E]; [rewrite <- E; reflexivity|apply Hall, E]. }
    assert (Ehi : hi == v).
    { destruct Hmax_in as [E|E]; [rewrite <- E; reflexivity|apply Hall, E]. }
    assert (E0 : Qeq_bool (hi - lo) 0 = true) by (apply Qeq_bool_iff; lra).
    rewrite E0. reflexivity.
  - intros [x [Hx Hne]].
    assert (Hxlo : lo <= x) by (apply Hmin; right; exact Hx).
    assert (Hxhi : x <= hi) by (apply Hmax; right; exact Hx).
    assert (Hlt : lo < hi).
    { destruct (Qlt_le_dec lo hi) as [Hl|Hl]; [exact Hl|].
      exfalso. apply Hne. lra. }
    assert (E0 : Qeq_bool (hi - lo) 0 = false) by (apply Qeq_bool_false; lra).
    rewrite E0.
    set (r := (v - lo) / (hi - lo)).
    assert (Hr : r * (hi - lo) == v - lo) by (unfold r; field; lra).
    assert (Hr01 : 0 <= r <= 1) by (split; nra).
    exists (r * (Qmax sh un - Qmin sh un) + Qmin sh un).
    split; [reflexivity|].
    assert (Hspan : Qmin sh un <= Qmax sh un).
    { destruct (Qmin_cases sh un) as [[? ->]|[? ->]];
      destruct (Qmax_cases sh un) as [[? ->]|[? ->]]; lra. }
    set (mn := Qmin sh un) in *. set (mx := Qmax sh un) in *.
    split; [split; nra|]. split.
    + intros Hleast.
      assert (Elo : lo == v).
      { destruct Hmin_in as [E|E]; [rewrite <- E; reflexivity|].
        apply Qle_antisym; [exact Hlo|apply Hleast, E]. }
      assert (r == 0) by nra. nra.
    + intros Hmost.
      assert (Ehi : hi == v).
      { destruct Hmax_in as [E|E]; [rewrite <- E; reflexivity|].
        apply Qle_antisym; [apply Hmost, E|exact Hhi]. }
      assert (r == 1) by nra. nra.
Qed.

Lemma by_columns_shape (f : list cell -> list cell) (n : nat) (df : frame) :
  length (pd.by_columns f n df) = length df /\
  forall row, In row (pd.by_columns f n df) -> length row = n.
Proof.
  unfold pd.by_columns, pd.of_columns, pd.columns. split.
  - rewrite length_map, length_seq. reflexivity.
  - intros row Hrow. apply in_map_iff in Hrow. destruct Hrow as [h [<- _]].
    rewrite !length_map, length_seq. reflexivity.
Qed.

(** The outcome of the interpolation.  A sky view outside [[0, 100]] makes
    it fail, whatever the hours are and even when no hour is a night hour:
    with [ValueError], or with the [IndexError] of the boolean index when
    the flags of the hours and the series differ in length.  With at
    least one hour and one point, inputs of agreeing shapes and every sky
    view inside [[0, 100]] it returns a matrix of one row per hour and one
    column per point.  It returns in no other case. *)
Theorem sky_view_out_of_range_raises :
  ((exists sv, In sv sky_view /\ (sv < 0 \/ 100 < sv)) ->
   _interpolate_between_unshaded_shaded unshaded shaded total_irradiance
     sky_view sun_up_bool = Raise ValueError \/
   (length shaded = length unshaded /\
    length sun_up_bool <> length unshaded /\
    _interpolate_between_unshaded_shaded unshaded shaded total_irradiance
      sky_view sun_up_bool = Raise IndexError)) /\
  ((0 < length sun_up_bool)%nat -> (0 < length sky_view)%nat ->
   length shaded = length unshaded ->
   length sun_up_bool = length unshaded ->
   length sun_up_bool = length total_irradiance ->
   (forall row, In row total_irradiance -> length row = length sky_view) ->
   (forall sv, In sv sky_view -> 0 <= sv <= 100) ->
   exists out,
     _interpolate_between_unshaded_shaded unshaded shaded total_irradiance
       sky_view sun_up_bool = Ok out /\
     length out = length sun_up_bool /\
     (forall row, In row out -> length row = length sky_view)) /\
  (forall out,
     _interpolate_between_unshaded_shaded unshaded shaded total_irradiance
       sky_view sun_up_bool = Ok out ->
     length shaded = length unshaded /\
     length sun_up_bool = length unshaded /\
     length sun_up_bool = length total_irradiance /\
     (forall row, In row total_irradiance -> length row = length sky_view) /\
     (forall sv, In sv sky_view -> 0 <= sv <= 100)).
Proof.
  split; [|split].
  - intros [sv [Hin Hout]].
    assert (E : existsb (scipy.out_of_bounds 0 100) sky_view = true).
    { apply existsb_exists. exists sv. split; [exact Hin|].
      unfold scipy.out_of_bounds. apply orb_true_iff.
      destruct Hout as [H|H]; [left; apply Qltb_lt|right; apply Qgtb_gt]; exact H. }
    unfold _interpolate_between_unshaded_shaded.
    destruct (Nat.eqb_spec (length shaded) (length unshaded)) as [E1|E1];
      [|left; reflexivity].
    destruct (Nat.eqb_spec (length sun_up_bool) (length unshaded)) as [E2|E2];
      [|right; repeat split; assumption].
    cbn [negb]. rewrite E.
    destruct (length sun_up_bool =? length total_irradiance)%nat;
      left; reflexivity.
  - intros _ _ E1 E2 E3 Hrows Hall.
    unfold _interpolate_between_unshaded_shaded.
    rewrite (proj2 (Nat.eqb_eq _ _) E1), (proj2 (Nat.eqb_eq _ _) E2),
      (proj2 (Nat.eqb_eq _ _) E3). cbn [negb].
    assert (E4 : existsb (scipy.out_of_bounds 0 100) sky_view = false).
    { destruct (existsb _ sky_view) eqn:E; [|reflexivity]. exfalso.
      apply existsb_exists in E. destruct E as [sv [Hin Hout]].
      specialize (Hall sv Hin).
      unfold scipy.out_of_bounds in Hout. apply orb_true_iff in Hout.
      destruct Hout as [H|H]; qbool; lra. }
    assert (E5 : forallb (fun row => (length row =? length sky_view)%nat)
                   total_irradiance = true).
    { apply forallb_forall. intros row Hrow. apply Nat.eqb_eq, Hrows, Hrow. }
    rewrite E4, E5. cbn [negb]. eexists. split; [reflexivity|].
    destruct (by_columns_shape smooth (length sky_view) raw) as [Hlen Hcols].
    split; [rewrite Hlen; apply raw_matrix_length|exact Hcols].
  - intros out Hout.
    destruct (interpolate_result _ _ _ _ _ out Hout) as [E1 [E2 [E3 [E4 [E5 _]]]]].
    split; [exact E1|]. split; [exact E2|]. split; [exact E3|]. split.
    + intros row Hrow. apply Nat.eqb_eq. rewrite forallb_forall in E5.
      apply E5. exact Hrow.
    + intros sv Hin. apply In_nth_error in Hin. destruct Hin as [i Hi].
      exact (sky_view_in_bounds sky_view i sv E4 Hi).
Qed.

End DayTime.

Lemma daytime_value_in_range_witness :
  exists y,
    cell_at (Mrt.raw_matrix [40] [20] [[0; 5; 10]] [0; 50; 100] [true]) 0 2
    = Some (Some y) /\ y == Qmax 20 40.
Proof.
  assert (Hh : (0 < length [true])%nat) by (simpl; lia).
  assert (Hup : nth 0 [true] false = true) by reflexivity.
  assert (Hirr : nth_error [[0; 5; 10]] 0 = Some [0; 5; 10]) by reflexivity.
  assert (Hv : nth_error [0; 5; 10] 2 = Some 10) by reflexivity.
  destruct (daytime_value_in_range [40] [20] [[0; 5; 10]] [0; 50; 100] [true]
              0 2 [0; 5; 10] 10 Hh Hup Hirr Hv) as [_ Hnd].
  destruct Hnd as [y [Hy [_ [_ Hmost]]]].
  - exists 0. split; [left; reflexivity|]. intros H. vm_compute in H. discriminate.
  - exists y. split; [exact Hy|]. apply Hmost.
    intros x [<-|[<-|[<-|[]]]]; vm_compute; discriminate.
Defined.

Lemma sky_view_out_of_range_raises_witness :
  exists out,
    Mrt._interpolate_between_unshaded_shaded [40; 40] [20; 20] [[0; 0]; [0; 0]]
      [0; 50] [false; false] = Ok out /\
    length out = 2%nat.
Proof.
  assert (Hrows : forall row, In row [[0; 0]; [0; 0]] ->
                              length row = length [0; 50]).
  { intros row [<-|[<-|[]]]; reflexivity. }
  assert (Hall : forall sv, In sv [0; 50] -> 0 <= sv <= 100).
  { intros sv [<-|[<-|[]]]; split; vm_compute; discriminate. }
  assert (Hh : (0 < length [false; false])%nat) by (simpl; lia).
  assert (Hp : (0 < length [0; 50])%nat) by (simpl; lia).
  destruct (proj1 (proj2 (sky_view_out_of_range_raises [40; 40] [20; 20]
                            [[0; 0]; [0; 0]] [0; 50] [false; false]))
              Hh Hp eq_refl eq_refl eq_refl Hrows Hall) as [out [Hout [Hlen _]]].
  exists out. split; [exact Hout|exact Hlen].
Defined.

(** ** The range of the smoothed values *)
Section SmoothedRange.
Import Mrt.

Lemma Qpow_nonneg (d : Q) (k : nat) : 0 <= d -> 0 <= Qpow d k.
Proof.
  intros Hd. induction k as [|k IH]; cbn [Qpow]; [lra|].
  apply Qmult_le_0_compat; assumption.
Qed.

Lemma weighted_sum_between (d lo hi : Q) (l : list Q) (k : nat) :
  0 <= d ->
  (forall x, In x l -> lo <= x <= hi) ->
  lo * weighted_sum d k (ones l) <= weighted_sum d k l
  /\ weighted_sum d k l <= hi * weighted_sum d k (ones l).
Proof.
  intros Hd. revert k. induction l as [|x l IH]; intros k Hall.
  - cbn [ones map weighted_sum]. split; lra.
  - unfold ones in *. cbn [map weighted_sum].
    destruct (IH (S k)) as [Hlo Hhi]; [intros y Hy; apply Hall; right; exact Hy|].
    destruct (Hall x (or_introl eq_refl)) as [Hx1 Hx2].
    pose proof (Qpow_nonneg d k Hd) as Hp.
    set (pw := Qpow d k) in *.
    set (s1 := weighted_sum d (S k) (map (fun _ => 1) l)) in *.
    set (s := weighted_sum d (S k) l) in *.
    split; nra.
Qed.

Variables (unshaded shaded : list Q) (total_irradiance : list (list Q)).
Variables (sky_view : list Q) (sun_up_bool : list bool).

Local Abbreviation raw :=
  (raw_matrix unshaded shaded total_irradiance sky_view sun_up_bool).

(** The returned cell of a column without NaN, as a weighted mean. *)
Lemma smoothed_cell (out : frame) (p h : nat) (xs : list Q) :
  _interpolate_between_unshaded_shaded unshaded shaded total_irradiance
    sky_view sun_up_bool = Ok out ->
  (p < length sky_view)%nat ->
  pd.column raw p = map Some xs ->
  (h < length xs)%nat ->
  exists y,
    cell_at out h p = Some (Some y) /\
    0 < weighted_sum (1 # 5) 0 (ones (hours_until h xs)) /\
    y * weighted_sum (1 # 5) 0 (ones (hours_until h xs))
    == weighted_sum (1 # 5) 0 (hours_until h xs).
Proof.
  intros Hout Hp Hcol Hh.
  destruct (interpolate_result _ _ _ _ _ out Hout) as [_ [_ [_ [_ [_ ->]]]]].
  assert (Hlen : length raw = length xs).
  { rewrite <- (length_map Some xs), <- Hcol. unfold pd.column.
    rewrite length_map. reflexivity. }
  rewrite cell_at_by_columns by (rewrite ?Hlen; assumption).
  rewrite Hcol. unfold smooth, pd.interpolate, pd.ewm_mean.
  rewrite interpolate_from_valid.
  set (alpha := 2 / ((3 # 2) + 1)).
  assert (Ha : alpha <= 1) by (vm_compute; discriminate).
  assert (Hd : 1 - alpha == 1 # 5) by reflexivity.
  destruct (ewm_from_start alpha Ha xs h Hh) as [y [Hn [Hpos He]]].
  exists y. split.
  - f_equal. apply nth_error_nth. exact Hn.
  - rewrite <- !(weighted_sum_decay _ _ _ _ Hd). split; assumption.
Qed.

(** The value returned for hour [h] of a point whose raw series has no NaN
    lies between any two bounds of the raw values of the hours up to [h]:
    the smoothing never leaves the range of what it averages.  A raw series
    that is constant up to [h] is returned unchanged there. *)
Theorem smoothed_value_in_raw_range (out : frame) (p h : nat) (xs : list Q)
    (lo hi : Q) :
  _interpolate_between_unshaded_shaded unshaded shaded total_irradiance
    sky_view sun_up_bool = Ok out ->
  (p < length sky_view)%nat ->
  pd.column raw p = map Some xs ->
  (h < length xs)%nat ->
  (forall x, In x (firstn (S h) xs) -> lo <= x <= hi) ->
  exists y, cell_at out h p = Some (Some y) /\ lo <= y <= hi.
Proof.
  intros Hout Hp Hcol Hh Hall.
  destruct (smoothed_cell out p h xs Hout Hp Hcol Hh) as [y [Hy [Hpos He]]].
  exists y. split; [exact Hy|].
  assert (Hall' : forall x, In x (hours_until h xs) -> lo <= x <= hi).
  { intros x Hx. apply Hall. unfold hours_until in Hx.
    apply in_rev in Hx. exact Hx. }
  assert (Hd : 0 <= 1 # 5) by lra.
  destruct (weighted_sum_between (1 # 5) lo hi (hours_until h xs) 0 Hd Hall')
    as [H1 H2].
  set (W := weighted_sum (1 # 5) 0 (ones (hours_until h xs))) in *.
  set (S' := weighted_sum (1 # 5) 0 (hours_until h xs)) in *.
  split.
  - destruct (Qlt_le_dec y lo) as [Hlt|Hge]; [|exact Hge]. exfalso. nra.
  - destruct (Qlt_le_dec hi y) as [Hlt|Hge]; [|exact Hge]. exfalso. nra.
Qed.

End SmoothedRange.

Lemma smoothed_value_in_raw_range_witness :
  exists y,
    cell_at (pd.by_columns Mrt.smooth 1
               (Mrt.raw_matrix [40; 20] [40; 20] [[0]; [0]] [50] [false; false]))
            1 0 = Some (Some y) /\
    20 <= y <= 40.
Proof.
  pose (xs := [scipy.interp1d 0 100 40 40 50; scipy.interp1d 0 100 20 20 50]).
  assert (Hout : Mrt._interpolate_between_unshaded_shaded [40; 20] [40; 20]
                   [[0]; [0]] [50] [false; false]
                 = Ok (pd.by_columns Mrt.smooth 1
                         (Mrt.raw_matrix [40; 20] [40; 20] [[0]; [0]] [50]
                            [false; false]))) by reflexivity.
  assert (Hp : (0 < length [50])%nat) by (simpl; lia).
  assert (Hcol : pd.column (Mrt.raw_matrix [40; 20] [40; 20] [[0]; [0]] [50]
                              [false; false]) 0 = map Some xs) by reflexivity.
  assert (Hh : (1 < length xs)%nat) by (simpl; lia).
  assert (Hall : forall x, In x (firstn 2 xs) -> 20 <= x <= 40).
  { intros x [<-|[<-|[]]]; split; vm_compute; discriminate. }
  exact (smoothed_value_in_raw_range [40; 20] [40; 20] [[0]; [0]] [50]
           [false; false] _ 0 1 xs 20 40 Hout Hp Hcol Hh Hall).
Defined.

(** ** Wind states *)
Section WindStates.
Import Spatial.

Lemma row_eqb_spec (a b : Q * Q) :
  np.row_eqb a b = true <-> fst a == fst b /\ snd a == snd b.
Proof.
  unfold np.row_eqb. rewrite andb_true_iff, !Qeq_bool_iff. reflexivity.
Qed.

Lemma insert_row_keeps (a x : Q * Q) (l : list (Q * Q)) :
  In x l -> In x (np.insert_row a l).
Proof.
  induction l as [|b l IH]; intros Hin; [destruct Hin|].
  cbn [np.insert_row].
  destruct (np.row_eqb a b); [exact Hin|].
  destruct (np.row_ltb a b); [right; exact Hin|].
  destruct Hin as [<-|Hin]; [left; reflexivity|right; apply IH, Hin].
Qed.

Lemma insert_row_has (a : Q * Q) (l : list (Q * Q)) :
  exists u, In u (np.insert_row a l) /\ np.row_eqb u a = true.
Proof.
  induction l as [|b l IH]; cbn [np.insert_row].
  - exists a. split; [left; reflexivity|]. apply row_eqb_spec. split; reflexivity.
  - destruct (np.row_eqb a b) eqn:E.
    + exists b. split; [left; reflexivity|].
      apply row_eqb_spec. apply row_eqb_spec in E. destruct E as [E1 E2].
      split; symmetry; assumption.
    + destruct (np.row_ltb a b).
      * exists a. split; [left; reflexivity|]. apply row_eqb_spec.
        split; reflexivity.
      * destruct IH as [u [Hu Hua]]. exists u. split; [right; exact Hu|exact Hua].
Qed.

Lemma unique_rows_has (rows : list (Q * Q)) (r : Q * Q) :
  In r rows -> exists u, In u (np.unique_rows rows) /\ np.row_eqb u r = true.
Proof.
  induction rows as [|a rows IH]; intros Hin; [destruct Hin|].
  unfold np.unique_rows. cbn [fold_right]. fold (np.unique_rows rows).
  destruct Hin as [<-|Hin].
  - apply insert_row_has.
  - destruct (IH Hin) as [u [Hu Hur]]. exists u.
    split; [apply insert_row_keeps, Hu|exact Hur].
Qed.

Lemma first_match_finds (row : Q * Q) (unique : list (Q * Q)) :
  (exists u, In u unique /\ np.row_eqb u row = true) ->
  exists i u,
    np.first_match row unique = Some i /\ nth_error unique i = Some u /\
    np.row_eqb u row = true.
Proof.
  induction unique as [|b unique IH]; intros [u [Hin Hu]]; [destruct Hin|].
  cbn [np.first_match].
  destruct (np.row_eqb b row) eqn:E.
  - exists O, b. split; [reflexivity|]. split; [reflexivity|exact E].
  - destruct Hin as [<-|Hin]; [congruence|].
    destruct IH as [i [u' [Hf [Hn Hu']]]]; [eauto|].
    exists (S i), u'. rewrite Hf. split; [reflexivity|]. split; assumption.
Qed.

Lemma all_argmax_finds (rows : list (Q * Q)) (row : Q * Q) :
  In row rows ->
  exists u,
    nth_error (np.unique_rows rows) (np.all_argmax row (np.unique_rows rows))
    = Some u /\
    fst u == fst row /\ snd u == snd row.
Proof.
  intros Hin.
  destruct (first_match_finds row (np.unique_rows rows) (unique_rows_has _ _ Hin))
    as [i [u [Hf [Hn Hu]]]].
  exists u. unfold np.all_argmax. rewrite Hf. split; [exact Hn|].
  apply row_eqb_spec. exact Hu.
Qed.

Lemma nth_error_combine {A B : Type} (l : list A) (l' : list B) (i : nat)
    (a : A) (b : B) :
  nth_error l i = Some a -> nth_error l' i = Some b ->
  nth_error (combine l l') i = Some (a, b).
Proof.
  revert l' i. induction l as [|x l IH]; intros [|y l'] [|i] H1 H2;
    try discriminate; cbn [combine nth_error] in *.
  - congruence.
  - apply IH; assumption.
Qed.

Variable self : SpatialComfortResult.

(** Every hour finds its wind state again: the index computed for the hour
    points into the list of distinct wind states, at a state whose speed
    and direction are those of the hour. *)
Theorem wind_state_index_round_trip (h : nat) (ws wd : Q) :
  nth_error (wind_speed self) h = Some ws ->
  nth_error (wind_direction self) h = Some wd ->
  exists i u,
    nth_error (wind_speed_direction_indices self) h = Some i /\
    nth_error (wind_speed_direction_unique self) i = Some u /\
    fst u == ws /\ snd u == wd.
Proof.
  intros Hws Hwd.
  pose proof (nth_error_combine _ _ _ _ _ Hws Hwd) as Hrow.
  fold (wind_speed_direction self) in Hrow.
  destruct (all_argmax_finds (wind_speed_direction self) (ws, wd)
              (nth_error_In _ _ Hrow)) as [u [Hu Heq]].
  exists (np.all_argmax (ws, wd) (wind_speed_direction_unique self)), u.
  split; [|split; [exact Hu|exact Heq]].
  unfold wind_speed_direction_indices. rewrite nth_error_map, Hrow. reflexivity.
Qed.

End WindStates.

Lemma wind_state_index_round_trip_witness :
  exists i u,
    nth_error (Spatial.wind_speed_direction_indices pond_site) 1 = Some i /\
    nth_error (Spatial.wind_speed_direction_unique pond_site) i = Some u /\
    fst u == 4 /\ snd u == 270.
Proof.
  apply (wind_state_index_round_trip pond_site 1 4 270); reflexivity.
Defined.

(** ** Accessors and their files *)
Section AccessorFiles.
Import Moisture Spatial.

Variable moisture_evaporative_cooling_effect :
  Q -> Q -> list cell -> Q -> list cell * list cell.
Variable universal_thermal_climate_index : Q -> Q -> Q -> Q -> Q.
Variable self : SpatialComfortResult.

(** Without moisture sources there is no moisture field: the accessor of the
    field per wind state and the accessor of the hourly matrix both raise
    [ValueError] (the maximum over an empty list of fields) and leave the
    directory as it is. *)
Theorem no_sources_no_moisture_matrix (w : world) :
  moisture_sources self = [] ->
  moisture_source_matrix_unique self w = (Raise ValueError, w) /\
  moisture_matrix self w = (Raise ValueError, w).
Proof.
  intros Hsrc.
  assert (H : moisture_source_matrix_unique self w = (Raise ValueError, w)).
  { unfold moisture_source_matrix_unique, bindc. rewrite Hsrc. reflexivity. }
  split; [exact H|].
  unfold moisture_matrix, bindc. rewrite H. reflexivity.
Qed.

Lemma astype_float16_shape (df : frame) :
  length (pd.astype_float16 df) = length df /\
  forall n, (forall row, In row df -> length row = n) ->
            forall row, In row (pd.astype_float16 df) -> length row = n.
Proof.
  unfold pd.astype_float16. split; [apply length_map|].
  intros n Hn row Hrow. apply in_map_iff in Hrow. destruct Hrow as [r [<- Hr]].
  rewrite length_map. apply Hn, Hr.
Qed.

(** The first access to the mean radiant temperature matrix in a directory
    without its file computes the matrix from the grid data: it is the
    interpolation between the shaded and the unshaded series cast to
    binary16, with one row per hour of the weather file and one column per
    sensor point.  The matrix is in its file afterwards; apart from that
    file and the two files of the grid data nothing in the directory has
    changed, and no warning is issued.  A second access returns the same
    matrix and leaves the directory as it is. *)
Theorem mean_radiant_temperature_matrix_reload (w w' : world) (mrt : frame) :
  files w !! "mean_radiant_temperature_matrix.h5"%string = None ->
  mean_radiant_temperature_matrix self w = (Ok mrt, w') ->
  (exists interpolated,
     Mrt._interpolate_between_unshaded_shaded
       (unshaded_mean_radiant_temperature self)
       (shaded_mean_radiant_temperature self)
       (total_irradiance_matrix self) (sky_view self)
       (map (fun g => Qgtb g 0) (global_horizontal_radiation self))
     = Ok interpolated /\
     mrt = pd.astype_float16 interpolated) /\
  length mrt = length (global_horizontal_radiation self) /\
  (forall row, In row mrt -> length row = length (sky_view self)) /\
  files w' !! "mean_radiant_temperature_matrix.h5"%string = Some (Hdf mrt) /\
  (forall path,
     path <> "mean_radiant_temperature_matrix.h5"%string ->
     path <> "total_irradiance_matrix.h5"%string ->
     path <> "sky_view.h5"%string ->
     files w' !! path = files w !! path) /\
  warnings_log w' = warnings_log w /\
  mean_radiant_temperature_matrix self w' = (Ok mrt, w').
Proof.
  intros Habsent H.
  unfold mean_radiant_temperature_matrix, bindc in H. cbv zeta in H.
  rewrite (path_exists_absent _ _ Habsent) in H. unfold lift in H.
  destruct (Mrt._interpolate_between_unshaded_shaded _ _ _ _ _) as [m|e] eqn:Ei;
    [|discriminate].
  unfold to_hdf, write_file, ret in H. injection H as <- <-.
  cbn [files warnings_log].
  destruct (interpolate_result _ _ _ _ _ m Ei) as [_ [_ [_ [_ [_ Hm]]]]].
  destruct (by_columns_shape Mrt.smooth (length (sky_view self))
              (Mrt.raw_matrix (unshaded_mean_radiant_temperature self)
                 (shaded_mean_radiant_temperature self)
                 (total_irradiance_matrix self) (sky_view self)
                 (map (fun g => Qgtb g 0) (global_horizontal_radiation self))))
    as [Hlen Hcols].
  rewrite <- Hm in Hlen, Hcols.
  destruct (astype_float16_shape m) as [Hlen' Hcols'].
  split; [exists m; split; reflexivity|].
  split.
  { rewrite Hlen', Hlen, raw_matrix_length. apply length_map. }
  split; [apply Hcols', Hcols|].
  split; [apply lookup_insert_eq|].
  split; [intros path Hne _ _; apply lookup_insert_ne; congruence|].
  split; [reflexivity|].
  apply mean_radiant_temperature_matrix_cached. cbn [files].
  apply lookup_insert_eq.
Qed.

Lemma DataFrame_ok (data : list (list Q)) (like df : frame) :
  DataFrame data like = Ok df ->
  df = map (map Some) data /\ length data = length like /\
  (forall row, In row data -> length row = ncols like).
Proof.
  unfold DataFrame.
  destruct (length data =? length like)%nat eqn:E1; [|discriminate].
  destruct (forallb _ data) eqn:E2; [|discriminate].
  cbn [andb]. intros H. injection H as <-.
  split; [reflexivity|]. split; [apply Nat.eqb_eq, E1|].
  intros row Hrow. rewrite forallb_forall in E2.
  apply Nat.eqb_eq. apply E2. exact Hrow.
Qed.

Lemma broadcast_cells (series : list Q) (w w' : world) (df : frame) :
  broadcast self series w = (Ok df, w') ->
  exists mrt,
    mean_radiant_temperature_matrix self w = (Ok mrt, w') /\
    length df = length series /\
    length df = length mrt /\
    (forall row, In row df -> length row = ncols mrt) /\
    (forall h p c, cell_at df h p = Some c ->
       exists v, nth_error series h = Some v /\ c = Some v).
Proof.
  unfold broadcast, bindc.
  destruct (mean_radiant_temperature_matrix self w) as [[mrt|e] w1];
    [|discriminate].
  unfold lift. intros H.
  destruct (DataFrame (np.repeat_T series (ncols mrt)) mrt) as [df0|e] eqn:E;
    [|discriminate].
  injection H as <- <-.
  destruct (DataFrame_ok _ _ _ E) as [-> [Hlen Hrows]].
  exists mrt. split; [reflexivity|].
  unfold np.repeat_T in *. rewrite !length_map in *.
  split; [reflexivity|]. split; [exact Hlen|]. split.
  - intros row Hrow. apply in_map_iff in Hrow. destruct Hrow as [r [<- Hr]].
    rewrite length_map. apply Hrows. exact Hr.
  - intros h p c Hc. unfold cell_at in Hc.
    rewrite !nth_error_map in Hc.
    destruct (nth_error series h) as [v|]; [|discriminate].
    exists v. split; [reflexivity|].
    cbn [option_map] in Hc. rewrite nth_error_map in Hc.
    destruct (nth_error (repeat v (ncols mrt)) p) as [v'|] eqn:Ev; [|discriminate].
    cbn [option_map] in Hc. injection Hc as <-.
    apply nth_error_In in Ev. apply repeat_spec in Ev. rewrite Ev. reflexivity.
Qed.

(** The wind speed matrix has one row per hour of the wind speed series and
    as many rows and columns as the mean radiant temperature matrix; every
    cell of hour [h] is the wind speed of hour [h]; and the matrix is in
    the file afterwards. *)
Theorem wind_speed_matrix_broadcast (w w' : world) (ws : frame) :
  wind_speed_matrix self w = (Ok ws, w') ->
  length ws = length (wind_speed self) /\
  (exists mrt w1,
     mean_radiant_temperature_matrix self w = (Ok mrt, w1) /\
     length ws = length mrt /\
     (forall row, In row ws -> length row = ncols mrt)) /\
  (forall h p c, cell_at ws h p = Some c ->
     exists v, nth_error (wind_speed self) h = Some v /\ c = Some v) /\
  files w' !! "wind_speed_matrix.h5"%string = Some (Hdf ws).
Proof.
  unfold wind_speed_matrix, bindc. cbv zeta.
  destruct (broadcast self (wind_speed self) w) as [[df|e] w1] eqn:E;
    [|discriminate].
  unfold to_hdf, write_file, ret. intros H. injection H as <- <-.
  destruct (broadcast_cells _ _ _ _ E) as [mrt [Hm [H1 [H2 [H3 H4]]]]].
  split; [exact H1|]. split; [exists mrt, w1; repeat split; assumption|].
  split; [exact H4|]. cbn [files]. apply lookup_insert_eq.
Qed.

(** Whatever branch it takes, when [spatial_moisture_properties] returns,
    the two matrices it returns are in their files, so that the accessors
    of the dry-bulb temperature and of the relative humidity return them
    from then on. *)
Theorem spatial_moisture_properties_feeds_accessors (w w' : world)
    (dbt rh : frame) :
  spatial_moisture_properties moisture_evaporative_cooling_effect self w
  = (Ok (dbt, rh), w') ->
  dry_bulb_temperature_matrix moisture_evaporative_cooling_effect self w'
  = (Ok (Some dbt), w') /\
  relative_humidity_matrix moisture_evaporative_cooling_effect self w'
  = (Ok (Some rh), w').
Proof.
  intros H.
  assert (Hfiles :
    files w' !! "dry_bulb_temperature_matrix.h5"%string = Some (Hdf dbt) /\
    files w' !! "relative_humidity_matrix.h5"%string = Some (Hdf rh)).
  { unfold spatial_moisture_properties in H. cbv zeta in H.
    unfold bindc at 1 in H. unfold path_exists at 1 in H.
    unfold bindc at 1 in H. unfold path_exists at 1 in H.
    destruct (bool_decide (is_Some (files w !! "dry_bulb_temperature_matrix.h5"%string))
              && bool_decide (is_Some (files w !! "relative_humidity_matrix.h5"%string)))
      eqn:Eb.
    - unfold bindc, read_hdf, ret in H.
      destruct (files w !! "dry_bulb_temperature_matrix.h5"%string)
        as [[d| |]|] eqn:Ed; try discriminate.
      destruct (files w !! "relative_humidity_matrix.h5"%string)
        as [[r| |]|] eqn:Er; try discriminate.
      injection H as <- <- <-. split; assumption.
    - unfold bindc at 1 in H.
      match type of H with
      | context [match ?c w with _ => _ end] =>
          destruct (c w) as [[[d r]|e] w1]; [|discriminate]
      end.
      unfold bindc, to_hdf, write_file, ret in H. cbn [fst snd] in H.
      injection H as <- <- <-. cbn [files]. split.
      + rewrite lookup_insert_ne by discriminate. apply lookup_insert_eq.
      + apply lookup_insert_eq. }
  destruct Hfiles as [Hd Hr]. split.
  - apply dry_bulb_temperature_matrix_cached, Hd.
  - apply relative_humidity_matrix_cached, Hr.
Qed.

End AccessorFiles.

Lemma no_sources_no_moisture_matrix_witness :
  Spatial.moisture_matrix site fresh_directory = (Raise ValueError, fresh_directory).
Proof.
  apply (no_sources_no_moisture_matrix site fresh_directory). reflexivity.
Defined.

Lemma mean_radiant_temperature_matrix_reload_witness :
  exists mrt w',
    Spatial.mean_radiant_temperature_matrix site fresh_directory = (Ok mrt, w') /\
    files w' !! "mean_radiant_temperature_matrix.h5"%string = Some (Hdf mrt) /\
    Spatial.mean_radiant_temperature_matrix site w' = (Ok mrt, w').
Proof.
  destruct (Spatial.mean_radiant_temperature_matrix site fresh_directory)
    as [[mrt|e] w'] eqn:E; [|vm_compute in E; discriminate].
  exists mrt, w'. split; [reflexivity|].
  destruct (mean_radiant_temperature_matrix_reload site fresh_directory w' mrt
              (lookup_empty _) E) as [_ [_ [_ [Hfile [_ [_ Hagain]]]]]].
  split; [exact Hfile|exact Hagain].
Defined.

Lemma wind_speed_matrix_broadcast_witness :
  exists ws w',
    Spatial.wind_speed_matrix site fresh_directory = (Ok ws, w') /\
    forall h p c, cell_at ws h p = Some c ->
      exists v, nth_error (Spatial.wind_speed site) h = Some v /\ c = Some v.
Proof.
  destruct (Spatial.wind_speed_matrix site fresh_directory)
    as [[ws|e] w'] eqn:E; [|vm_compute in E; discriminate].
  exists ws, w'. split; [reflexivity|].
  apply (wind_speed_matrix_broadcast site fresh_directory w' ws E).
Defined.

Lemma spatial_moisture_properties_feeds_accessors_witness :
  exists dbt rh w',
    Spatial.spatial_moisture_properties (fun _ _ ms _ => (ms, ms)) site
      fresh_directory = (Ok (dbt, rh), w') /\
    Spatial.dry_bulb_temperature_matrix (fun _ _ ms _ => (ms, ms)) site w'
    = (Ok (Some dbt), w').
Proof.
  destruct (Spatial.spatial_moisture_properties (fun _ _ ms _ => (ms, ms)) site
              fresh_directory) as [[[dbt rh]|e] w'] eqn:E;
    [|vm_compute in E; discriminate].
  exists dbt, rh, w'. split; [reflexivity|].
  apply (spatial_moisture_properties_feeds_accessors _ site fresh_directory w'
           dbt rh E).
Defined.

(** ** The moisture field and its files *)
Section FieldFiles.
Import Moisture Spatial.

Variable self : SpatialComfortResult.

Lemma moisture_matrix_of_other_path (src : moisture_source) (w w' : world)
    (r : result (list (list Q))) (path : string) :
  moisture_matrix_of self src w = (r, w') ->
  path <> npy_path src ->
  files w' !! path = files w !! path /\ warnings_log w' = warnings_log w.
Proof.
  unfold moisture_matrix_of, bindc, path_exists. cbv zeta. fold (npy_path src).
  destruct (bool_decide (is_Some (files w !! npy_path src))).
  - unfold np_load. destruct (files w !! npy_path src) as [[| |]|];
      intros H; injection H as <- <-; split; reflexivity.
  - unfold lift.
    destruct (generate_moisture_matrix src (wind_speed_direction_unique self))
      as [m|e].
    + unfold np_save, write_file, ret. intros H Hne. injection H as <- <-.
      cbn [files warnings_log]. split; [|reflexivity].
      apply lookup_insert_ne. congruence.
    + intros H. injection H as <- <-. split; reflexivity.
Qed.

Lemma traversec_other_path (srcs : list moisture_source) (w w' : world)
    (r : result (list (list (list Q)))) (path : string) :
  traversec (moisture_matrix_of self) srcs w = (r, w') ->
  ~ In path (map npy_path srcs) ->
  files w' !! path = files w !! path.
Proof.
  revert w w' r. induction srcs as [|src srcs IH]; intros w w' r H Hnotin.
  - cbn [traversec] in H. unfold ret in H. injection H as <- <-. reflexivity.
  - cbn [traversec] in H. unfold bindc at 1 in H.
    destruct (moisture_matrix_of self src w) as [[m|e] w1] eqn:E.
    + destruct (moisture_matrix_of_other_path src w w1 _ path E) as [Hf _].
      { intros Heq. apply Hnotin. left. symmetry. exact Heq. }
      unfold bindc at 1 in H.
      destruct (traversec (moisture_matrix_of self) srcs w1) as [[ms|e] w2] eqn:E'.
      * unfold ret in H. injection H as <- <-.
        rewrite <- Hf. eapply IH; [exact E'|].
        intros Hin. apply Hnotin. right. exact Hin.
      * injection H as <- <-.
        rewrite <- Hf. eapply IH; [exact E'|].
        intros Hin. apply Hnotin. right. exact Hin.
    + injection H as <- <-.
      destruct (moisture_matrix_of_other_path src w w1 _ path E) as [Hf _];
        [|exact Hf].
      intros Heq. apply Hnotin. left. symmetry. exact Heq.
Qed.

(** After a run from a directory without the files, every source has its
    field in its file. *)
Lemma traversec_fresh_files (srcs : list moisture_source) (w w' : world)
    (ms : list (list (list Q))) :
  NoDup (map npy_path srcs) ->
  (forall src, In src srcs -> files w !! npy_path src = None) ->
  traversec (moisture_matrix_of self) srcs w = (Ok ms, w') ->
  Forall2 (fun src m => files w' !! npy_path src = Some (Npy m)) srcs ms.
Proof.
  revert w w' ms. induction srcs as [|src srcs IH]; intros w w' ms Hnd Habsent H.
  - cbn [traversec] in H. unfold ret in H. injection H as <- _. constructor.
  - cbn [traversec] in H. unfold bindc at 1 in H.
    destruct (moisture_matrix_of self src w) as [[m|e] w1] eqn:E; [|discriminate].
    destruct (moisture_matrix_of_fresh self src w w1 m
                (Habsent src (or_introl eq_refl)) E) as [_ Hfiles].
    unfold bindc at 1 in H.
    destruct (traversec (moisture_matrix_of self) srcs w1) as [[ms'|e] w2] eqn:E';
      [|discriminate].
    unfold ret in H. injection H as <- <-.
    cbn [map] in Hnd. apply NoDup_cons in Hnd. destruct Hnd as [Hnotin Hnd].
    constructor.
    + rewrite (traversec_other_path srcs w1 w2 _ (npy_path src) E').
      * rewrite Hfiles. apply lookup_insert_eq.
      * intros Hin. apply Hnotin. apply list_elem_of_In. exact Hin.
    + apply (IH w1 w2 ms' Hnd); [|exact E'].
      intros src' Hin. rewrite Hfiles. rewrite lookup_insert_ne.
      * apply Habsent. right. exact Hin.
      * intros Heq. apply Hnotin. rewrite Heq.
        apply list_elem_of_In. apply in_map. exact Hin.
Qed.

(** With every field in its file, the loop loads them and writes nothing. *)
Lemma traversec_cached (srcs : list moisture_source) (w : world)
    (ms : list (list (list Q))) :
  Forall2 (fun src m => files w !! npy_path src = Some (Npy m)) srcs ms ->
  traversec (moisture_matrix_of self) srcs w = (Ok ms, w).
Proof.
  induction 1 as [|src m srcs ms Hsrc _ IH]; [reflexivity|].
  cbn [traversec]. unfold bindc at 1.
  assert (E : moisture_matrix_of self src w = (Ok m, w)).
  { unfold moisture_matrix_of, bindc. cbv zeta. fold (npy_path src).
    rewrite (path_exists_present _ _ _ Hsrc). unfold np_load.
    rewrite Hsrc. reflexivity. }
  rewrite E. unfold bindc at 1. rewrite IH. reflexivity.
Qed.

(** The moisture field is computed once: after a run that generated the
    field of every source (one file name per source, no file beforehand),
    a second run on the directory it left returns the same field, read from
    the files, and changes nothing. *)
Theorem moisture_field_reload (w w' : world) (field : list (list Q)) :
  NoDup (map npy_path (moisture_sources self)) ->
  (forall src, In src (moisture_sources self) -> files w !! npy_path src = None) ->
  moisture_source_matrix_unique self w = (Ok field, w') ->
  moisture_source_matrix_unique self w' = (Ok field, w').
Proof.
  intros Hnd Habsent H.
  unfold moisture_source_matrix_unique, bindc in *.
  destruct (traversec (moisture_matrix_of self) (moisture_sources self) w)
    as [[ms|e] w1] eqn:E; [|discriminate].
  unfold lift in H. injection H as H <-.
  rewrite (traversec_cached _ _ _ (traversec_fresh_files _ _ _ _ Hnd Habsent E)).
  unfold lift. rewrite H. reflexivity.
Qed.

(** A field found in the file of a source is taken as it is: with a single
    source whose file exists, the accessor returns the array of the file,
    whatever the wind and the geometry are. *)
Theorem cached_field_returned_unchecked (src : moisture_source) (w : world)
    (a : list (list Q)) :
  moisture_sources self = [src] ->
  files w !! npy_path src = Some (Npy a) ->
  moisture_source_matrix_unique self w = (Ok a, w).
Proof.
  intros Hsrc Hfile.
  unfold moisture_source_matrix_unique, bindc. rewrite Hsrc.
  rewrite (traversec_cached [src] w [a]); [reflexivity|].
  constructor; [exact Hfile|constructor].
Qed.

End FieldFiles.

Lemma moisture_field_reload_witness :
  exists field w',
    Spatial.moisture_source_matrix_unique pond_site fresh_directory = (Ok field, w') /\
    Spatial.moisture_source_matrix_unique pond_site w' = (Ok field, w').
Proof.
  destruct (Spatial.moisture_source_matrix_unique pond_site fresh_directory)
    as [[field|e] w'] eqn:E; [|vm_compute in E; discriminate].
  exists field, w'. split; [reflexivity|].
  exact (moisture_field_reload pond_site fresh_directory w' field
           (proj1 pond_site_fresh) (proj2 pond_site_fresh) E).
Defined.

Section AccessorChains.
Import Moisture Spatial.

Variable parse_moisture_sources : string -> result (list moisture_source).
Variable moisture_evaporative_cooling_effect :
  Q -> Q -> list cell -> Q -> list cell * list cell.
Variable universal_thermal_climate_index : Q -> Q -> Q -> Q -> Q.
Variable self : SpatialComfortResult.

Lemma mean_radiant_temperature_matrix_other_path (w w' : world)
    (r : result frame) (path : string) :
  mean_radiant_temperature_matrix self w = (r, w') ->
  path <> "mean_radiant_temperature_matrix.h5"%string ->
  files w' !! path = files w !! path.
Proof.
  unfold mean_radiant_temperature_matrix, bindc, path_exists. cbv zeta.
  destruct (bool_decide _).
  - unfold read_hdf. destruct (files w !! _) as [[| |]|];
      intros H; injection H as <- <-; reflexivity.
  - unfold lift.
    destruct (Mrt._interpolate_between_unshaded_shaded _ _ _ _ _) as [m|e].
    + unfold to_hdf, write_file, ret. intros H Hne. injection H as <- <-.
      cbn [files]. apply lookup_insert_ne. congruence.
    + intros H. injection H as <- <-. reflexivity.
Qed.

Lemma wind_speed_matrix_other_path (w w' : world) (r : result frame)
    (path : string) :
  wind_speed_matrix self w = (r, w') ->
  path <> "mean_radiant_temperature_matrix.h5"%string ->
  path <> "wind_speed_matrix.h5"%string ->
  files w' !! path = files w !! path.
Proof.
  unfold wind_speed_matrix, broadcast, bindc. cbv zeta.
  destruct (mean_radiant_temperature_matrix self w) as [[mrt|e] w1] eqn:E.
  - unfold lift. destruct (DataFrame _ mrt) as [df|e].
    + unfold to_hdf, write_file, ret. intros H Hm Hw. injection H as <- <-.
      cbn [files]. rewrite lookup_insert_ne by congruence.
      eapply mean_radiant_temperature_matrix_other_path; eauto.
    + intros H Hm Hw. injection H as <- <-.
      eapply mean_radiant_temperature_matrix_other_path; eauto.
  - intros H Hm Hw. injection H as <- <-.
    eapply mean_radiant_temperature_matrix_other_path; eauto.
Qed.

(** For a site without moisture sources the matrix of the universal thermal
    climate index is never computed while the file of the dry-bulb
    temperature or the file of the relative humidity is missing: the
    accessor of the missing matrix returns no matrix, and the run ends in
    an exception. *)
Theorem utci_needs_cached_inputs (w : world) :
  moisture_sources self = [] ->
  files w !! "universal_thermal_climate_index_matrix.h5"%string = None ->
  files w !! "dry_bulb_temperature_matrix.h5"%string = None \/
  files w !! "relative_humidity_matrix.h5"%string = None ->
  exists e w',
    universal_thermal_climate_index_matrix moisture_evaporative_cooling_effect
      universal_thermal_climate_index self w = (Raise e, w').
Proof.
  intros Hsrc Hutci Hmissing.
  unfold universal_thermal_climate_index_matrix. cbv zeta.
  unfold bindc at 1. rewrite (path_exists_absent _ _ Hutci).
  unfold bindc at 1.
  destruct (dry_bulb_temperature_matrix moisture_evaporative_cooling_effect self w)
    as [[dbt|e] w1] eqn:Edbt; [|eauto].
  destruct (files w !! "dry_bulb_temperature_matrix.h5"%string) as [f|] eqn:Hd.
  2:{ rewrite (dry_bulb_temperature_matrix_no_sources _ self dbt w w1 Hsrc Hd Edbt).
      unfold bindc, values, raise. eauto. }
  destruct Hmissing as [Hm|Hrh]; [discriminate|].
  assert (Hw1 : w1 = w).
  { unfold dry_bulb_temperature_matrix, bindc in Edbt. cbv zeta in Edbt.
    rewrite (path_exists_present _ _ _ Hd) in Edbt.
    unfold read_hdf in Edbt. rewrite Hd in Edbt.
    destruct f; unfold ret in Edbt; injection Edbt as _ <-; reflexivity. }
  subst w1.
  unfold bindc at 1. destruct dbt as [dbt|]; [|unfold values, raise; eauto].
  unfold values at 1, ret at 1.
  unfold bindc at 1.
  destruct (mean_radiant_temperature_matrix self w) as [[mrt|e] w2] eqn:Emrt;
    [|eauto].
  unfold bindc at 1.
  destruct (wind_speed_matrix self w2) as [[ws|e] w3] eqn:Ews; [|eauto].
  assert (Hrh3 : files w3 !! "relative_humidity_matrix.h5"%string = None).
  { rewrite (wind_speed_matrix_other_path w2 w3 _ _ Ews) by discriminate.
    rewrite (mean_radiant_temperature_matrix_other_path w w2 _ _ Emrt)
      by discriminate.
    exact Hrh. }
  unfold bindc at 1.
  destruct (relative_humidity_matrix moisture_evaporative_cooling_effect self w3)
    as [[rh|e] w4] eqn:Erh; [|eauto].
  rewrite (relative_humidity_matrix_no_sources _ self rh w3 w4 Hsrc Hrh3 Erh).
  unfold bindc, values, raise. eauto.
Qed.

(** When [moisture_sources.json] is there, no warning is issued and the
    directory is left as it is: a file that holds no source raises
    [ValueError] (only a missing file gives the empty list), a file that
    holds sources returns them, and an error of the decoding other than
    [FileNotFoundError] is passed on. *)
Theorem load_moisture_sources_present (w : world) (text : string) :
  files w !! "moisture_sources.json"%string = Some (Json text) ->
  (parse_moisture_sources text = Ok [] ->
   _load_moisture_sources parse_moisture_sources w = (Raise ValueError, w)) /\
  (forall src srcs,
     parse_moisture_sources text = Ok (src :: srcs) ->
     _load_moisture_sources parse_moisture_sources w = (Ok (src :: srcs), w)) /\
  (forall e,
     parse_moisture_sources text = Raise e -> e <> FileNotFoundError ->
     _load_moisture_sources parse_moisture_sources w = (Raise e, w)).
Proof.
  intros Hfile. unfold _load_moisture_sources, from_json. cbv zeta.
  rewrite Hfile. repeat split.
  - intros ->. reflexivity.
  - intros src srcs ->. reflexivity.
  - intros e -> Hne. destruct e; try reflexivity. congruence.
Qed.

(** Without moisture sources, and unless both files are there already,
    [spatial_moisture_properties] returns the weather series repeated per
    point: every cell of hour [h] of the first matrix is the dry-bulb
    temperature of hour [h], every cell of hour [h] of the second the
    relative humidity of hour [h], and each matrix has one row per hour of
    its series. *)
Theorem spatial_moisture_properties_broadcast (w w' : world) (dbt rh : frame) :
  moisture_sources self = [] ->
  files w !! "dry_bulb_temperature_matrix.h5"%string = None \/
  files w !! "relative_humidity_matrix.h5"%string = None ->
  spatial_moisture_properties moisture_evaporative_cooling_effect self w
  = (Ok (dbt, rh), w') ->
  length dbt = length (dry_bulb_temperature self) /\
  length rh = length (relative_humidity self) /\
  (forall h p c, cell_at dbt h p = Some c ->
     exists v, nth_error (dry_bulb_temperature self) h = Some v /\ c = Some v) /\
  (forall h p c, cell_at rh h p = Some c ->
     exists v, nth_error (relative_humidity self) h = Some v /\ c = Some v).
Proof.
  intros Hsrc Hmissing H.
  unfold spatial_moisture_properties in H. cbv zeta in H.
  unfold bindc at 1 in H. unfold path_exists at 1 in H.
  unfold bindc at 1 in H. unfold path_exists at 1 in H.
  assert (Eb : bool_decide (is_Some (files w !! "dry_bulb_temperature_matrix.h5"%string))
               && bool_decide (is_Some (files w !! "relative_humidity_matrix.h5"%string))
               = false).
  { apply andb_false_iff. destruct Hmissing as [Hm|Hm]; [left|right];
      apply bool_decide_eq_false_2; rewrite Hm; intros [? ?]; discriminate. }
  rewrite Eb in H. rewrite Hsrc in H. cbn [length Nat.eqb] in H.
  unfold bindc at 1 in H. unfold bindc at 1 in H.
  destruct (broadcast self (dry_bulb_temperature self) w) as [[d|e] w1] eqn:Ed;
    [|discriminate].
  unfold bindc at 1 in H.
  destruct (broadcast self (relative_humidity self) w1) as [[r|e] w2] eqn:Er;
    [|discriminate].
  unfold ret at 1 in H.
  unfold bindc, to_hdf, write_file, ret in H. cbn [fst snd] in H.
  injection H as <- <- _.
  destruct (broadcast_cells self _ _ _ _ Ed) as [_ [_ [Hd1 [_ [_ Hd2]]]]].
  destruct (broadcast_cells self _ _ _ _ Er) as [_ [_ [Hr1 [_ [_ Hr2]]]]].
  repeat split; assumption.
Qed.

End AccessorChains.

Lemma utci_needs_cached_inputs_witness :
  exists e w',
    Spatial.universal_thermal_climate_index_matrix (fun _ _ ms _ => (ms, ms))
      (fun ta _ _ _ => ta) site fresh_directory = (Raise e, w').
Proof.
  apply (utci_needs_cached_inputs (fun _ _ ms _ => (ms, ms)) (fun ta _ _ _ => ta)
           site fresh_directory).
  - reflexivity.
  - apply lookup_empty.
  - left. apply lookup_empty.
Defined.

Lemma load_moisture_sources_present_witness :
  Spatial._load_moisture_sources (fun _ => Ok [])
    {| files := {["moisture_sources.json"%string := Json "[]"]};
       warnings_log := [] |}
  = (Raise ValueError,
     {| files := {["moisture_sources.json"%string := Json "[]"]};
        warnings_log := [] |}).
Proof.
  refine (proj1 (load_moisture_sources_present (fun _ => Ok [])
                   {| files := {["moisture_sources.json"%string := Json "[]"]};
                      warnings_log := [] |} "[]" _) _).
  - apply lookup_singleton_eq.
  - reflexivity.
Defined.

Lemma spatial_moisture_properties_broadcast_witness :
  exists dbt rh w',
    Spatial.spatial_moisture_properties (fun _ _ ms _ => (ms, ms)) site
      fresh_directory = (Ok (dbt, rh), w') /\
    length dbt = length (Spatial.dry_bulb_temperature site).
Proof.
  destruct (Spatial.spatial_moisture_properties (fun _ _ ms _ => (ms, ms)) site
              fresh_directory) as [[[dbt rh]|e] w'] eqn:E;
    [|vm_compute in E; discriminate].
  exists dbt, rh, w'. split; [reflexivity|].
  apply (spatial_moisture_properties_broadcast (fun _ _ ms _ => (ms, ms)) site
           fresh_directory w' dbt rh); [reflexivity|left; apply lookup_empty|exact E].
Defined.

(** ** Helpers *)
Section Chunks.
Import helpers.

Lemma firstn_add_skipn {A : Type} (l : list A) (a b : nat) :
  firstn (a + b) l = firstn a l ++ firstn b (skipn a l).
Proof.
  revert l. induction a as [|a IH]; intros l; [reflexivity|].
  destruct l as [|x l]; cbn [Nat.add firstn skipn app].
  - destruct b; reflexivity.
  - rewrite IH. reflexivity.
Qed.

Lemma concat_chunks {A : Type} (l : list A) (k n : nat) :
  concat (map (fun i => slice l i (i + k)) (map (fun j => (j * k)%nat) (seq 0 n)))
  = firstn (n * k) l.
Proof.
  induction n as [|n IH]; [reflexivity|].
  rewrite seq_S, !map_app, concat_app, IH. cbn [map concat Nat.add].
  rewrite app_nil_r. unfold slice.
  replace (n * k + k - n * k)%nat with k by lia.
  replace (S n * k)%nat with (n * k + k)%nat by lia.
  symmetry. apply firstn_add_skipn.
Qed.

(** For a positive chunk size the chunks are a partition of the list in
    order: put end to end they give the list back, none is empty or longer
    than the chunk size, and all but the last have exactly the chunk
    size. *)
Theorem chunks_partition {A : Type} (lst : list A) (chunksize : Z) :
  (0 < chunksize)%Z ->
  exists cs,
    chunks lst chunksize = Ok cs /\
    concat cs = lst /\
    (forall c, In c cs -> (0 < length c <= Z.to_nat chunksize)%nat) /\
    (forall i c, nth_error cs i = Some c -> (S i < length cs)%nat ->
                 length c = Z.to_nat chunksize).
Proof.
  intros Hk. unfold chunks, range0.
  destruct (chunksize =? 0)%Z eqn:E0; [apply Z.eqb_eq in E0; lia|].
  destruct (chunksize <? 0)%Z eqn:E1; [apply Z.ltb_lt in E1; lia|].
  cbv zeta. cbn [bind].
  set (k := Z.to_nat chunksize).
  assert (Hkpos : (0 < k)%nat) by (unfold k; lia).
  set (n := ((length lst + k - 1) / k)%nat).
  assert (Hn1 : (k * n <= length lst + k - 1)%nat)
    by (unfold n; apply Nat.Div0.mul_div_le).
  assert (Hn2 : (length lst + k - 1 < k * n + k)%nat).
  { unfold n. pose proof (Nat.div_mod_eq (length lst + k - 1) k) as Hdm.
    pose proof (Nat.mod_upper_bound (length lst + k - 1) k) as Hub. lia. }
  eexists. split; [reflexivity|].
  assert (Hchunk : forall j, (j < n)%nat ->
            (j * k < length lst)%nat /\
            ((S j < n)%nat -> (j * k + k <= length lst)%nat)).
  { intros j Hj. split; [nia|]. intros Hj'. nia. }
  assert (Hlen : forall j, length (slice lst (j * k) (j * k + k))
                           = Nat.min k (length lst - j * k)).
  { intros j. unfold slice. rewrite length_firstn, length_skipn.
    replace (j * k + k - j * k)%nat with k by lia. reflexivity. }
  split; [|split].
  - rewrite concat_chunks. apply firstn_all2. lia.
  - intros c Hc. apply in_map_iff in Hc. destruct Hc as [i [<- Hi]].
    apply in_map_iff in Hi. destruct Hi as [j [<- Hj]].
    apply in_seq in Hj. destruct (Hchunk j) as [H1 _]; [lia|].
    rewrite Hlen. lia.
  - intros i c Hc Hi. rewrite !length_map, length_seq in Hi.
    rewrite map_map in Hc. rewrite nth_error_map_seq in Hc by lia.
    injection Hc as <-. destruct (Hchunk i) as [_ H2]; [lia|].
    rewrite Hlen. specialize (H2 Hi). lia.
Qed.

(** A chunk size of zero raises [ValueError]; a negative one yields
    nothing, whatever the list. *)
Theorem chunks_without_positive_size {A : Type} (lst : list A) (chunksize : Z) :
  (chunksize <= 0)%Z ->
  chunks lst chunksize = (if (chunksize =? 0)%Z then Raise ValueError else Ok []).
Proof.
  intros Hk. unfold chunks, range0.
  destruct (chunksize =? 0)%Z eqn:E0; [reflexivity|].
  apply Z.eqb_neq in E0.
  destruct (chunksize <? 0)%Z eqn:E1; [reflexivity|].
  apply Z.ltb_ge in E1. lia.
Qed.

End Chunks.

Lemma chunks_partition_witness :
  exists cs, helpers.chunks [1; 2; 3; 4; 5; 6; 7]%nat 3 = Ok cs /\
             concat cs = [1; 2; 3; 4; 5; 6; 7]%nat.
Proof.
  assert (H : (0 < 3)%Z) by lia.
  destruct (chunks_partition [1; 2; 3; 4; 5; 6; 7]%nat 3 H) as [cs [H1 [H2 _]]].
  exists cs. split; assumption.
Defined.

Lemma chunks_without_positive_size_witness :
  helpers.chunks [1; 2; 3]%nat (-2) = Ok [].
Proof.
  apply (chunks_without_positive_size [1; 2; 3]%nat (-2)). lia.
Defined.

Section TimeseriesChecks.
Import helpers.

(** No series passes the annual check: the number of distinct days of the
    year cannot be 365 and 366 at once, so with [is_annual] set the
    function raises [ValueError] for every index. *)
Theorem validate_timeseries_annual_always_raises (index : list timestamp)
    (is_hourly is_contiguous : bool) :
  validate_timeseries index true is_hourly is_contiguous = Raise ValueError.
Proof.
  unfold validate_timeseries. cbn [andb].
  destruct (nunique (map day_of_year index) =? 365)%nat eqn:E1;
    [|reflexivity].
  apply Nat.eqb_eq in E1. rewrite E1. reflexivity.
Qed.

(** Without the annual check the function returns exactly when the checks
    asked for hold: 24 distinct hours of the day for [is_hourly], instants
    that never decrease for [is_contiguous]. *)
Theorem validate_timeseries_passes_iff (index : list timestamp)
    (is_hourly is_contiguous : bool) :
  validate_timeseries index false is_hourly is_contiguous = Ok tt <->
  (is_hourly = true -> nunique (map hour index) = 24%nat) /\
  (is_contiguous = true ->
   is_monotonic_increasing (map instant index) = true).
Proof.
  unfold validate_timeseries. cbn [andb].
  destruct (Nat.eqb_spec (nunique (map hour index)) 24) as [E1|E1];
    destruct (is_monotonic_increasing (map instant index)) eqn:E2;
    destruct is_hourly, is_contiguous; cbn [andb negb];
    (split;
     [intros H; first [discriminate H | split; intros; congruence]
     |intros [H1 H2]; first [reflexivity
                            | exfalso; apply E1; apply H1; reflexivity
                            | specialize (H2 eq_refl); discriminate H2]]).
Qed.

End TimeseriesChecks.

Section EvaporativeBounds.
Import helpers.

Variable wet_bulb_from_db_rh : Q -> Q -> Q -> Q.

(** For an effectiveness in [[0, 1]], a relative humidity in [[0, 100]] and
    a wet-bulb temperature that is not above the dry-bulb temperature, the
    result stays in the physical range whichever way the saturation guard
    goes: the adjusted temperature lies between the wet-bulb and the
    dry-bulb temperature, and the adjusted humidity between the humidity
    given and 100. *)
Theorem evaporative_cooling_effect_bounds (dbt rh e : Q) (p : option Q) :
  0 <= e <= 1 -> 0 <= rh <= 100 ->
  wet_bulb_from_db_rh dbt rh (pressure_or_default p) <= dbt ->
  let wbt := wet_bulb_from_db_rh dbt rh (pressure_or_default p) in
  let out := evaporative_cooling_effect wet_bulb_from_db_rh dbt rh e p in
  wbt <= fst out <= dbt /\
  rh <= snd out <= 100.
Proof.
  intros He Hrh Hwb wbt out. subst out. unfold evaporative_cooling_effect.
  fold (pressure_or_default p). fold wbt. fold wbt in Hwb.
  destruct (Qgtb (rh * (1 - e) + e * 100) 100) eqn:E; qbool; cbn [fst snd].
  - split; split; lra.
  - split; split; nra.
Qed.

(** The collection form refuses an effectiveness outside [[0, 1]].  Inside
    it, it returns for every hour the adjusted temperature and humidity
    without the saturation guard of [evaporative_cooling_effect]: the two
    functions agree at an hour exactly when the adjusted humidity of the
    hour is not above 100; where it is, [evaporative_cooling_effect]
    returns the wet-bulb temperature and 100, and the collection form the
    humidity above 100. *)
Theorem evaporative_cooling_effect_collection_agrees
    (dbts rhs atms : list Q) (e : Q) :
  ((e < 0 \/ 1 < e) ->
   evaporative_cooling_effect_collection wet_bulb_from_db_rh dbts rhs atms e
   = Raise ValueError) /\
  (0 <= e <= 1 ->
   exists new_dbts new_rhs,
     evaporative_cooling_effect_collection wet_bulb_from_db_rh dbts rhs atms e
     = Ok (new_dbts, new_rhs) /\
     forall h dbt rh atm,
       nth_error dbts h = Some dbt -> nth_error rhs h = Some rh ->
       nth_error atms h = Some atm ->
       let wbt := wet_bulb_from_db_rh dbt rh atm in
       let new_dbt := dbt - (dbt - wbt) * e in
       let new_rh := rh * (1 - e) + e * 100 in
       nth_error new_dbts h = Some new_dbt /\
       nth_error new_rhs h = Some new_rh /\
       (~ 100 < new_rh ->
        evaporative_cooling_effect wet_bulb_from_db_rh dbt rh e (Some atm)
        = (new_dbt, new_rh)) /\
       (100 < new_rh ->
        evaporative_cooling_effect wet_bulb_from_db_rh dbt rh e (Some atm)
        = (wbt, 100))).
Proof.
  unfold evaporative_cooling_effect_collection. split.
  - intros [H|H].
    + assert (E : Qltb e 0 = true) by (apply Qltb_lt; exact H).
      rewrite E, orb_true_r. reflexivity.
    + assert (E : Qgtb e 1 = true) by (apply Qgtb_gt; exact H).
      rewrite E. reflexivity.
  - intros He.
    assert (E1 : Qgtb e 1 = false) by (apply Qgtb_le; lra).
    assert (E2 : Qltb e 0 = false) by (apply Qltb_ge; lra).
    rewrite E1, E2. cbn [orb]. cbv zeta.
    eexists. eexists. split; [reflexivity|].
    intros h dbt rh atm Hd Hr Ha.
    assert (Hzip : forall (A B : Type) (l : list A) (l' : list B) i a b,
              nth_error l i = Some a -> nth_error l' i = Some b ->
              nth_error (combine l l') i = Some (a, b)).
    { intros A B l. induction l as [|x l IH]; intros [|y l'] [|i] a b H1 H2;
        try discriminate; cbn in *; [congruence|apply IH; assumption]. }
    assert (Hwbt : nth_error
              (map (fun x => wet_bulb_from_db_rh (fst x) (fst (snd x)) (snd (snd x)))
                   (combine dbts (combine rhs atms))) h
            = Some (wet_bulb_from_db_rh dbt rh atm)).
    { rewrite nth_error_map.
      rewrite (Hzip _ _ _ _ h dbt (rh, atm) Hd (Hzip _ _ _ _ h rh atm Hr Ha)).
      reflexivity. }
    split; [|split; [|split]].
    + rewrite nth_error_map. rewrite (Hzip _ _ _ _ h _ _ Hd Hwbt). reflexivity.
    + rewrite nth_error_map, Hr. reflexivity.
    + intros Hle. unfold evaporative_cooling_effect.
      assert (E : Qgtb (rh * (1 - e) + e * 100) 100 = false)
        by (apply Qgtb_le; lra).
      rewrite E. reflexivity.
    + intros Hgt. unfold evaporative_cooling_effect.
      assert (E : Qgtb (rh * (1 - e) + e * 100) 100 = true)
        by (apply Qgtb_gt; exact Hgt).
      rewrite E. reflexivity.
Qed.

End EvaporativeBounds.

Lemma evaporative_cooling_effect_bounds_witness :
  let out := helpers.evaporative_cooling_effect (fun d _ _ => d - 5) 20 50 (1 # 2) None in
  15 <= fst out <= 20 /\ 50 <= snd out <= 100.
Proof.
  assert (He : 0 <= 1 # 2 <= 1) by lra.
  assert (Hrh : 0 <= 50 <= 100) by lra.
  assert (Hwb : (fun d _ _ : Q => d - 5) 20 50 (pressure_or_default None) <= 20)
    by (vm_compute; discriminate).
  destruct (evaporative_cooling_effect_bounds (fun d _ _ => d - 5) 20 50 (1 # 2)
              None He Hrh Hwb) as [H1 H2].
  cbv zeta. split.
  - cbn beta in H1. split; [|apply H1].
    apply Qle_trans with (20 - 5); [lra|apply H1].
  - exact H2.
Defined.

Lemma evaporative_cooling_effect_collection_agrees_witness :
  exists new_dbts new_rhs,
    helpers.evaporative_cooling_effect_collection (fun d _ _ => d - 5)
      [20] [50] [101325] (1 # 2) = Ok (new_dbts, new_rhs) /\
    nth_error new_rhs 0 = Some (50 * (1 - (1 # 2)) + (1 # 2) * 100) /\
    helpers.evaporative_cooling_effect (fun d _ _ => d - 5) 20 50 (1 # 2)
      (Some 101325)
    = (20 - (20 - (20 - 5)) * (1 # 2), 50 * (1 - (1 # 2)) + (1 # 2) * 100).
Proof.
  assert (He : 0 <= 1 # 2 <= 1) by lra.
  destruct (proj2 (evaporative_cooling_effect_collection_agrees
                     (fun d _ _ => d - 5) [20] [50] [101325] (1 # 2)) He)
    as [new_dbts [new_rhs [Hok Hhours]]].
  exists new_dbts, new_rhs. split; [exact Hok|].
  destruct (Hhours 0%nat 20 50 101325 eq_refl eq_refl eq_refl)
    as [_ [Hrh [Hsame _]]].
  split; [exact Hrh|]. apply Hsame. vm_compute. discriminate.
Defined.

Section Decay.
Import Moisture helpers.

(** Within a positive maximum distance the linear decay runs from the full
    value at distance 0 down to 0 at the maximum distance and beyond: the
    result never leaves [[0, value]], never rises with the distance, and is
    never above what the parabolic decay gives at the same distance.  A
    method that is not a known one raises [ValueError].  The same holds of
    [_distribute], which computes the same. *)
Theorem proximity_decay_linear (value max_distance : Q) :
  0 <= value -> 0 < max_distance ->
  (forall d, exists v,
     proximity_decay value d max_distance linear = Ok v /\
     0 <= v <= value /\
     (d <= 0 -> v == value) /\
     (max_distance <= d -> v == 0) /\
     (0 <= d <= max_distance -> v == value * (1 - d / max_distance)) /\
     (forall u, proximity_decay value d max_distance parabolic = Ok u -> v <= u)) /\
  (forall d1 d2 v1 v2,
     d1 <= d2 ->
     proximity_decay value d1 max_distance linear = Ok v1 ->
     proximity_decay value d2 max_distance linear = Ok v2 ->
     v2 <= v1) /\
  (forall d name, proximity_decay value d max_distance (other name) = Raise ValueError) /\
  (forall d curve,
     _distribute value d max_distance curve = proximity_decay value d max_distance curve).
Proof.
  intros Hv Hm. split; [|split; [|split]].
  - intros d. eexists. split; [reflexivity|].
    pose proof (interp_unit_range d max_distance Hm) as Hn.
    destruct (interp_unit_cases d max_distance Hm) as [[? E]|[[? E]|[[? ?] E]]];
      cbv zeta in E; set (n := np.interp d 0 max_distance 0 1) in *.
    + split; [split; nra|]. split; [intros; nra|]. split; [intros; nra|].
      split.
      * intros [? ?]. assert (d == 0) by lra.
        assert (Hq : d / max_distance == 0) by (rewrite H2; field; lra). nra.
      * intros u Hu. cbn in Hu. injection Hu as <-. fold n. nra.
    + split; [split; nra|]. split; [intros; nra|]. split; [intros; nra|].
      split.
      * intros [? ?]. assert (Hd : d == max_distance) by lra.
        assert (Hq : d / max_distance == 1) by (rewrite Hd; field; lra). nra.
      * intros u Hu. cbn in Hu. injection Hu as <-. fold n. nra.
    + split; [split; nra|]. split; [intros; lra|]. split; [intros; lra|].
      split.
      * intros _. assert (Hq : d / max_distance == n).
        { rewrite <- E. field. lra. }
        rewrite Hq. ring.
      * intros u Hu. cbn in Hu. injection Hu as <-. fold n.
        assert (0 <= n * (1 - n)) by nra. nra.
  - intros d1 d2 v1 v2 Hd H1 H2. cbn in H1, H2.
    injection H1 as <-. injection H2 as <-.
    pose proof (interp_unit_mono d1 d2 max_distance Hm Hd). nra.
  - reflexivity.
  - intros d curve. destruct curve; reflexivity.
Qed.

End Decay.

Lemma proximity_decay_linear_witness :
  exists v, helpers.proximity_decay 8 5 10 Moisture.linear = Ok v /\ v == 8 * (1 - 5 / 10).
Proof.
  assert (Hv : 0 <= 8) by lra.
  assert (Hm : 0 < 10) by lra.
  destruct (proj1 (proximity_decay_linear 8 10 Hv Hm) 5)
    as [v [H1 [_ [_ [_ [H2 _]]]]]].
  exists v. split; [exact H1|]. apply H2. lra.
Defined.

Section DecayRateSmoother.
Import helpers.

Lemma diff_lt_length (prev : cell) (series : list cell) (thr : Q) :
  length (diff_lt prev series thr) = length series.
Proof.
  revert prev. induction series as [|x series IH]; intros prev; [reflexivity|].
  cbn [diff_lt length]. rewrite IH. reflexivity.
Qed.

Lemma diff_lt_true (series : list cell) (thr : Q) (prev : cell) (j : nat) :
  nth_error (diff_lt prev series thr) j = Some true <->
  (j = O /\ exists a b, prev = Some a /\ nth_error series O = Some (Some b) /\
                        b - a < thr) \/
  transition_at series thr j.
Proof.
  revert prev j. induction series as [|x series IH]; intros prev j.
  - cbn [diff_lt]. split.
    + destruct j; discriminate.
    + intros [[_ [a [b [_ [H _]]]]]|[j' [a [b [_ [_ [H _]]]]]]];
        [discriminate|destruct j; discriminate].
  - cbn [diff_lt]. destruct j as [|j]; cbn [nth_error].
    + split.
      * intros H. injection H as H. left. split; [reflexivity|].
        destruct prev as [a|]; [|discriminate]. destruct x as [b|]; [|discriminate].
        exists a, b. repeat split. apply Qltb_lt. exact H.
      * intros [[_ [a [b [-> [Hb Hlt]]]]]|[j' [a [b [Hj _]]]]]; [|discriminate].
        injection Hb as ->. f_equal. apply Qltb_lt. exact Hlt.
    + rewrite IH. split.
      * intros [[-> [a [b [-> [Hb Hlt]]]]]|[j' [a [b [-> [Ha [Hb Hlt]]]]]]].
        -- right. exists O, a, b. repeat split; assumption.
        -- right. exists (S j'), a, b. repeat split; assumption.
      * intros [[Hj _]|[j' [a [b [Hj [Ha [Hb Hlt]]]]]]]; [discriminate|].
        injection Hj as ->. cbn [nth_error] in Hb.
        destruct j' as [|j'].
        -- left. split; [reflexivity|]. cbn [nth_error] in Ha. injection Ha as ->.
           exists a, b. repeat split; assumption.
        -- right. exists j', a, b. cbn [nth_error] in Ha. repeat split; assumption.
Qed.

Lemma ewm_mask_from_nth (flags : list bool) (W : Z) (n i : nat) :
  (i < length flags)%nat ->
  exists m,
    nth_error (ewm_mask_from n flags W) i = Some m /\
    (m = true <->
     (Z.of_nat (n + i) < W)%Z \/
     exists j, (j <= i)%nat /\ nth_error flags j = Some true /\
               (Z.of_nat (i - j) < W)%Z).
Proof.
  revert n i. induction flags as [|f flags IH]; intros n i Hi; [cbn in Hi; lia|].
  cbn [ewm_mask_from]. destruct i as [|i]; cbn [nth_error].
  - eexists. split; [reflexivity|]. rewrite Z.ltb_lt. destruct f.
    + split.
      * intros H. right. exists O. repeat split; [lia|exact H].
      * intros [H|[j [Hj [_ H]]]]; [lia|]. assert (j = O) by lia. subst j. exact H.
    + split.
      * intros H. left. rewrite Nat.add_0_r. exact H.
      * intros [H|[j [Hj [Hf _]]]]; [rewrite Nat.add_0_r in H; exact H|].
        assert (j = O) by lia. subst j. discriminate.
  - destruct (IH (S (if f then O else n)) i) as [m [Hm Hiff]];
      [cbn in Hi; lia|].
    exists m. split; [exact Hm|]. rewrite Hiff. split.
    + intros [H|[j [Hj [Hf H]]]].
      * destruct f.
        -- right. exists O. repeat split; [lia|]. cbn [Nat.sub]. lia.
        -- left. lia.
      * right. exists (S j). repeat split; [lia|exact Hf|exact H].
    + intros [H|[j [Hj [Hf H]]]].
      * left. destruct f; lia.
      * destruct j as [|j].
        -- cbn [nth_error] in Hf. injection Hf as ->. left. cbn [Nat.sub] in H. lia.
        -- right. exists j. repeat split; [lia|exact Hf|exact H].
Qed.

Lemma ewm_from_length (alpha : Q) (st : cell * Q) (l : list cell) :
  length (pd.ewm_from alpha st l) = length l.
Proof.
  revert st. induction l as [|x l IH]; intros st; [reflexivity|].
  cbn [pd.ewm_from length]. rewrite IH. reflexivity.
Qed.

Lemma where_series_nth (smoothed series : list cell) (mask : list bool)
    (h : nat) (s x : cell) (m : bool) :
  nth_error smoothed h = Some s -> nth_error mask h = Some m ->
  nth_error series h = Some x ->
  nth_error (where_series smoothed mask series) h = Some (if m then s else x).
Proof.
  revert mask series h.
  induction smoothed as [|s0 smoothed IH];
    intros [|m0 mask] [|x0 series] [|h] H1 H2 H3;
    cbn [nth_error where_series] in *; try discriminate.
  - injection H1 as <-. injection H2 as <-. injection H3 as <-. reflexivity.
  - apply IH; assumption.
Qed.

(** The smoother replaces a value by the exponentially weighted mean
    exactly in the first [transition_window] hours of the series and in the
    [transition_window] hours that start at a transition; every other hour
    keeps its value. *)
Theorem decay_rate_smoother_window (series out : list cell) (thr : Q) (W : Z)
    (span : Q) :
  decay_rate_smoother series thr W span = Ok out ->
  forall h x,
    nth_error series h = Some x ->
    (((Z.of_nat h < W)%Z \/
      exists j, (j <= h)%nat /\ transition_at series thr j /\
                (Z.of_nat (h - j) < W)%Z) ->
     nth_error out h = nth_error (pd.ewm_mean span series) h) /\
    (((W <= Z.of_nat h)%Z /\
      forall j, (j <= h)%nat -> transition_at series thr j ->
                (W <= Z.of_nat (h - j))%Z) ->
     nth_error out h = Some x).
Proof.
  unfold decay_rate_smoother. cbv zeta.
  destruct (Qltb span 1); [discriminate|].
  intros H h x Hx. injection H as <-.
  assert (Hh : (h < length series)%nat) by (apply nth_error_Some; congruence).
  destruct (ewm_mask_from_nth (diff_lt None series thr) W O h) as [m [Hm Hiff]];
    [rewrite diff_lt_length; exact Hh|].
  assert (Hs : exists s, nth_error (pd.ewm_mean span series) h = Some s).
  { destruct (nth_error (pd.ewm_mean span series) h) as [s|] eqn:E; [eauto|].
    apply nth_error_None in E. unfold pd.ewm_mean in E.
    rewrite ewm_from_length in E. lia. }
  destruct Hs as [s Hs].
  rewrite (where_series_nth _ _ _ h s x m Hs Hm Hx).
  assert (Hflag : forall j, nth_error (diff_lt None series thr) j = Some true
                            <-> transition_at series thr j).
  { intros j. rewrite diff_lt_true. split; [|right; assumption].
    intros [[_ [a [b [Hn _]]]]|Ht]; [discriminate|exact Ht]. }
  split.
  - intros Hin. assert (Em : m = true).
    { apply Hiff. destruct Hin as [Hlt|[j [Hj [Ht Hlt]]]].
      - left. exact Hlt.
      - right. exists j. repeat split; [exact Hj|apply Hflag, Ht|exact Hlt]. }
    rewrite Em, Hs. reflexivity.
  - intros [Hge Hnone]. destruct m; [|reflexivity]. exfalso.
    destruct (proj1 Hiff eq_refl) as [Hlt|[j [Hj [Hf Hlt]]]].
    + cbn [Nat.add] in Hlt. lia.
    + apply Hflag in Hf. specialize (Hnone j Hj Hf). lia.
Qed.

End DecayRateSmoother.

Lemma decay_rate_smoother_window_witness :
  exists out,
    helpers.decay_rate_smoother (map Some [30; 30; 10; 10; 10; 10; 10]) (-10) 4 (5 # 4)
    = Ok out /\
    nth_error out 1
    = nth_error (pd.ewm_mean (5 # 4) (map Some [30; 30; 10; 10; 10; 10; 10])) 1.
Proof.
  destruct (helpers.decay_rate_smoother (map Some [30; 30; 10; 10; 10; 10; 10])
              (-10) 4 (5 # 4)) as [out|e] eqn:E; [|vm_compute in E; discriminate].
  exists out. split; [reflexivity|].
  apply (decay_rate_smoother_window _ out (-10) 4 (5 # 4) E 1%nat (Some 30));
    [reflexivity|].
  left. lia.
Defined.

Section Cardinality.
Import helpers.

Lemma cardinal_directions_some (d : Z) (names : list string) :
  cardinal_directions d = Some names ->
  (d = 4%Z /\ names = cardinal_directions_4) \/
  (d = 8%Z /\ names = cardinal_directions_8) \/
  (d = 16%Z /\ names = cardinal_directions_16) \/
  (d = 32%Z /\ names = cardinal_directions_32).
Proof.
  unfold cardinal_directions.
  destruct (Z.eqb_spec d 4); [intros H; injection H as <-; auto|].
  destruct (Z.eqb_spec d 8); [intros H; injection H as <-; auto|].
  destruct (Z.eqb_spec d 16); [intros H; injection H as <-; auto|].
  destruct (Z.eqb_spec d 32); [intros H; injection H as <-; auto 6|].
  discriminate.
Qed.

(** Every name of the four compass roses comes back from its own angle:
    the angle that [angle_from_cardinal] gives a name is binned by
    [cardinality] to that name, in every rose that has the name. *)
Theorem cardinality_of_cardinal_angle (d : Z) (names : list string) (c : string) :
  cardinal_directions d = Some names ->
  In c names ->
  exists a, angle_from_cardinal c = Ok a /\ cardinality a d = Ok c.
Proof.
  intros Hd Hin.
  destruct (cardinal_directions_some d names Hd)
    as [[-> ->]|[[-> ->]|[[-> ->]|[-> ->]]]];
    unfold cardinal_directions_4, cardinal_directions_8, cardinal_directions_16,
      cardinal_directions_32 in Hin;
    repeat (destruct Hin as [<-|Hin];
            [eexists; split; vm_compute; reflexivity|]);
    destruct Hin.
Qed.

Lemma int_of_nonneg (x : Q) :
  0 <= x -> inject_Z (int_of x) <= x /\ x < inject_Z (int_of x) + 1.
Proof.
  intros Hx. unfold int_of. destruct x as [num den]. cbn [Qnum Qden].
  assert (Hn : (0 <= num)%Z).
  { unfold Qle in Hx. cbn in Hx. lia. }
  rewrite Z.quot_div_nonneg by lia.
  change (num / Z.pos den)%Z with (Qfloor (num # den)).
  split; [apply Qfloor_le|].
  pose proof (Qlt_floor (num # den)) as H.
  rewrite inject_Z_plus in H. exact H.
Qed.

Tactic Notation "bin_cases" ident(n) integer(k) :=
  do k (destruct n as [|n];
        [match goal with
         | Hc : _ = Ok _ |- _ => vm_compute in Hc; injection Hc as <-
         end;
         match goal with
         | H : context [inject_Z (Z.of_nat ?m)] |- _ =>
             let v := eval vm_compute in (inject_Z (Z.of_nat m)) in
             change (inject_Z (Z.of_nat m)) with v in *
         end;
         eexists; split; [vm_compute; reflexivity|];
         match goal with
         | Ew : 180 / _ == _ |- _ => rewrite Ew
         end;
         match goal with
         | Hs : context [angular_separation ?a _] |- angular_separation ?a ?b <= _ =>
             idtac
         | |- angular_separation ?a ?b <= _ =>
             let Hsep := fresh "Hsep" in
             assert (Hb : 0 <= b <= 360) by (split; vm_compute; discriminate);
             match goal with
             | Ha : 0 <= a <= 360 |- _ =>
                 pose proof (angular_separation_cases a b Ha Hb) as Hsep;
                 cbv zeta in Hsep;
                 destruct Hsep as [[? [? ->]]|[[? [? ->]]|[[? [? ->]]|[? [? ->]]]]];
                 lra
             end
         end|]).

Lemma cardinality_bin (a : Q) (d : Z) (scale : Q) :
  0 <= a <= 360 ->
  (0 < d)%Z ->
  a / (360 / inject_Z d) + (1 # 2) == a * scale + (1 # 2) ->
  0 <= scale ->
  exists n : nat,
    int_of (a / (360 / inject_Z d) + (1 # 2)) = Z.of_nat n /\
    inject_Z (Z.of_nat n) <= a * scale + (1 # 2) /\
    a * scale + (1 # 2) < inject_Z (Z.of_nat n) + 1.
Proof.
  intros Ha Hd Hx Hs.
  remember (a / (360 / inject_Z d) + (1 # 2)) as x eqn:Ex.
  assert (H0 : 0 <= x) by (rewrite Hx; nra).
  destruct (int_of_nonneg x H0) as [H1 H2].
  remember (int_of x) as v eqn:Ev.
  assert (Hv : (0 <= v)%Z).
  { destruct (Z.lt_ge_cases v 0) as [Hneg|Hpos]; [|exact Hpos].
    exfalso. assert (Hle : (v + 1 <= 0)%Z) by lia.
    rewrite Zle_Qle, inject_Z_plus in Hle.
    change (inject_Z 1) with 1 in Hle. change (inject_Z 0) with 0 in Hle. lra. }
  exists (Z.to_nat v). rewrite Z2Nat.id by exact Hv.
  split; [reflexivity|]. rewrite <- Hx. split; assumption.
Qed.

(** The name that [cardinality] gives an angle is never further from the
    angle than half a bin: with [b] the angle of the name, the angle and
    [b] are at most [180 / directions] degrees apart, the short way round
    across north. *)
Theorem cardinality_within_half_bin (a : Q) (d : Z) (c : string) :
  cardinality a d = Ok c ->
  exists b,
    angle_from_cardinal c = Ok b /\
    angular_separation a b <= 180 / inject_Z d.
Proof.
  unfold cardinality.
  destruct (Qgtb a 360 || Qltb a 0) eqn:Er; [discriminate|].
  apply orb_false_iff in Er. destruct Er as [Er1 Er2]. qbool.
  assert (Ha : 0 <= a <= 360) by lra.
  destruct (cardinal_directions d) as [names|] eqn:Hd; [|discriminate].
  cbv zeta.
  destruct (cardinal_directions_some d names Hd)
    as [[-> ->]|[[-> ->]|[[-> ->]|[-> ->]]]].
  - destruct (cardinality_bin a 4 (1 # 90) Ha)
      as [n [-> [Hlo Hhi]]]; [lia|field|lra|].
    assert (Hn : (n <= 4)%nat).
    { destruct (Nat.le_gt_cases n 4) as [H|H]; [exact H|]. exfalso.
      assert (Hz : (5 <= Z.of_nat n)%Z) by lia. rewrite Zle_Qle in Hz.
      change (inject_Z 5) with 5 in Hz. lra. }
    assert (Ew : 180 / inject_Z 4 == 45) by reflexivity.
    intros Hc. bin_cases n 5. lia.
  - destruct (cardinality_bin a 8 (1 # 45) Ha)
      as [n [-> [Hlo Hhi]]]; [lia|field|lra|].
    assert (Hn : (n <= 8)%nat).
    { destruct (Nat.le_gt_cases n 8) as [H|H]; [exact H|]. exfalso.
      assert (Hz : (9 <= Z.of_nat n)%Z) by lia. rewrite Zle_Qle in Hz.
      change (inject_Z 9) with 9 in Hz. lra. }
    assert (Ew : 180 / inject_Z 8 == 45 # 2) by reflexivity.
    intros Hc. bin_cases n 9. lia.
  - destruct (cardinality_bin a 16 (2 # 45) Ha)
      as [n [-> [Hlo Hhi]]]; [lia|field|lra|].
    assert (Hn : (n <= 16)%nat).
    { destruct (Nat.le_gt_cases n 16) as [H|H]; [exact H|]. exfalso.
      assert (Hz : (17 <= Z.of_nat n)%Z) by lia. rewrite Zle_Qle in Hz.
      change (inject_Z 17) with 17 in Hz. lra. }
    assert (Ew : 180 / inject_Z 16 == 45 # 4) by reflexivity.
    intros Hc. bin_cases n 17. lia.
  - destruct (cardinality_bin a 32 (4 # 45) Ha)
      as [n [-> [Hlo Hhi]]]; [lia|field|lra|].
    assert (Hn : (n <= 32)%nat).
    { destruct (Nat.le_gt_cases n 32) as [H|H]; [exact H|]. exfalso.
      assert (Hz : (33 <= Z.of_nat n)%Z) by lia. rewrite Zle_Qle in Hz.
      change (inject_Z 33) with 33 in Hz. lra. }
    assert (Ew : 180 / inject_Z 32 == 45 # 8) by reflexivity.
    intros Hc. bin_cases n 33. lia.
Qed.

End Cardinality.

Lemma cardinality_of_cardinal_angle_witness :
  exists a, helpers.angle_from_cardinal "NNE" = Ok a /\
            helpers.cardinality a 16 = Ok "NNE"%string.
Proof.
  apply (cardinality_of_cardinal_angle 16 helpers.cardinal_directions_16 "NNE").
  - reflexivity.
  - vm_compute. tauto.
Defined.

Lemma cardinality_within_half_bin_witness :
  exists b, helpers.angle_from_cardinal "E" = Ok b /\
            angular_separation 100 b <= 180 / inject_Z 8.
Proof.
  apply (cardinality_within_half_bin 100 8 "E"). reflexivity.
Defined.

Section Sanitise.
Import helpers.

Lemma keep_character_not_space (c : ascii) :
  keep_character c = true -> is_space c = false.
Proof.
  destruct c as [[] [] [] [] [] [] [] []]; vm_compute; intros H;
    first [reflexivity | discriminate H].
Qed.

Lemma rstrip_without_space (s : string) :
  (forall c, In c (String.list_ascii_of_string s) -> is_space c = false) ->
  rstrip s = s.
Proof.
  induction s as [|c s IH]; intros Hall; [reflexivity|].
  cbn [rstrip]. rewrite IH by (intros c' Hc'; apply Hall; right; exact Hc').
  destruct s as [|c' s'].
  - rewrite (Hall c (or_introl eq_refl)). reflexivity.
  - reflexivity.
Qed.

Lemma re_sub_underscore_kept (s : string) (c : ascii) :
  In c (String.list_ascii_of_string (re_sub_underscore s)) -> keep_character c = true.
Proof.
  induction s as [|a s IH]; intros Hin; [destruct Hin|].
  cbn [re_sub_underscore String.list_ascii_of_string] in Hin.
  destruct Hin as [<-|Hin]; [|apply IH, Hin].
  destruct (keep_character a) eqn:E; [exact E|reflexivity].
Qed.

Lemma re_sub_underscore_length (s : string) :
  String.length (re_sub_underscore s) = String.length s.
Proof.
  induction s as [|a s IH]; [reflexivity|].
  cbn [re_sub_underscore String.length]. rewrite IH. reflexivity.
Qed.

Lemma replace_double_underscore_step (c c' : ascii) (s : string) :
  replace_double_underscore (String c (String c' s))
  = if Ascii.eqb c "_" && Ascii.eqb c' "_"
    then String "_" (replace_double_underscore s)
    else String c (replace_double_underscore (String c' s)).
Proof. reflexivity. Qed.

Lemma replace_double_underscore_facts (n : nat) (s : string) :
  (String.length s <= n)%nat ->
  (forall c, In c (String.list_ascii_of_string (replace_double_underscore s)) ->
             In c (String.list_ascii_of_string s)) /\
  (String.length (replace_double_underscore s) <= String.length s)%nat /\
  (s <> EmptyString -> replace_double_underscore s <> EmptyString).
Proof.
  revert s. induction n as [|n IH]; intros s Hn.
  - destruct s; [|cbn in Hn; lia]. cbn. repeat split; auto.
  - destruct s as [|c [|c' s'']].
    + cbn. repeat split; auto.
    + cbn. repeat split; auto.
    + rewrite replace_double_underscore_step.
      destruct (Ascii.eqb c "_" && Ascii.eqb c' "_") eqn:E.
      * destruct (IH s'') as [H1 [H2 _]]; [cbn in Hn; lia|].
        split; [|split].
        -- intros x [<-|Hx].
           ++ apply andb_true_iff in E. destruct E as [E _].
              apply Ascii.eqb_eq in E. left. exact E.
           ++ right; right. apply H1, Hx.
        -- cbn [String.length] in *. lia.
        -- discriminate.
      * destruct (IH (String c' s'')) as [H1 [H2 _]]; [cbn in Hn |- *; lia|].
        split; [|split].
        -- intros x [<-|Hx]; [left; reflexivity|right; apply H1, Hx].
        -- cbn [String.length] in *. lia.
        -- discriminate.
Qed.

(** What [sanitise_string] returns holds only characters of
    [.A-Za-z0-9_-], is not longer than what it was given, and is empty only
    for the empty string.  The final [rstrip] never removes anything: white
    space has become underscores by then. *)
Theorem sanitise_string_path_safe (s : string) :
  (forall c, In c (String.list_ascii_of_string (sanitise_string s)) ->
             keep_character c = true) /\
  (String.length (sanitise_string s) <= String.length s)%nat /\
  (s <> EmptyString -> sanitise_string s <> EmptyString) /\
  sanitise_string s = replace_double_underscore (re_sub_underscore s).
Proof.
  destruct (replace_double_underscore_facts (String.length (re_sub_underscore s))
              (re_sub_underscore s) (Nat.le_refl _)) as [H1 [H2 H3]].
  assert (Hkeep : forall c,
            In c (String.list_ascii_of_string
                    (replace_double_underscore (re_sub_underscore s))) ->
            keep_character c = true).
  { intros c Hc. apply (re_sub_underscore_kept s). apply H1, Hc. }
  assert (E : sanitise_string s = replace_double_underscore (re_sub_underscore s)).
  { unfold sanitise_string. apply rstrip_without_space.
    intros c Hc. apply keep_character_not_space, Hkeep, Hc. }
  rewrite E. split; [exact Hkeep|]. split; [|split; [|reflexivity]].
  - rewrite re_sub_underscore_length in H2. exact H2.
  - intros Hne. apply H3. destruct s; [congruence|discriminate].
Qed.

End Sanitise.

Lemma cached_field_returned_unchecked_witness :
  Spatial.moisture_source_matrix_unique pond_only_site
    {| files := {[npy_path pond := Npy [[7]]]}; warnings_log := [] |}
  = (Ok [[7]], {| files := {[npy_path pond := Npy [[7]]]}; warnings_log := [] |}).
Proof.
  apply (cached_field_returned_unchecked pond_only_site pond).
  - reflexivity.
  - apply lookup_singleton_eq.
Defined.

Section HourlyMoisture.
Import Moisture Spatial.

Variable self : SpatialComfortResult.

(** The hourly moisture matrix repeats the field per wind state in half
    precision: its row of hour [h] is the row that the field holds for a
    wind state whose speed and direction are those of hour [h], every cell
    rounded to binary16. *)
Theorem moisture_matrix_row_of_wind_state (w w' : world) (df : frame)
    (h : nat) (ws wd : Q) :
  moisture_matrix self w = (Ok df, w') ->
  nth_error (wind_speed self) h = Some ws ->
  nth_error (wind_direction self) h = Some wd ->
  exists field w1 i u row,
    moisture_source_matrix_unique self w = (Ok field, w1) /\
    nth_error (wind_speed_direction_unique self) i = Some u /\
    fst u == ws /\ snd u == wd /\
    nth_error field i = Some row /\
    nth_error df h = Some (map np.float16 row).
Proof.
  intros H Hws Hwd.
  unfold moisture_matrix, bindc in H.
  destruct (moisture_source_matrix_unique self w) as [[field|e] w1] eqn:E;
    [|discriminate].
  unfold lift at 1 in H.
  destruct (np.take field (wind_speed_direction_indices self)) as [rows|e] eqn:Et;
    [|discriminate].
  destruct (mean_radiant_temperature_matrix self w1) as [[mrt|e] w2];
    [|discriminate].
  unfold lift in H.
  destruct (DataFrame rows mrt) as [df0|e] eqn:Ed; [|discriminate].
  unfold ret in H. injection H as <- _.
  destruct (DataFrame_ok _ _ _ Ed) as [-> _].
  pose proof (nth_error_combine _ _ _ _ _ Hws Hwd) as Hpair.
  fold (wind_speed_direction self) in Hpair.
  destruct (all_argmax_finds (wind_speed_direction self) (ws, wd)
              (nth_error_In _ _ Hpair)) as [u [Hu [H1 H2]]].
  fold (wind_speed_direction_unique self) in Hu.
  set (i := np.all_argmax (ws, wd) (wind_speed_direction_unique self)) in *.
  assert (Hi : nth_error (wind_speed_direction_indices self) h = Some i).
  { unfold wind_speed_direction_indices. rewrite nth_error_map, Hpair.
    reflexivity. }
  assert (Hrow : exists row, nth_error rows h = Some row).
  { destruct (nth_error rows h) as [row|] eqn:Er; [eauto|].
    exfalso. apply nth_error_None in Er.
    assert (Hlen : length rows = length (wind_speed_direction_indices self)).
    { clear -Et. unfold np.take in Et.
      revert rows Et. induction (wind_speed_direction_indices self) as [|a l IH];
        intros rows Et; cbn [traverse] in Et.
      - injection Et as <-. reflexivity.
      - destruct (nth_error field a); [|discriminate]. cbn [bind] in Et.
        destruct (traverse _ l) as [bs|e]; [|discriminate].
        cbn [bind] in Et. injection Et as <-. cbn [length]. f_equal.
        apply IH. reflexivity. }
    assert (Hsome : nth_error (wind_speed_direction_indices self) h <> None)
      by congruence.
    apply nth_error_Some in Hsome. lia. }
  destruct Hrow as [row Hrow].
  unfold np.take in Et.
  destruct (traverse_nth_error _ _ _ _ _ Et Hrow) as [i' [Hi' Hf]].
  rewrite Hi in Hi'. injection Hi' as <-.
  destruct (nth_error field i) as [r|] eqn:Ef; [|discriminate].
  injection Hf as ->.
  exists field, w1, i, u, row. repeat split; try assumption.
  unfold pd.astype_float16. rewrite !nth_error_map, Hrow. cbn [option_map].
  rewrite map_map. reflexivity.
Qed.

End HourlyMoisture.

Lemma moisture_matrix_row_of_wind_state_witness :
  exists df w' field w1 i u row,
    Spatial.moisture_matrix pond_site fresh_directory = (Ok df, w') /\
    Spatial.moisture_source_matrix_unique pond_site fresh_directory = (Ok field, w1) /\
    nth_error (Spatial.wind_speed_direction_unique pond_site) i = Some u /\
    fst u == 4 /\ snd u == 270 /\
    nth_error field i = Some row /\
    nth_error df 1 = Some (map np.float16 row).
Proof.
  destruct (Spatial.moisture_matrix pond_site fresh_directory)
    as [[df|e] w'] eqn:E; [|vm_compute in E; discriminate].
  destruct (moisture_matrix_row_of_wind_state pond_site fresh_directory w' df
              1 4 270 E eq_refl eq_refl)
    as [field [w1 [i [u [row H]]]]].
  exists df, w', field, w1, i, u, row. split; [reflexivity|exact H].
Defined.

(** ** Typologies *)
Section SkyVisibility.
Import Typology.

Lemma sky_visibility_fold (shelters : list shelter) (acc : Q * Q) :
  let r := fold_left sky_visibility_step shelters acc in
  fst r == fst acc - Qsum sky_occluded shelters /\
  snd r == snd acc + Qsum (fun s => sky_occluded s * porosity s) shelters.
Proof.
  revert acc. induction shelters as [|s shelters IH]; intros acc; cbv zeta.
  - cbn [fold_left Qsum]. split; ring.
  - cbn [fold_left Qsum]. destruct (IH (sky_visibility_step acc s)) as [H1 H2].
    rewrite H1, H2. unfold sky_visibility_step. cbn [fst snd]. split; ring.
Qed.

Lemma Qsum_open_share (shelters : list shelter) :
  Qsum (fun s => sky_occluded s * (1 - porosity s)) shelters
  == Qsum sky_occluded shelters
     - Qsum (fun s => sky_occluded s * porosity s) shelters.
Proof.
  induction shelters as [|s l IH]; cbn [Qsum]; [ring|]. rewrite IH. ring.
Qed.

(** The sky visible from a typology is what its shelters leave open: 1
    less, for every shelter, the share of the sky it occludes times the
    share of it that is not porous.  With porosities in [[0, 1]] and shares
    that are not negative and do not add up to more than 1, it lies in
    [[0, 1]]; it is 1 without shelters and 0 under one opaque shelter that
    occludes the whole sky. *)
Theorem sky_visibility_closed_form (shelters : list shelter) :
  _sky_visibility shelters
  == 1 - Qsum (fun s => sky_occluded s * (1 - porosity s)) shelters /\
  ((forall s, In s shelters -> 0 <= sky_occluded s /\ 0 <= porosity s <= 1) ->
   Qsum sky_occluded shelters <= 1 ->
   0 <= _sky_visibility shelters <= 1) /\
  _sky_visibility [] == 1 /\
  _sky_visibility [{| sky_occluded := 1; porosity := 0 |}] == 0.
Proof.
  assert (Hform : forall l, _sky_visibility l
            == 1 - Qsum (fun s => sky_occluded s * (1 - porosity s)) l).
  { intros l. unfold _sky_visibility. cbv zeta.
    destruct (sky_visibility_fold l (1, 0)) as [H1 H2]. cbv zeta in H1, H2.
    rewrite H1, H2, Qsum_open_share. cbn [fst snd]. ring. }
  split; [apply Hform|]. split; [|split; [reflexivity|reflexivity]].
  intros Hall Hsum. rewrite Hform.
  assert (Hb : 0 <= Qsum (fun s => sky_occluded s * (1 - porosity s)) shelters
               /\ Qsum (fun s => sky_occluded s * (1 - porosity s)) shelters
                  <= Qsum sky_occluded shelters).
  { clear Hsum Hform. induction shelters as [|s l IH]; cbn [Qsum]; [split; lra|].
    destruct IH as [I1 I2]; [intros x Hx; apply Hall; right; exact Hx|].
    destruct (Hall s (or_introl eq_refl)) as [Ho [Hp0 Hp1]].
    split; nra. }
  destruct Hb as [Hb1 Hb2]. split; lra.
Qed.

End SkyVisibility.
